(** * calo_log_analyzer: a shallow embedding of [analyzer.py]

    The analyzer reads log lines, parses them into records, labels every
    record with a category, rebuilds transactions from the transaction
    messages and derives overdraft and per-user reports.

    Conventions of the embedding.
    - A Python [str] is a [string]; a character is a code point below 256.
    - [None] and pandas' NaN/NaT are [None]; an exception is [Raise].
    - A Python float is the rational it denotes ([Q]). Reading a decimal
      and every arithmetic operation round to binary64, to the nearest
      value with ties to even ([Float.round]). The two infinities (a
      magnitude of 2^1024 or more) and the sign of zero have no value in
      [Q] and are outside the model.
    - The attributes of [self] are passed explicitly between the methods. *)

From Stdlib Require Import Bool Arith ZArith QArith List Ascii String Lia.
From Stdlib Require Import Qabs Qround Qpower Qreduction Lqa.
From Stdlib Require Import Permutation Sorted.
Import ListNotations.

Close Scope Q_scope.

(* ------------------------------------------------------------------ *)
(** ** Exceptions *)

Inductive exn : Type :=
| KeyError (key : string)
| ValueError (msg : string)
| IndexError.

Inductive result (A : Type) : Type :=
| Ok (a : A)
| Raise (e : exn).

Arguments Ok {A} a.
Arguments Raise {A} e.

Definition bind {A B : Type} (c : result A) (k : A -> result B) : result B :=
  match c with
  | Ok a => k a
  | Raise e => Raise e
  end.

Notation "x <- c ;; k" := (bind c (fun x => k))
  (at level 61, c at next level, right associativity).

Definition raises {A : Type} (c : result A) : Prop :=
  exists e, c = Raise e.

Definition returns {A : Type} (c : result A) : Prop :=
  exists a, c = Ok a.

(** [for x in l: out.append(f x)], stopping at the first exception. *)
Fixpoint mapM {A B : Type} (f : A -> result B) (l : list A) : result (list B) :=
  match l with
  | [] => Ok []
  | x :: xs => y <- f x ;; ys <- mapM f xs ;; Ok (y :: ys)
  end.

(* ------------------------------------------------------------------ *)
(** ** Python strings *)

Module Str.

Definition tab : ascii := ascii_of_nat 9.
Definition dquote : ascii := ascii_of_nat 34.

Definition code (c : ascii) : nat := nat_of_ascii c.

Definition between (lo hi : nat) (c : ascii) : bool :=
  (lo <=? code c) && (code c <=? hi).

(** [str.isspace] on code points below 256. *)
Definition is_space (c : ascii) : bool :=
  between 9 13 c || between 28 32 c || (code c =? 133) || (code c =? 160).

Definition is_digit (c : ascii) : bool := between 48 57 c.

(** [str.lower] on one code point below 256: A-Z and the Latin-1 capitals
    (all of 192..222 but the multiplication sign 215) move up by 32. *)
Definition lower_char (c : ascii) : ascii :=
  if between 65 90 c || (between 192 222 c && negb (code c =? 215))
  then ascii_of_nat (code c + 32)
  else c.

Local Open Scope string_scope.

Fixpoint lower (s : string) : string :=
  match s with
  | EmptyString => EmptyString
  | String c s' => String (lower_char c) (lower s')
  end.

Fixpoint lstrip (s : string) : string :=
  match s with
  | EmptyString => EmptyString
  | String c s' => if is_space c then lstrip s' else s
  end.

Fixpoint rstrip (s : string) : string :=
  match s with
  | EmptyString => EmptyString
  | String c s' =>
      match rstrip s' with
      | EmptyString => if is_space c then EmptyString else String c EmptyString
      | r => String c r
      end
  end.

(** [s.strip()] *)
Definition strip (s : string) : string := rstrip (lstrip s).

(** [s.split(sep)] for a one-character separator: never the empty list. *)
Fixpoint split (sep : ascii) (s : string) : list string :=
  match s with
  | EmptyString => [EmptyString]
  | String c s' =>
      if Ascii.eqb c sep then EmptyString :: split sep s'
      else match split sep s' with
           | seg :: segs => String c seg :: segs
           | [] => [String c EmptyString]
           end
  end.

(** [needle in hay] *)
Fixpoint contains (needle hay : string) : bool :=
  prefix needle hay ||
  match hay with
  | EmptyString => false
  | String _ hay' => contains needle hay'
  end.

Fixpoint take (n : nat) (s : string) : string :=
  match n, s with
  | S n', String c s' => String c (take n' s')
  | _, _ => EmptyString
  end.

Fixpoint drop (n : nat) (s : string) : string :=
  match n, s with
  | S n', String _ s' => drop n' s'
  | _, _ => s
  end.

(** The quoted form of a key or a value, as it stands in a payload. *)
Definition quoted (s : string) : string :=
  String dquote (s ++ String dquote EmptyString).

End Str.

(** [l[i]]: IndexError out of range. *)
Definition py_index {A : Type} (l : list A) (i : nat) : result A :=
  match nth_error l i with
  | Some x => Ok x
  | None => Raise IndexError
  end.

(* ------------------------------------------------------------------ *)
(** ** The regular expressions of the source

    Every pattern of [analyzer.py] is a sequence of one-character items,
    each repeated greedily between a least and a greatest count, with one
    capturing group around a run of consecutive items. The matcher is the
    backtracking one of [re]: an item first takes as many characters as it
    can and gives them back one at a time while the rest fails. *)

Module Re.

Record item : Type := Item {
  cls : ascii -> bool;
  rmin : nat;
  rmax : option nat
}.

Definition one (p : ascii -> bool) : item := Item p 1 (Some 1).
Definition many1 (p : ascii -> bool) : item := Item p 1 None.
Definition exactly (n : nat) (p : ascii -> bool) : item := Item p n (Some n).

Fixpoint lit (s : string) : list item :=
  match s with
  | EmptyString => []
  | String c s' => one (Ascii.eqb c) :: lit s'
  end.

Record pattern : Type := Pattern {
  before : list item;
  group : list item;
  after : list item
}.

(** Number of leading characters of [s] in the class, at most [bound]. *)
Fixpoint span (p : ascii -> bool) (bound : option nat) (s : string) : nat :=
  match s with
  | EmptyString => 0
  | String c s' =>
      match bound with
      | Some 0 => 0
      | _ => if p c then S (span p (option_map pred bound) s') else 0
      end
  end.

(** Tries the counts [lo + n], ..., [lo], the greatest first. *)
Fixpoint try_down {A : Type} (f : nat -> option A) (lo n : nat) : option A :=
  match f (lo + n) with
  | Some r => Some r
  | None =>
      match n with
      | 0 => None
      | S n' => try_down f lo n'
      end
  end.

(** The text taken by each item, and what is left of the subject. *)
Fixpoint match_items (items : list item) (s : string)
  : option (list string * string) :=
  match items with
  | [] => Some ([], s)
  | it :: rest =>
      let hi := span (cls it) (rmax it) s in
      if hi <? rmin it then None
      else try_down
             (fun k =>
                match match_items rest (Str.drop k s) with
                | Some (taken, rest') => Some (Str.take k s :: taken, rest')
                | None => None
                end)
             (rmin it) (hi - rmin it)
  end.

(** [re.match(p, s)] and then [.group(1)]. *)
Definition match_ (p : pattern) (s : string) : option string :=
  match match_items (before p ++ group p ++ after p) s with
  | Some (taken, _) =>
      Some (String.concat EmptyString
              (firstn (List.length (group p))
                 (skipn (List.length (before p)) taken)))
  | None => None
  end.

(** [re.search(p, s)] and then [.group(1)]: the leftmost start wins. *)
Fixpoint search (p : pattern) (s : string) : option string :=
  match match_ p s with
  | Some g => Some g
  | None =>
      match s with
      | EmptyString => None
      | String _ s' => search p s'
      end
  end.

End Re.

(* ------------------------------------------------------------------ *)
(** ** [float(s)]

    [float] is only ever applied to a capture of [[\d.]+] or [[\d.-]+], so
    to a string of digits, dots and minus signs. On those it accepts an
    optional sign, then digits with at most one dot and at least one digit;
    everything else is a ValueError. (Exponents, underscores, blanks and
    the words inf and nan, which [float] also reads, cannot be captured.)
    The number read is the decimal rounded to binary64. *)

Module Float.

(** *** Rounding to binary64

    A binary64 value is a multiple of a power of two with a multiplier
    below 2^53 in magnitude; the least power is 2^-1074. [round] takes a
    rational to the nearest such value, a tie going to the even
    multiplier. *)

(** The floor of the binary logarithm of a positive rational. *)
Definition ilog2 (x : Q) : Z :=
  let l := (Z.log2 (Qnum x) - Z.log2 (Zpos (Qden x)))%Z in
  if Qle_bool ((2 # 1) ^ l) x then l else (l - 1)%Z.

(** The nearest integer, a tie going to the even one. *)
Definition nearest_even (y : Q) : Z :=
  let f := Qfloor y in
  match (y - inject_Z f ?= 1 # 2)%Q with
  | Lt => f
  | Gt => (f + 1)%Z
  | Eq => if Z.even f then f else (f + 1)%Z
  end.

(** The exponent of the last place of the values around [x]. *)
Definition exponent (x : Q) : Z := Z.max (ilog2 (Qabs x) - 52) (-1074).

Definition round_at (e : Z) (x : Q) : Q :=
  (inject_Z (nearest_even (x / (2 # 1) ^ e)) * (2 # 1) ^ e)%Q.

Definition round (x : Q) : Q :=
  let x := Qred x in
  if Qeq_bool x 0 then 0%Q else Qred (round_at (exponent x) x).

(** The unit roundoff, and what a rounding keeps of a number at least. *)
Definition eps : Q := (2 # 1) ^ (-53).
Definition rho : Q := 1 - eps.


(** *** Reading a decimal *)

Definition digit_val (c : ascii) : Z := Z.of_nat (Str.code c) - 48.

Fixpoint all_digits (s : string) : bool :=
  match s with
  | EmptyString => true
  | String c s' => Str.is_digit c && all_digits s'
  end.

Fixpoint digits_val (acc : Z) (s : string) : Z :=
  match s with
  | EmptyString => acc
  | String c s' => digits_val (10 * acc + digit_val c)%Z s'
  end.

(** The text before the first dot, and the text after it if there is one. *)
Fixpoint cut_dot (s : string) : string * option string :=
  match s with
  | EmptyString => (EmptyString, None)
  | String c s' =>
      if Ascii.eqb c "."%char then (EmptyString, Some s')
      else let (i, f) := cut_dot s' in (String c i, f)
  end.

Definition unsigned (s : string) : option Q :=
  let (i, f) := cut_dot s in
  let f := match f with Some f => f | None => EmptyString end in
  if all_digits i && all_digits f
     && negb (String.length i + String.length f =? 0)
  then Some (Qmake (digits_val 0 (i ++ f))
                   (Z.to_pos (10 ^ Z.of_nat (String.length f))))
  else None.

Definition float (s : string) : result Q :=
  let (neg, body) :=
    match s with
    | String c s' =>
        if Ascii.eqb c "-"%char then (true, s')
        else if Ascii.eqb c "+"%char then (false, s')
        else (false, s)
    | EmptyString => (false, s)
    end in
  match unsigned body with
  | Some q => Ok (round (if neg then Qopp q else q))
  | None => Raise (ValueError ("could not convert string to float: " ++ s))
  end.

Definition ltb (x y : Q) : bool := negb (Qle_bool y x).
Definition leb (x y : Q) : bool := Qle_bool x y.

End Float.

(* ------------------------------------------------------------------ *)
(** ** Data frames

    A frame made from a list of dicts has the dicts' keys as its columns,
    and no column at all when the list is empty. *)

Record DataFrame (R : Type) : Type := Frame {
  columns : list string;
  rows : list R
}.

Arguments Frame {R} columns rows.
Arguments columns {R} d.
Arguments rows {R} d.

Definition DataFrame_of {R : Type} (keys : list string) (data : list R)
  : DataFrame R :=
  {| columns := match data with [] => [] | _ :: _ => keys end;
     rows := data |}.

Definition has_column {R : Type} (df : DataFrame R) (key : string) : bool :=
  existsb (String.eqb key) (columns df).

(** [df.empty]: one of the two axes has length 0. *)
Definition empty {R : Type} (df : DataFrame R) : bool :=
  match rows df, columns df with
  | _ :: _, _ :: _ => false
  | _, _ => true
  end.

(** [df[key]]: KeyError when the frame has no such column. *)
Definition getitem {R A : Type} (df : DataFrame R) (key : string)
           (field : R -> A) : result (list A) :=
  if has_column df key then Ok (map field (rows df))
  else Raise (KeyError key).

(** [df[mask]]: the rows that pass, same columns. *)
Definition select {R : Type} (keep : R -> bool) (df : DataFrame R)
  : DataFrame R :=
  {| columns := columns df; rows := filter keep (rows df) |}.

(** [df.iloc[0]] and [df.iloc[-1]] *)
Definition iloc_first {R : Type} (df : DataFrame R) : result R :=
  py_index (rows df) 0.

Definition iloc_last {R : Type} (df : DataFrame R) : result R :=
  py_index (rows df) (List.length (rows df) - 1).

(** [series.nunique()]: the distinct values, nulls left out. *)
Fixpoint somes {A : Type} (l : list (option A)) : list A :=
  match l with
  | [] => []
  | Some x :: l' => x :: somes l'
  | None :: l' => somes l'
  end.

Definition nunique (l : list (option string)) : nat :=
  List.length (nodup string_dec (somes l)).

(** [series.unique()]: the distinct values by first appearance, nulls kept. *)
Definition option_string_dec (x y : option string) : {x = y} + {x <> y}.
Proof. decide equality; apply string_dec. Defined.

Definition unique (l : list (option string)) : list (option string) :=
  rev (nodup option_string_dec (rev l)).

(** [series.sum()] on a column of floats: a null counts for 0 and the
    cells are added by numpy's [sum], here [fsum]. *)
Definition series_sum (fsum : list Q -> Q) (l : list (option Q)) : Q :=
  fsum (map (fun x => match x with Some q => q | None => 0%Q end) l).

(** [series.min()] and [series.max()]: nulls are skipped, and the result is
    null when nothing is left. *)
Definition qmin (x y : Q) : Q := if Float.leb x y then x else y.
Definition qmax (x y : Q) : Q := if Float.leb x y then y else x.

Definition series_min (l : list (option Q)) : option Q :=
  match somes l with
  | [] => None
  | x :: xs => Some (fold_left qmin xs x)
  end.

Definition series_max (l : list (option Q)) : option Q :=
  match somes l with
  | [] => None
  | x :: xs => Some (fold_left qmax xs x)
  end.

(* ------------------------------------------------------------------ *)
(** ** The records of the pipeline *)

(** The dict returned by [parse_log_data]. *)
Module Rec.
Record t : Type := Make {
  timestamp : option string;
  session_id : option string;
  message_type : option string;
  message : option string
}.
Definition keys : list string :=
  ["timestamp"; "session_id"; "message_type"; "message"]%string.
End Rec.

(** A row of [parsed_logs] once [datetime] is set. *)
Module Log.
Record t : Type := Make {
  rec : Rec.t;
  datetime : option Z
}.
End Log.

Module Category.
Inductive t : Type :=
| processing_message
| balance_sync_start
| balance_already_synced
| balance_sync_skip
| transaction
| slack_notification
| error
| overdraft
| other.

Definition eqb (a b : t) : bool :=
  match a, b with
  | processing_message, processing_message
  | balance_sync_start, balance_sync_start
  | balance_already_synced, balance_already_synced
  | balance_sync_skip, balance_sync_skip
  | transaction, transaction
  | slack_notification, slack_notification
  | error, error
  | overdraft, overdraft
  | other, other => true
  | _, _ => false
  end.

Definition label (c : t) : string :=
  match c with
  | processing_message => "processing_message"
  | balance_sync_start => "balance_sync_start"
  | balance_already_synced => "balance_already_synced"
  | balance_sync_skip => "balance_sync_skip"
  | transaction => "transaction"
  | slack_notification => "slack_notification"
  | error => "error"
  | overdraft => "overdraft"
  | other => "other"
  end.
End Category.

(** A row of [parsed_logs] once [message_category] is set. *)
Module CLog.
Record t : Type := Make {
  log : Log.t;
  message_category : Category.t
}.
Definition message (r : t) : option string := Rec.message (Log.rec (log r)).
End CLog.

(** A row of [transactions]. *)
Module Tx.
Record t : Type := Make {
  timestamp : option string;
  datetime : option Z;
  session_id : option string;
  id : option string;
  type : option string;
  source : option string;
  action : option string;
  amount : option Q;
  vat : option Q;
  userBalance : option Q;
  userId : option string
}.
Definition keys : list string :=
  ["timestamp"; "datetime"; "session_id"; "id"; "type"; "source"; "action";
   "amount"; "vat"; "userBalance"; "userId"]%string.
End Tx.

(** A row of the user summary. *)
Module User.
Record t : Type := Make {
  user_id : string;
  transaction_count : nat;
  credit_count : nat;
  debit_count : nat;
  total_credits : Q;
  total_debits : Q;
  min_balance : option Q;
  max_balance : option Q;
  current_balance : option Q;
  first_transaction : option string;
  last_transaction : option string;
  overdraft_flag : bool
}.
Definition keys : list string :=
  ["user_id"; "transaction_count"; "credit_count"; "debit_count";
   "total_credits"; "total_debits"; "min_balance"; "max_balance";
   "current_balance"; "first_transaction"; "last_transaction";
   "overdraft_flag"]%string.
End User.

Record transaction_stats : Type := TransactionStats {
  total_count : nat;
  credit_count : nat;
  debit_count : nat;
  total_credits : Q;
  total_debits : Q;
  unique_users : nat;
  unique_sessions : nat
}.

Record overdraft_stats : Type := OverdraftStats {
  negative_balance_count : nat;
  low_balance_count : nat;
  at_risk_users : nat
}.

(** A row of the exported category table. *)
Record category_row : Type := CategoryRow {
  Category_ : Category.t;
  Count : nat;
  Percentage : Q
}.

(* ------------------------------------------------------------------ *)
(** ** The analyzer *)

Module CaloLogAnalyzer.

Import Str.
Local Open Scope string_scope.

(** [^(\d{4}-\d{2}-\d{2}T\d{2}:\d{2}:\d{2}\.\d+Z)] *)
Definition timestamp_pattern : Re.pattern :=
  Re.Pattern []
    ([Re.exactly 4 is_digit] ++ Re.lit "-" ++ [Re.exactly 2 is_digit]
       ++ Re.lit "-" ++ [Re.exactly 2 is_digit] ++ Re.lit "T"
       ++ [Re.exactly 2 is_digit] ++ Re.lit ":" ++ [Re.exactly 2 is_digit]
       ++ Re.lit ":" ++ [Re.exactly 2 is_digit] ++ Re.lit "."
       ++ [Re.many1 is_digit] ++ Re.lit "Z")%list
    [].

(** The loop of [load_logs] over the lines of the archives: the lines with
    INFO in them, stripped. *)
Definition load_logs (file_lines : list string) : list string :=
  map strip (filter (contains "INFO") file_lines).

(** [l[i] if len(l) > i else None] *)
Definition segment (l : list string) (i : nat) : result (option string) :=
  if (i <? List.length l)%nat then x <- py_index l i ;; Ok (Some x)
  else Ok None.

Definition parse_log_data (string_data : option string)
  : result (option Rec.t) :=
  match string_data with
  | None => Ok None
  | Some s =>
      let log_data := strip s in
      let log_data_list := split tab log_data in
      let timestamp := Re.match_ timestamp_pattern log_data in
      session_id <- segment log_data_list 1 ;;
      message_type <- segment log_data_list 2 ;;
      message <- segment log_data_list 3 ;;
      Ok (Some (Rec.Make timestamp session_id message_type message))
  end.

Definition categorize_message (msg : option string) : Category.t :=
  match msg with
  | None => Category.other
  | Some m =>
      let msg_lower := lower m in
      if contains "processing message" msg_lower
      then Category.processing_message
      else if contains "start syncing the balance" msg_lower
      then Category.balance_sync_start
      else if contains "balance is already synced" msg_lower
      then Category.balance_already_synced
      else if contains "skipping the balance sync" msg_lower
      then Category.balance_sync_skip
      else if contains "transaction {" msg_lower
      then Category.transaction
      else if contains "sending slack notification" msg_lower
      then Category.slack_notification
      else if contains "error" msg_lower || contains "failed" msg_lower
      then Category.error
      else if contains "overdraft" msg_lower
      then Category.overdraft
      else Category.other
  end.

(** [series.value_counts()]: the values by first appearance with their
    counts, then by falling count, equal counts staying in that order. *)
Definition count_of (c : Category.t) (l : list Category.t) : nat :=
  List.length (filter (Category.eqb c) l).

Fixpoint firsts (l : list Category.t) : list Category.t :=
  match l with
  | [] => []
  | c :: l' => c :: filter (fun d => negb (Category.eqb c d)) (firsts l')
  end.

Fixpoint insert_by_count (x : Category.t * nat) (l : list (Category.t * nat))
  : list (Category.t * nat) :=
  match l with
  | [] => [x]
  | y :: l' =>
      if (snd y <=? snd x)%nat then x :: l else y :: insert_by_count x l'
  end.

Definition value_counts (l : list Category.t) : list (Category.t * nat) :=
  fold_right insert_by_count [] (map (fun c => (c, count_of c l)) (firsts l)).

Definition categorize_logs (parsed_logs : DataFrame Log.t)
  : result (DataFrame CLog.t * list (Category.t * nat)) :=
  messages <- getitem parsed_logs "message"
                (fun l => Rec.message (Log.rec l)) ;;
  let categorized :=
    {| columns := (columns parsed_logs ++ ["message_category"])%list;
       rows := map (fun l => CLog.Make l
                               (categorize_message (Rec.message (Log.rec l))))
                   (rows parsed_logs) |} in
  Ok (categorized,
      value_counts (map CLog.message_category (rows categorized))).

(** [str(x)] of a cell that holds a string or None. *)
Definition py_str (x : option string) : string :=
  match x with
  | Some s => s
  | None => "None"
  end.

Definition not_dquote (c : ascii) : bool := negb (Ascii.eqb c dquote).
Definition digit_or_dot (c : ascii) : bool := is_digit c || Ascii.eqb c ".".
Definition digit_dot_or_minus (c : ascii) : bool :=
  is_digit c || Ascii.eqb c "." || Ascii.eqb c "-".

(** The patterns of the text fields: the quoted key, a colon, a quote,
    the group [([^Q]+)] where Q is the quote character, and a quote. *)
Definition quoted_pattern (key : string) : Re.pattern :=
  Re.Pattern (Re.lit (quoted key ++ ":" ++ String dquote EmptyString))
             [Re.many1 not_dquote]
             (Re.lit (String dquote EmptyString)).

(** The patterns of the numeric fields: the quoted key, a colon and the
    group, [([\d.]+)] or [([\d.-]+)]. *)
Definition number_pattern (key : string) (p : ascii -> bool) : Re.pattern :=
  Re.Pattern (Re.lit (quoted key ++ ":")) [Re.many1 p] [].

Definition text_field (key msg : string) : option string :=
  Re.search (quoted_pattern key) msg.

Definition number_field (key : string) (p : ascii -> bool) (msg : string)
  : result (option Q) :=
  match Re.search (number_pattern key p) msg with
  | Some g => x <- Float.float g ;; Ok (Some x)
  | None => Ok None
  end.

(** The body of the loop of [extract_transactions] up to the test: the
    dict [tx_data] of one transaction log. *)
Definition extract_fields (log : CLog.t) : result Tx.t :=
  let msg := py_str (CLog.message log) in
  let id := text_field "id" msg in
  let type := text_field "type" msg in
  let source := text_field "source" msg in
  let action := text_field "action" msg in
  amount <- number_field "amount" digit_or_dot msg ;;
  vat <- number_field "vat" digit_or_dot msg ;;
  userBalance <- number_field "userBalance" digit_dot_or_minus msg ;;
  let userId := text_field "userId" msg in
  Ok (Tx.Make (Rec.timestamp (Log.rec (CLog.log log)))
              (Log.datetime (CLog.log log))
              (Rec.session_id (Log.rec (CLog.log log)))
              id type source action amount vat userBalance userId).

(** The truth value of a cell that holds a string or None. *)
Definition truthy (x : option string) : bool :=
  match x with
  | Some s => negb (String.eqb s EmptyString)
  | None => false
  end.

Definition is_some {A : Type} (x : option A) : bool :=
  match x with
  | Some _ => true
  | None => false
  end.

(** The test of the loop: [tx_data.get(id)] is true and
    [tx_data.get(amount)] is not None. *)
Definition retained (tx_data : Tx.t) : bool :=
  truthy (Tx.id tx_data) && is_some (Tx.amount tx_data).

Definition is_transaction (l : CLog.t) : bool :=
  Category.eqb (CLog.message_category l) Category.transaction.

Definition type_is (ty : string) (tx : Tx.t) : bool :=
  match Tx.type tx with
  | Some s => String.eqb s ty
  | None => false
  end.

Definition no_transaction_stats : transaction_stats :=
  TransactionStats 0 0 0 0%Q 0%Q 0 0.

(** The three library routines the analyzer leans on are parameters.
    - [to_datetime] is [pd.to_datetime]. The source calls it once on the
      whole timestamp column, and how a string converts may depend on
      the other cells (the format and the resolution are inferred from
      the column): [to_datetime column s] is what the string [s] of
      [column] converts to in that call, the date-time value as a count
      of time units since the epoch, or the exception of the call. A
      call that pandas refuses is one in which a cell is refused.
    - [argsort] is numpy's [argsort] on the key column without its nulls:
      the positions of the keys in rising order of the keys. Which of two
      equal keys comes first is left open (the source asks for the default
      kind, quicksort).
    - [fsum] is numpy's [sum] on an array of floats. Every addition
      rounds, and which cells are added in which order is the library's
      choice, so nothing is assumed of it. *)
Section Library.

Variable to_datetime : list (option string) -> string -> result Z.
Variable argsort : list Z -> list nat.
Variable fsum : list Q -> Q.

Definition extract_transactions (parsed_logs : DataFrame CLog.t)
  : result (DataFrame Tx.t * transaction_stats) :=
  categories <- getitem parsed_logs "message_category"
                  CLog.message_category ;;
  let transaction_logs := select is_transaction parsed_logs in
  candidates <- mapM extract_fields (rows transaction_logs) ;;
  let transactions_data := filter retained candidates in
  let transactions := DataFrame_of Tx.keys transactions_data in
  if negb (empty transactions) then
    let credit_txs := select (type_is "CREDIT") transactions in
    let debit_txs := select (type_is "DEBIT") transactions in
    Ok (transactions,
        TransactionStats
          (List.length (rows transactions))
          (List.length (rows credit_txs))
          (List.length (rows debit_txs))
          (if negb (empty credit_txs)
           then series_sum fsum (map Tx.amount (rows credit_txs)) else 0%Q)
          (if negb (empty debit_txs)
           then series_sum fsum (map Tx.amount (rows debit_txs)) else 0%Q)
          (nunique (map Tx.userId (rows transactions)))
          (nunique (map Tx.session_id (rows transactions))))
  else Ok (transactions, no_transaction_stats).

(** [series < 0] and [(series >= 0) & (series < 10)] on one cell: a
    comparison with a null is false. *)
Definition negative_balance (tx : Tx.t) : bool :=
  match Tx.userBalance tx with
  | Some b => Float.ltb b 0
  | None => false
  end.

Definition low_balance (tx : Tx.t) : bool :=
  match Tx.userBalance tx with
  | Some b => Float.leb 0 b && Float.ltb b (10 # 1)
  | None => false
  end.

Definition no_overdraft_stats : overdraft_stats := OverdraftStats 0 0 0.

Definition detect_overdrafts (transactions : DataFrame Tx.t)
  : DataFrame Tx.t * overdraft_stats :=
  if negb (empty transactions) && has_column transactions "userBalance" then
    let negative_balances := select negative_balance transactions in
    let overdrafts :=
      if negb (empty negative_balances) then rows negative_balances else [] in
    let low_balances := select low_balance transactions in
    (DataFrame_of Tx.keys overdrafts,
     OverdraftStats
       (List.length (rows negative_balances))
       (List.length (rows low_balances))
       (if negb (empty low_balances)
        then nunique (map Tx.userId (rows low_balances)) else 0))
  else (DataFrame_of Tx.keys [], no_overdraft_stats).

(** [series == user_id] on one cell. *)
Definition user_is (user_id : string) (tx : Tx.t) : bool :=
  match Tx.userId tx with
  | Some u => String.eqb u user_id
  | None => false
  end.

(** The rows at the given positions, in that order. *)
Definition take_idx {A : Type} (l : list A) (idx : list nat) : list A :=
  flat_map (fun i => match nth_error l i with
                     | Some x => [x]
                     | None => []
                     end) idx.

(** The category table of [export_results]: [Count / Count.sum() * 100].
    The counts are integers and their sum is exact; the division turns
    both into floats and rounds, and so does the multiplication. *)
Definition percentage (count total : nat) : Q :=
  Float.round
    (Float.round (Float.round (inject_Z (Z.of_nat count))
                  / Float.round (inject_Z (Z.of_nat total)))
     * (100 # 1)).

Definition category_table (category_stats : list (Category.t * nat))
  : list category_row :=
  let total := list_sum (map snd category_stats) in
  map (fun cn => CategoryRow (fst cn) (snd cn) (percentage (snd cn) total))
      category_stats.

(** What [export_results] hands to the CSV writer: a table that is not
    written is [None]. *)
Record exports : Type := Exports {
  transactions_csv : option (DataFrame Tx.t);
  user_analysis_csv : option (DataFrame User.t);
  category_stats_csv : list category_row;
  overdrafts_csv : option (DataFrame Tx.t)
}.

Record analysis : Type := Analysis {
  category_stats : list (Category.t * nat);
  tx_stats : transaction_stats;
  od_stats : overdraft_stats;
  exported : exports
}.

Definition nonempty {R : Type} (df : DataFrame R) : option (DataFrame R) :=
  if negb (empty df) then Some df else None.

(** One cell of the column that [pd.to_datetime] converts: a null stays
    null (NaT). *)
Definition to_datetime_cell (column : list (option string))
           (timestamp : option string) : result (option Z) :=
  match timestamp with
  | None => Ok None
  | Some s => d <- to_datetime column s ;; Ok (Some d)
  end.

Definition parse_all_logs (raw_logs : list string) : result (DataFrame Log.t) :=
  parsed <- mapM (fun row => parse_log_data (Some row)) raw_logs ;;
  let parsed_data := somes parsed in
  let parsed_logs := DataFrame_of Rec.keys parsed_data in
  timestamps <- getitem parsed_logs "timestamp" Rec.timestamp ;;
  with_datetime <-
    mapM (fun r => d <- to_datetime_cell timestamps (Rec.timestamp r) ;;
                   Ok (Log.Make r d))
         (rows parsed_logs) ;;
  Ok {| columns := (columns parsed_logs ++ ["datetime"])%list;
        rows := with_datetime |}.

(** [df.sort_values(datetime)]: the rows with a datetime in the order
    [argsort] gives, then the rows without one in the order they had. *)
Definition sort_values (df : DataFrame Tx.t) : DataFrame Tx.t :=
  let non_nans := filter (fun tx => is_some (Tx.datetime tx)) (rows df) in
  let nans := filter (fun tx => negb (is_some (Tx.datetime tx))) (rows df) in
  {| columns := columns df;
     rows := (take_idx non_nans (argsort (somes (map Tx.datetime non_nans)))
              ++ nans)%list |}.

(** The dict [user_stats] of one user, the flag included. *)
Definition user_stats (user_id : string) (user_txs : DataFrame Tx.t)
  : result User.t :=
  let credits := select (type_is "CREDIT") user_txs in
  let debits := select (type_is "DEBIT") user_txs in
  let balances := map Tx.userBalance (rows user_txs) in
  let min_balance :=
    if has_column user_txs "userBalance" then series_min balances else None in
  let max_balance :=
    if has_column user_txs "userBalance" then series_max balances else None in
  current_balance <-
    (if has_column user_txs "userBalance"
     then last <- iloc_last user_txs ;; Ok (Tx.userBalance last)
     else Ok None) ;;
  first <- iloc_first user_txs ;;
  last <- iloc_last user_txs ;;
  let overdraft_flag :=
    match min_balance with
    | Some m => Float.ltb m 0
    | None => false
    end in
  Ok (User.Make user_id
        (List.length (rows user_txs))
        (List.length (rows credits))
        (List.length (rows debits))
        (series_sum fsum (map Tx.amount (rows credits)))
        (series_sum fsum (map Tx.amount (rows debits)))
        min_balance max_balance current_balance
        (Tx.timestamp first) (Tx.timestamp last)
        overdraft_flag).

(** The body of the loop over the users. *)
Definition user_row (transactions : DataFrame Tx.t) (user_id : option string)
  : result (option User.t) :=
  match user_id with
  | None => Ok None
  | Some u =>
      let user_txs := sort_values (select (user_is u) transactions) in
      if negb (empty user_txs)
      then st <- user_stats u user_txs ;; Ok (Some st)
      else Ok None
  end.

Definition analyze_user_patterns (transactions : DataFrame Tx.t)
  : result (DataFrame User.t) :=
  if negb (empty transactions) then
    ids <- getitem transactions "userId" Tx.userId ;;
    user_analysis <- mapM (user_row transactions) (unique ids) ;;
    Ok (DataFrame_of User.keys (somes user_analysis))
  else Ok (DataFrame_of User.keys []).

Definition export_results (transactions : DataFrame Tx.t)
           (category_stats : list (Category.t * nat)) : result exports :=
  user_analysis <- analyze_user_patterns transactions ;;
  let overdrafts := fst (detect_overdrafts transactions) in
  Ok (Exports (nonempty transactions) (nonempty user_analysis)
              (category_table category_stats) (nonempty overdrafts)).

Definition run_complete_analysis (file_lines : list string) : result analysis :=
  let raw_logs := load_logs file_lines in
  parsed_logs <- parse_all_logs raw_logs ;;
  categorized <- categorize_logs parsed_logs ;;
  extracted <- extract_transactions (fst categorized) ;;
  let transactions := fst extracted in
  let overdrafts := detect_overdrafts transactions in
  user_analysis <- analyze_user_patterns transactions ;;
  exported <- export_results transactions (snd categorized) ;;
  Ok (Analysis (snd categorized) (snd extracted) (snd overdrafts) exported).

End Library.

(** What the theorems ask of [argsort]: it returns every position once, and
    the keys read in that order rise. *)
Definition sorts (argsort : list Z -> list nat) : Prop :=
  forall keys : list Z,
    Permutation (argsort keys) (seq 0 (List.length keys)) /\
    StronglySorted Z.le (take_idx keys (argsort keys)).

(** *** A converter, a sort and a sum to run the analyzer with

    [iso_to_datetime] reads a timestamp of the shape the anchored pattern
    admits and refuses a date or a time of day that does not exist;
    [cellwise] makes of it a converter of columns that looks at no other
    cell; [insertion_argsort] is the stable insertion sort;
    [sequential_sum] adds the cells from first to last, rounding every
    addition. *)

Definition field (s : string) (start len : nat) : Z :=
  Float.digits_val 0 (take len (drop start s)).

Definition leap_year (y : Z) : bool :=
  ((y mod 4 =? 0) && negb (y mod 100 =? 0) || (y mod 400 =? 0))%Z.

Definition days_in_month (y m : Z) : Z :=
  (if m =? 2 then (if leap_year y then 29 else 28)
   else if (m =? 4) || (m =? 6) || (m =? 9) || (m =? 11) then 30
   else 31)%Z.

Definition days_from_civil (y m d : Z) : Z :=
  (let y' := if m <=? 2 then y - 1 else y in
   let era := y' / 400 in
   let yoe := y' - era * 400 in
   let doy := (153 * (if 2 <? m then m - 3 else m + 9) + 2) / 5 + d - 1 in
   let doe := yoe * 365 + yoe / 4 - yoe / 100 + doy in
   era * 146097 + doe - 719468)%Z.

Definition iso_to_datetime (s : string) : result Z :=
  let bad := Raise (ValueError ("cannot convert to a date-time: " ++ s)) in
  match Re.match_ timestamp_pattern s with
  | None => bad
  | Some t =>
      let y := field s 0 4 in
      let m := field s 5 2 in
      let d := field s 8 2 in
      let hh := field s 11 2 in
      let mm := field s 14 2 in
      let ss := field s 17 2 in
      let frac := take (String.length s - 21) (drop 20 s) in
      let ns := Float.digits_val 0 (take 9 (frac ++ "000000000")) in
      if (String.eqb t s && (1 <=? m) && (m <=? 12) && (1 <=? d)
          && (d <=? days_in_month y m) && (hh <=? 23) && (mm <=? 59)
          && (ss <=? 59))%Z
      then Ok ((((days_from_civil y m d * 24 + hh) * 60 + mm) * 60 + ss)
               * 1000000000 + ns)%Z
      else bad
  end.

Fixpoint insert_key (x : Z * nat) (l : list (Z * nat)) : list (Z * nat) :=
  match l with
  | [] => [x]
  | y :: l' => if (fst x <=? fst y)%Z then x :: l else y :: insert_key x l'
  end.

Definition insertion_argsort (keys : list Z) : list nat :=
  map snd (fold_right insert_key []
             (combine keys (seq 0 (List.length keys)))).

Definition cellwise (convert : string -> result Z)
  : list (option string) -> string -> result Z :=
  fun _ s => convert s.

Definition sequential_sum (cells : list Q) : Q :=
  fold_left (fun acc x => Float.round (acc + x)) cells 0%Q.

End CaloLogAnalyzer.

(* ------------------------------------------------------------------ *)
(** ** The words of the specification *)

Module Spec.

Import Str.
Local Open Scope string_scope.

(** The letters of the alphabet, each small one with its capital. *)
Definition letters : list (ascii * ascii) :=
  combine (list_ascii_of_string "abcdefghijklmnopqrstuvwxyz")
          (list_ascii_of_string "ABCDEFGHIJKLMNOPQRSTUVWXYZ").

(** The two characters are the same, or the same letter in the two
    cases. *)
Definition same_letter (a b : ascii) : bool :=
  Ascii.eqb a b ||
  existsb (fun p => Ascii.eqb a (fst p) && Ascii.eqb b (snd p)
                    || Ascii.eqb a (snd p) && Ascii.eqb b (fst p))
          letters.

(** The two texts differ by the case of their letters at most. *)
Fixpoint same_text (m m' : string) : bool :=
  match m, m' with
  | EmptyString, EmptyString => true
  | String a m1, String b m1' => same_letter a b && same_text m1 m1'
  | _, _ => false
  end.

(** [kw] stands at the head of [m], letter case set aside. *)
Fixpoint ci_prefix (kw m : string) : bool :=
  match kw, m with
  | EmptyString, _ => true
  | String _ _, EmptyString => false
  | String a kw', String b m' => same_letter a b && ci_prefix kw' m'
  end.

(** Every character, and the characters the keywords of the taxonomy are
    written in: the ones below 128 that are no capital. *)
Definition all_ascii : list ascii := map ascii_of_nat (seq 0 256).

Definition keyword_char (a : ascii) : bool :=
  (code a <? 128)%nat && negb (between 65 90 a).

Fixpoint keyword (kw : string) : bool :=
  match kw with
  | EmptyString => true
  | String a kw' => keyword_char a && keyword kw'
  end.

(** [kw] occurs somewhere in [m], letter case set aside. *)
Fixpoint ci_contains (kw m : string) : bool :=
  ci_prefix kw m ||
  match m with
  | EmptyString => false
  | String _ m' => ci_contains kw m'
  end.

(** The ordered taxonomy: predicate and label, highest priority first. *)
Definition rules : list ((string -> bool) * Category.t) :=
  [ (ci_contains "processing message", Category.processing_message);
    (ci_contains "start syncing the balance", Category.balance_sync_start);
    (ci_contains "balance is already synced", Category.balance_already_synced);
    (ci_contains "skipping the balance sync", Category.balance_sync_skip);
    (ci_contains "transaction {", Category.transaction);
    (ci_contains "sending slack notification", Category.slack_notification);
    (fun m => ci_contains "error" m || ci_contains "failed" m, Category.error);
    (ci_contains "overdraft", Category.overdraft) ].

(** The label of the first rule whose predicate holds, [other] if none. *)
Fixpoint first_match (rs : list ((string -> bool) * Category.t)) (m : string)
  : Category.t :=
  match rs with
  | [] => Category.other
  | (p, c) :: rs' => if p m then c else first_match rs' m
  end.

Definition category (msg : option string) : Category.t :=
  match msg with
  | None => Category.other
  | Some m => first_match rules m
  end.

(** A piece of text is a legal take of a pattern item. *)
Definition fits (it : Re.item) (piece : string) : Prop :=
  Re.rmin it <= String.length piece /\
  (forall n, Re.rmax it = Some n -> String.length piece <= n) /\
  Forall (fun c => Re.cls it c = true) (list_ascii_of_string piece).

(** Extraction fails on the message: it is a transaction message, reading
    the fields of any log that carries it raises, and so does extracting
    the transactions of any frame with such a log. *)
Definition breaks_extraction (msg : string) : Prop :=
  CaloLogAnalyzer.categorize_message (Some msg) = Category.transaction /\
  (forall log : CLog.t,
      CLog.message log = Some msg ->
      raises (CaloLogAnalyzer.extract_fields log)) /\
  (forall (fsum : list Q -> Q) (parsed_logs : DataFrame CLog.t)
          (log : CLog.t),
      has_column parsed_logs "message_category" = true ->
      In log (rows parsed_logs) ->
      CLog.message log = Some msg ->
      CLog.message_category log = Category.transaction ->
      raises (CaloLogAnalyzer.extract_transactions fsum parsed_logs)).

(** The order of a user's sorted transactions: rising datetime, and a row
    without a datetime after every row that has one. *)
Definition before (a b : Tx.t) : Prop :=
  match Tx.datetime a, Tx.datetime b with
  | Some x, Some y => (x <= y)%Z
  | Some _, None => True
  | None, None => True
  | None, Some _ => False
  end.

(** The order the claim words: a row without a datetime before every row
    that has one. *)
Definition nulls_first (a b : Tx.t) : Prop :=
  match Tx.datetime a, Tx.datetime b with
  | Some x, Some y => (x <= y)%Z
  | None, _ => True
  | Some _, None => False
  end.

Definition dated (tx : Tx.t) : bool := CaloLogAnalyzer.is_some (Tx.datetime tx).
Definition undated (tx : Tx.t) : bool := negb (dated tx).

Definition dated_rows (df : DataFrame Tx.t) : list Tx.t :=
  filter (fun tx => CaloLogAnalyzer.is_some (Tx.datetime tx)) (rows df).

(** The transactions of one user. *)
Definition of_user (u : string) (data : list Tx.t) : list Tx.t :=
  filter (CaloLogAnalyzer.user_is u) data.

(** The transactions of one user as the aggregator sorts them. *)
Definition sorted_of (argsort : list Z -> list nat) (u : string)
           (data : list Tx.t) : list Tx.t :=
  rows (CaloLogAnalyzer.sort_values argsort
          (select (CaloLogAnalyzer.user_is u) (DataFrame_of Tx.keys data))).

(** [m] is the least non-null balance of [txs]. *)
Definition least_balance (m : Q) (txs : list Tx.t) : Prop :=
  (exists tx, In tx txs /\ Tx.userBalance tx = Some m) /\
  (forall tx b, In tx txs -> Tx.userBalance tx = Some b -> (m <= b)%Q).

(** [x] is made of [n] digits. *)
Definition digits (n : nat) (x : string) : Prop :=
  String.length x = n /\
  Forall (fun c => is_digit c = true) (list_ascii_of_string x).

(** The shape the anchored pattern admits: year, month, day, hour, minute
    and second in digits, a fraction of at least one digit, and Z. *)
Definition timestamp_shape (ts : string) : Prop :=
  exists Y M D h m sec f : string,
    digits 4 Y /\ digits 2 M /\ digits 2 D /\
    digits 2 h /\ digits 2 m /\ digits 2 sec /\
    f <> EmptyString /\
    Forall (fun c => is_digit c = true) (list_ascii_of_string f) /\
    ts = Y ++ "-" ++ M ++ "-" ++ D ++ "T" ++ h ++ ":" ++ m ++ ":" ++ sec
           ++ "." ++ f ++ "Z".

(** The record the parser builds from a line. *)
Definition record_of (line : string) : Rec.t :=
  Rec.Make (Re.match_ CaloLogAnalyzer.timestamp_pattern (strip line))
           (nth_error (split tab (strip line)) 1)
           (nth_error (split tab (strip line)) 2)
           (nth_error (split tab (strip line)) 3).

(** [x] is [a] up to [k] roundings: each rounding keeps at least the
    part [Float.rho] of a number and adds at most as much in proportion. *)
Definition approx (k : Z) (x a : Q) : Prop :=
  (a * Float.rho ^ k <= x)%Q /\ (x * Float.rho ^ k <= a)%Q.

(** The tolerance of the sum of the percentages: 2^-44, less than
    6e-14. *)
Definition tolerance : Q := (2 # 1) ^ (-44).

(** The percentage of the claim, in exact arithmetic. *)
Definition exact_percentage (count total : nat) : Q :=
  (inject_Z (Z.of_nat count) / inject_Z (Z.of_nat total) * (100 # 1))%Q.

(** The timestamp column of a batch of lines. *)
Definition timestamps (raw_logs : list string) : list (option string) :=
  map (fun line => Re.match_ CaloLogAnalyzer.timestamp_pattern (strip line))
      raw_logs.

(** The sum of the percentage column of the category table. *)
Definition total_percentage (table : list category_row) : Q :=
  fold_right Qplus 0%Q (map Percentage table).

(** The character occurs in the text. *)
Fixpoint mentions (c : ascii) (s : string) : bool :=
  match s with
  | EmptyString => false
  | String x s' => Ascii.eqb x c || mentions c s'
  end.

(** A cell is null or a text without a tab. *)
Definition tab_free (cell : option string) : Prop :=
  match cell with
  | Some x => mentions tab x = false
  | None => True
  end.

(** A log line written from its four fields. *)
Definition line_of (ts sid ty msg : string) : string :=
  ts ++ String tab (sid ++ String tab (ty ++ String tab msg)).

(** The three numbers of a transaction message can be read. *)
Definition numbers_readable (msg : string) : Prop :=
  returns (CaloLogAnalyzer.number_field "amount"
             CaloLogAnalyzer.digit_or_dot msg) /\
  returns (CaloLogAnalyzer.number_field "vat"
             CaloLogAnalyzer.digit_or_dot msg) /\
  returns (CaloLogAnalyzer.number_field "userBalance"
             CaloLogAnalyzer.digit_dot_or_minus msg).

(** The text cells of a transaction. *)
Definition text_cells (tx : Tx.t) : list (option string) :=
  [Tx.id tx; Tx.type tx; Tx.source tx; Tx.action tx; Tx.userId tx].

(** What every row of the transaction table satisfies: it comes from a
    transaction log of the frame, whose timestamp, datetime and session it
    carries; its id is a text that is not empty and its amount a number
    that is not negative; its vat, when present, is not negative; and its
    text cells are not empty and hold no double quote. *)
Definition well_formed_tx (parsed_logs : DataFrame CLog.t) (tx : Tx.t)
  : Prop :=
  (exists log : CLog.t,
      In log (rows parsed_logs) /\
      CLog.message_category log = Category.transaction /\
      Tx.timestamp tx = Rec.timestamp (Log.rec (CLog.log log)) /\
      Tx.datetime tx = Log.datetime (CLog.log log) /\
      Tx.session_id tx = Rec.session_id (Log.rec (CLog.log log))) /\
  (exists (i : string) (a : Q),
      Tx.id tx = Some i /\ i <> EmptyString /\
      Tx.amount tx = Some a /\ (0 <= a)%Q) /\
  (forall v : Q, Tx.vat tx = Some v -> (0 <= v)%Q) /\
  (forall g : string,
      In (Some g) (text_cells tx) ->
      g <> EmptyString /\ mentions dquote g = false).



(** The row of a user, read off the user's sorted transactions; there is
    none when the user has no transaction. *)
Definition summary (fsum : list Q -> Q) (u : string) (txs : list Tx.t)
  : option User.t :=
  match txs with
  | [] => None
  | first :: _ =>
      let balances := map Tx.userBalance txs in
      Some (User.Make u
              (List.length txs)
              (List.length (filter (CaloLogAnalyzer.type_is "CREDIT") txs))
              (List.length (filter (CaloLogAnalyzer.type_is "DEBIT") txs))
              (series_sum fsum
                 (map Tx.amount
                      (filter (CaloLogAnalyzer.type_is "CREDIT") txs)))
              (series_sum fsum
                 (map Tx.amount
                      (filter (CaloLogAnalyzer.type_is "DEBIT") txs)))
              (series_min balances) (series_max balances)
              (Tx.userBalance (last txs first))
              (Tx.timestamp first) (Tx.timestamp (last txs first))
              match series_min balances with
              | Some m => Float.ltb m 0
              | None => false
              end)
  end.

(** The users of a table: the distinct user ids that are not null, by
    first appearance. *)
Definition users_of (data : list Tx.t) : list string :=
  somes (unique (map Tx.userId data)).

(** The transaction has a user. *)
Definition has_user (tx : Tx.t) : bool :=
  CaloLogAnalyzer.is_some (Tx.userId tx).

(** The numeric fields of a transaction message with the class of
    characters of each. *)
Definition numeric_fields : list (string * (ascii -> bool)) :=
  [("amount", CaloLogAnalyzer.digit_or_dot);
   ("vat", CaloLogAnalyzer.digit_or_dot);
   ("userBalance", CaloLogAnalyzer.digit_dot_or_minus)].

(** Whatever the pattern of a numeric field captures in the message is a
    text that [float] converts. *)
Definition numbers_convert (msg : string) : Prop :=
  forall (key : string) (p : ascii -> bool) (g : string),
    In (key, p) numeric_fields ->
    Re.search (CaloLogAnalyzer.number_pattern key p) msg = Some g ->
    returns (Float.float g).

(** The line is the line of a transaction. *)
Definition transaction_line (line : string) : bool :=
  Category.eqb
    (CaloLogAnalyzer.categorize_message (Rec.message (record_of line)))
    Category.transaction.

(** The number of rows of a file, none for a file that is not written. *)
Definition row_count {R : Type} (file : option (DataFrame R)) : nat :=
  match file with
  | Some df => List.length (rows df)
  | None => 0
  end.

(** A text without a blank character. *)
Definition solid (n : string) : Prop :=
  Forall (fun c => is_space c = false) (list_ascii_of_string n).

(** The pieces of a match, written one after the other. *)
Fixpoint join (pieces : list string) : string :=
  match pieces with
  | [] => EmptyString
  | x :: xs => x ++ join xs
  end.

End Spec.

(* ------------------------------------------------------------------ *)
(** ** Sample inputs *)

Module Sample.

Import Str CaloLogAnalyzer.
Local Open Scope string_scope.

Definition q : string := String dquote EmptyString.
Definition t : string := String tab EmptyString.

(** A text member and a numeric member of a payload. *)
Definition kv (k v : string) : string := quoted k ++ ":" ++ quoted v.
Definition kn (k v : string) : string := quoted k ++ ":" ++ v.

Definition log_of (timestamp : option string) (datetime : option Z)
           (message : string) : CLog.t :=
  CLog.Make (Log.Make (Rec.Make timestamp (Some "sess-1") (Some "INFO")
                                (Some message))
                      datetime)
            (categorize_message (Some message)).

Definition clog_columns : list string :=
  (Rec.keys ++ ["datetime"; "message_category"])%list.

(** Three transaction logs, of which only the first carries both an id and
    an amount, and a log of another category. *)
Definition full_message : string :=
  "Transaction {" ++ kv "id" "tx1" ++ "," ++ kv "type" "CREDIT" ++ ","
    ++ kn "amount" "50.0" ++ "," ++ kn "userBalance" "-5.0" ++ ","
    ++ kv "userId" "u1" ++ "}".

Definition no_id_message : string :=
  "Transaction {" ++ kv "type" "DEBIT" ++ "," ++ kn "amount" "5" ++ "}".

Definition no_amount_message : string :=
  "Transaction {" ++ kv "id" "tx3" ++ "}".

Definition logs : DataFrame CLog.t :=
  Frame clog_columns
    [ log_of (Some "2024-01-01T10:00:00.123Z") (Some 1704103200123000000%Z)
             full_message;
      log_of None None no_id_message;
      log_of None None no_amount_message;
      log_of None None "Balance is already synced" ].

Definition candidates : list Tx.t :=
  Eval vm_compute in
    match mapM extract_fields (filter is_transaction (rows logs)) with
    | Ok l => l
    | Raise _ => []
    end.



(** Transaction messages whose amount, vat or balance is not a number. *)
Definition bad_amount_message : string :=
  "Transaction {" ++ kv "id" "tx1" ++ "," ++ kn "amount" "." ++ "}".

Definition bad_vat_message : string :=
  "Transaction {" ++ kv "id" "tx1" ++ "," ++ kn "amount" "5" ++ ","
    ++ kn "vat" "1.2.3" ++ "}".

Definition bad_balance_message : string :=
  "Transaction {" ++ kv "id" "tx1" ++ "," ++ kn "amount" "5" ++ ","
    ++ kn "userBalance" "--" ++ "}".

(** Two transactions of one user: the first in the table has no
    datetime, the second has one. *)
Definition undated_tx : Tx.t :=
  Tx.Make None None (Some "sess-2") (Some "tx2") (Some "DEBIT") None None
          (Some (5 # 1)%Q) None (Some (3 # 1)%Q) (Some "u1").

Definition dated_tx : Tx.t :=
  Tx.Make (Some "2024-01-01T10:00:00.123Z") (Some 1704103200123000000%Z)
          (Some "sess-1") (Some "tx1") (Some "CREDIT") None None
          (Some (50 # 1)%Q) None (Some (-5 # 1)%Q) (Some "u1").

Definition mixed : list Tx.t := [undated_tx; dated_tx].

(** A line whose timestamp has the shape of the anchor and month 13, a
    line with a good timestamp, and a line with no timestamp at all. *)
Definition month13_line : string :=
  "2024-13-01T10:00:00.123Z" ++ t ++ "sess-1" ++ t ++ "INFO" ++ t ++ "hello".

Definition good_line : string :=
  "2024-01-01T10:00:00.123Z" ++ t ++ "sess-1" ++ t ++ "INFO" ++ t
    ++ full_message.

Definition no_anchor_line : string :=
  "started" ++ t ++ "sess-2" ++ t ++ "INFO" ++ t ++ "Balance is already synced".

Definition parsed_good : DataFrame Log.t :=
  Eval vm_compute in
    match parse_all_logs (cellwise iso_to_datetime)
            [good_line; no_anchor_line] with
    | Ok df => df
    | Raise _ => Frame [] []
    end.

(** A transaction line with no id, and a frame that holds only its log. *)
Definition no_id_line : string :=
  "2024-01-01T10:00:01.000Z" ++ t ++ "sess-1" ++ t ++ "INFO" ++ t
    ++ no_id_message.

Definition no_id_logs : DataFrame CLog.t :=
  Frame clog_columns [log_of None None no_id_message].

Definition categorized_good : DataFrame CLog.t :=
  Eval vm_compute in
    match categorize_logs parsed_good with
    | Ok (categorized, _) => categorized
    | Raise _ => Frame [] []
    end.

Definition stats_good : list (Category.t * nat) :=
  Eval vm_compute in
    match categorize_logs parsed_good with
    | Ok (_, stats) => stats
    | Raise _ => []
    end.

(** The statistics of three categories of one record each. *)
Definition thirds : list (Category.t * nat) :=
  [(Category.error, 1); (Category.other, 1); (Category.overdraft, 1)].

Definition analysis_good : analysis :=
  Eval vm_compute in
    match run_complete_analysis (cellwise iso_to_datetime)
            insertion_argsort sequential_sum
            [good_line; no_anchor_line] with
    | Ok a => a
    | Raise _ =>
        Analysis [] (TransactionStats 0 0 0 0 0 0 0) (OverdraftStats 0 0 0)
                 (Exports None None [] None)
    end.

End Sample.

(* ------------------------------------------------------------------ *)
(** ** Properties *)

Import Str CaloLogAnalyzer.

Lemma bind_ok {A B : Type} (c : result A) (k : A -> result B) (b : B) :
  bind c k = Ok b -> exists a, c = Ok a /\ k a = Ok b.
Proof.
  destruct c as [a|e]; simpl; intros H; [eauto | discriminate].
Qed.

Lemma mapM_ok_in {A B : Type} (f : A -> result B) (l : list A) (out : list B) :
  mapM f l = Ok out ->
  forall y, In y out -> exists x, In x l /\ f x = Ok y.
Proof.
  revert out; induction l as [|x xs IH]; simpl; intros out H y Hy.
  - inversion H; subst; destruct Hy.
  - apply bind_ok in H as (b & Hb & H).
    apply bind_ok in H as (bs & Hbs & H).
    inversion H; subst; clear H.
    destruct Hy as [->|Hy]; [eauto|].
    destruct (IH _ Hbs _ Hy) as (x' & ? & ?); eauto.
Qed.

Lemma mapM_raise_in {A B : Type} (f : A -> result B) (l : list A) (x : A) :
  In x l -> raises (f x) -> raises (mapM f l).
Proof.
  induction l as [|a l IH]; simpl; [tauto|].
  intros [->|Hin] Hr.
  - destruct Hr as [e ->]; exists e; reflexivity.
  - destruct (f a) as [b|e]; simpl; [|exists e; reflexivity].
    destruct (IH Hin Hr) as [e ->]; exists e; reflexivity.
Qed.

Lemma mapM_total {A B : Type} (f : A -> result B) (l : list A) :
  (forall x, In x l -> returns (f x)) -> returns (mapM f l).
Proof.
  induction l as [|a l IH]; simpl; intros H.
  - eexists; reflexivity.
  - destruct (H a (or_introl eq_refl)) as [b ->]; simpl.
    destruct IH as [bs ->]; [auto|]. eexists; reflexivity.
Qed.

Lemma mapM_in_ok {A B : Type} (f : A -> result B) (l : list A) (out : list B) :
  mapM f l = Ok out ->
  forall x, In x l -> exists y, f x = Ok y /\ In y out.
Proof.
  revert out; induction l as [|a l IH]; simpl; intros out H x Hx; [destruct Hx|].
  apply bind_ok in H as (b & Hb & H).
  apply bind_ok in H as (bs & Hbs & H).
  injection H as <-.
  destruct Hx as [->|Hx]; [exists b; simpl; auto|].
  destruct (IH _ Hbs _ Hx) as (y & ? & ?). exists y. simpl. auto.
Qed.

(** *** The pattern matcher *)

Lemma try_down_some {A : Type} (f : nat -> option A) (lo n : nat) (r : A) :
  Re.try_down f lo n = Some r ->
  exists k, lo <= k <= lo + n /\ f k = Some r.
Proof.
  induction n as [|n IH]; simpl.
  - destruct (f (lo + 0)) eqn:E; [|discriminate].
    intros [= ->]. exists (lo + 0). split; [lia|assumption].
  - destruct (f (lo + S n)) eqn:E.
    + intros [= ->]. exists (lo + S n). split; [lia|assumption].
    + intros H. destruct (IH H) as (k & Hk & Hf). exists k. split; [lia|assumption].
Qed.

Lemma span_take (p : ascii -> bool) (s : string) :
  forall (bound : option nat) (k : nat),
    k <= Re.span p bound s ->
    String.length (take k s) = k /\
    Forall (fun c => p c = true) (list_ascii_of_string (take k s)).
Proof.
  induction s as [|c s IH]; intros bound k Hk.
  - simpl in Hk. assert (k = 0) by lia; subst. simpl. auto.
  - destruct k as [|k]; [simpl; auto|].
    simpl in Hk.
    assert (Hp : p c = true /\ k <= Re.span p (option_map pred bound) s).
    { destruct bound as [[|n]|]; try lia;
        destruct (p c); simpl in *; try lia; split; auto; lia. }
    destruct Hp as [Hc Hk'].
    destruct (IH _ _ Hk') as [Hlen Hall].
    simpl. split; [congruence|]. constructor; assumption.
Qed.

Lemma span_bound (p : ascii -> bool) (s : string) :
  forall n : nat, Re.span p (Some n) s <= n.
Proof.
  induction s as [|c s IH]; intros n; simpl; [lia|].
  destruct n as [|n]; [lia|].
  destruct (p c); [|lia]. simpl. specialize (IH n). lia.
Qed.

Lemma take_drop (k : nat) (s : string) : (take k s ++ drop k s)%string = s.
Proof.
  revert s; induction k as [|k IH]; intros [|c s]; simpl; try reflexivity.
  rewrite IH; reflexivity.
Qed.

Lemma append_assoc (a b c : string) :
  ((a ++ b) ++ c)%string = (a ++ (b ++ c))%string.
Proof.
  induction a as [|x a IH]; simpl; [reflexivity|]. rewrite IH; reflexivity.
Qed.

(** Every item took a legal piece, and the pieces spell the matched text. *)
Lemma match_items_sound (items : list Re.item) :
  forall (s : string) (taken : list string) (rest : string),
    Re.match_items items s = Some (taken, rest) ->
    Forall2 Spec.fits items taken /\ s = (Spec.join taken ++ rest)%string.
Proof.
  induction items as [|it items IH]; intros s taken rest H; simpl in H.
  - injection H as <- <-. split; [constructor|reflexivity].
  - destruct (Nat.ltb_spec (Re.span (Re.cls it) (Re.rmax it) s) (Re.rmin it))
      as [|Hmin]; [discriminate|].
    apply try_down_some in H as (k & Hk & H).
    destruct (Re.match_items items (drop k s)) as [[taken' rest']|] eqn:E;
      [|discriminate].
    injection H as <- <-.
    destruct (IH _ _ _ E) as [Hfits Hs].
    assert (Hk' : k <= Re.span (Re.cls it) (Re.rmax it) s) by lia.
    destruct (span_take _ _ _ _ Hk') as [Hlen Hall].
    split.
    + constructor; [|assumption].
      repeat split; [lia| |assumption].
      intros n Hn. rewrite Hn in Hk'. pose proof (span_bound (Re.cls it) s n). lia.
    + simpl. rewrite append_assoc, <- Hs, take_drop. reflexivity.
Qed.

Lemma append_empty_r (s : string) : (s ++ EmptyString)%string = s.
Proof.
  induction s as [|c s IH]; simpl; [reflexivity|]. rewrite IH; reflexivity.
Qed.

Lemma concat_join (pieces : list string) :
  String.concat EmptyString pieces = Spec.join pieces.
Proof.
  induction pieces as [|x [|y ys] IH]; simpl in *.
  - reflexivity.
  - symmetry; apply append_empty_r.
  - rewrite IH; reflexivity.
Qed.

Lemma try_down_complete {A : Type} (f : nat -> option A) (lo n k : nat) (r : A) :
  lo <= k <= lo + n -> f k = Some r ->
  exists r', Re.try_down f lo n = Some r'.
Proof.
  induction n as [|n IH]; intros Hk Hf; cbn [Re.try_down].
  - replace (lo + 0) with k by lia. rewrite Hf. eauto.
  - destruct (f (lo + S n)) eqn:E; [eauto|].
    apply IH; [|assumption].
    assert (k <> lo + S n) by (intros ->; congruence). lia.
Qed.

Lemma length_append (a b : string) :
  String.length (a ++ b)%string = String.length a + String.length b.
Proof.
  induction a as [|c a IH]; cbn; [reflexivity|]. rewrite IH. reflexivity.
Qed.

Lemma drop_append (a b : string) : drop (String.length a) (a ++ b)%string = b.
Proof.
  induction a as [|c a IH]; cbn; [destruct b; reflexivity|]. assumption.
Qed.

Lemma span_ge (p : ascii -> bool) (piece : string) :
  forall (bound : option nat) (rest : string),
    Forall (fun c => p c = true) (list_ascii_of_string piece) ->
    (forall n, bound = Some n -> String.length piece <= n) ->
    String.length piece <= Re.span p bound (piece ++ rest)%string.
Proof.
  induction piece as [|c piece IH]; intros bound rest Hall Hb; cbn; [lia|].
  cbn in Hall. inversion Hall as [|? ? Hc Hall']; subst.
  rewrite Hc.
  assert (IH' : String.length piece
                <= Re.span p (option_map pred bound) (piece ++ rest)%string).
  { apply IH; [assumption|].
    intros n Hn. destruct bound as [m|]; [|discriminate].
    cbn in Hn. injection Hn as <-. specialize (Hb m eq_refl). cbn in Hb. lia. }
  destruct bound as [[|m]|].
  - specialize (Hb 0 eq_refl). cbn in Hb. lia.
  - lia.
  - lia.
Qed.

Lemma match_items_complete (items : list Re.item) :
  forall (pieces : list string) (rest : string),
    Forall2 Spec.fits items pieces ->
    exists taken rest',
      Re.match_items items (Spec.join pieces ++ rest)%string
        = Some (taken, rest').
Proof.
  induction items as [|it items IH]; intros pieces rest Hfits.
  - cbn. eauto.
  - inversion Hfits as [|? piece ? pieces' Hfit Hrest]; subst.
    destruct Hfit as (Hmin & Hmax & Hall).
    cbn [Re.match_items Spec.join]. rewrite append_assoc.
    set (s := (piece ++ Spec.join pieces' ++ rest)%string).
    pose proof (span_ge (Re.cls it) piece (Re.rmax it)
                        (Spec.join pieces' ++ rest)%string Hall Hmax) as Hspan.
    fold s in Hspan.
    destruct (Nat.ltb_spec (Re.span (Re.cls it) (Re.rmax it) s) (Re.rmin it));
      [lia|].
    destruct (IH pieces' rest Hrest) as (taken & rest' & Hm).
    destruct (try_down_complete
                (fun k => match Re.match_items items (drop k s) with
                          | Some (taken, rest') => Some (take k s :: taken, rest')
                          | None => None
                          end)
                (Re.rmin it)
                (Re.span (Re.cls it) (Re.rmax it) s - Re.rmin it)
                (String.length piece)
                (take (String.length piece) s :: taken, rest'))
      as [[taken' rest''] Hr].
    + lia.
    + unfold s. rewrite drop_append, Hm. reflexivity.
    + rewrite Hr. eauto.
Qed.

(** The text of a match: what the items before the group, of the group
    and after it took, then the rest of the subject. *)
Lemma match_spec (p : Re.pattern) (s g : string) :
  Re.match_ p s = Some g ->
  exists (pre pieces post : list string) (rest : string),
    Forall2 Spec.fits (Re.before p) pre /\
    Forall2 Spec.fits (Re.group p) pieces /\
    Forall2 Spec.fits (Re.after p) post /\
    g = Spec.join pieces /\
    s = (Spec.join (pre ++ pieces ++ post) ++ rest)%string.
Proof.
  unfold Re.match_.
  destruct (Re.match_items _ s) as [[taken rest]|] eqn:E; [|discriminate].
  intros [= <-].
  apply match_items_sound in E as [Hfits Hs].
  apply Forall2_app_inv_l in Hfits as (t1 & t23 & H1 & H23 & ->).
  apply Forall2_app_inv_l in H23 as (t2 & t3 & H2 & H3 & ->).
  exists t1, t2, t3, rest. repeat (split; [assumption|]).
  split; [|assumption].
  rewrite concat_join.
  rewrite (Forall2_length H1), (Forall2_length H2).
  rewrite skipn_app, skipn_all, Nat.sub_diag. simpl.
  rewrite firstn_app, firstn_all, Nat.sub_diag. simpl.
  rewrite app_nil_r. reflexivity.
Qed.

Lemma fits_one (c : ascii) (piece : string) :
  Spec.fits (Re.one (Ascii.eqb c)) piece <-> piece = String c EmptyString.
Proof.
  unfold Spec.fits. cbn [Re.rmin Re.rmax Re.cls Re.one]. split.
  - intros (Hmin & Hmax & Hall). specialize (Hmax 1 eq_refl).
    destruct piece as [|x [|y piece]]; cbn in *; try lia.
    inversion Hall as [|? ? Hx _]; subst.
    apply Ascii.eqb_eq in Hx. subst. reflexivity.
  - intros ->. cbn. split; [lia|]. split.
    + intros n [= <-]. lia.
    + constructor; [apply Ascii.eqb_refl|constructor].
Qed.

Lemma fits_exactly (n : nat) (piece : string) :
  Spec.fits (Re.exactly n is_digit) piece <-> Spec.digits n piece.
Proof.
  unfold Spec.fits, Spec.digits. cbn [Re.rmin Re.rmax Re.cls Re.exactly]. split.
  - intros (Hmin & Hmax & Hall). specialize (Hmax n eq_refl).
    split; [lia|assumption].
  - intros [Hlen Hall]. split; [lia|]. split; [|assumption].
    intros m [= <-]. lia.
Qed.

Lemma fits_many1 (p : ascii -> bool) (piece : string) :
  Spec.fits (Re.many1 p) piece <->
  piece <> EmptyString /\
  Forall (fun c => p c = true) (list_ascii_of_string piece).
Proof.
  unfold Spec.fits. cbn [Re.rmin Re.rmax Re.cls Re.many1]. split.
  - intros (Hmin & _ & Hall). split; [|assumption].
    intros ->. cbn in Hmin. lia.
  - intros [Hne Hall]. split; [|split; [discriminate|assumption]].
    destruct piece; [contradiction|cbn; lia].
Qed.

Lemma search_some (p : Re.pattern) (s g : string) :
  Re.search p s = Some g -> exists k, Re.match_ p (drop k s) = Some g.
Proof.
  induction s as [|c s IH]; simpl.
  - destruct (Re.match_ p EmptyString) eqn:E; [|discriminate].
    intros [= ->]. exists 0. assumption.
  - destruct (Re.match_ p (String c s)) eqn:E.
    + intros [= ->]. exists 0. assumption.
    + intros H. destruct (IH H) as [k Hk]. exists (S k). assumption.
Qed.

(** A group of the form [[...]+] captures at least one character, and
    only characters of its class. *)
Lemma many1_capture (p : Re.pattern) (c : ascii -> bool) (s g : string) :
  Re.group p = [Re.many1 c] ->
  Re.search p s = Some g ->
  g <> EmptyString /\
  Forall (fun x => c x = true) (list_ascii_of_string g).
Proof.
  intros Hg H.
  apply search_some in H as [k H].
  apply match_spec in H as (pre & pieces & post & rest & _ & Hfits & _ & -> & _).
  rewrite Hg in Hfits.
  inversion Hfits as [|it piece l l' Hfit Hrest]; subst.
  inversion Hrest; subst. simpl. rewrite append_empty_r.
  destruct Hfit as (Hmin & _ & Hall). simpl in Hmin, Hall.
  split; [|assumption].
  intros ->. simpl in Hmin. lia.
Qed.

(** *** The anchored timestamp pattern *)

Lemma timestamp_items :
  Re.group timestamp_pattern
  = [ Re.exactly 4 is_digit; Re.one (Ascii.eqb "-");
      Re.exactly 2 is_digit; Re.one (Ascii.eqb "-");
      Re.exactly 2 is_digit; Re.one (Ascii.eqb "T");
      Re.exactly 2 is_digit; Re.one (Ascii.eqb ":");
      Re.exactly 2 is_digit; Re.one (Ascii.eqb ":");
      Re.exactly 2 is_digit; Re.one (Ascii.eqb ".");
      Re.many1 is_digit; Re.one (Ascii.eqb "Z") ].
Proof. reflexivity. Qed.

(** A capture of the anchored pattern has the shape of a timestamp and
    stands at the head of the subject. *)
Lemma timestamp_match_shape (s ts : string) :
  Re.match_ timestamp_pattern s = Some ts ->
  Spec.timestamp_shape ts /\ exists rest, s = (ts ++ rest)%string.
Proof.
  intros H. apply match_spec in H
    as (pre & pieces & post & rest & Hpre & Hgrp & Hpost & -> & ->).
  inversion Hpre; subst. inversion Hpost; subst. rewrite app_nil_r. cbn [app].
  split; [|exists rest; reflexivity].
  rewrite timestamp_items in Hgrp. clear Hpre Hpost.
  repeat match goal with
         | H : Forall2 _ (_ :: _) _ |- _ => inversion H; subst; clear H
         | H : Forall2 _ [] _ |- _ => inversion H; subst; clear H
         end.
  repeat match goal with
         | H : Spec.fits (Re.one _) _ |- _ => apply fits_one in H; subst
         | H : Spec.fits (Re.exactly _ _) _ |- _ => apply fits_exactly in H
         | H : Spec.fits (Re.many1 _) _ |- _ => apply fits_many1 in H as [? ?]
         end.
  unfold Spec.timestamp_shape. cbn [Spec.join]. rewrite append_empty_r.
  do 7 eexists.
  split; [|split; [|split; [|split; [|split; [|split; [|split; [|split]]]]]]].
  9: reflexivity.
  all: assumption.
Qed.

(** When the anchored pattern does not match, no timestamp stands at the
    head of the subject. *)
Lemma timestamp_no_match (s : string) :
  Re.match_ timestamp_pattern s = None ->
  forall ts rest, Spec.timestamp_shape ts -> s <> (ts ++ rest)%string.
Proof.
  intros Hnone ts rest
         (Y & M & D & h & m & sec & f & HY & HM & HD & Hh & Hm & Hs & Hf1 & Hf2 & ->)
         ->.
  unfold Re.match_ in Hnone.
  change (Re.before timestamp_pattern) with (@nil Re.item) in Hnone.
  change (Re.after timestamp_pattern) with (@nil Re.item) in Hnone.
  rewrite timestamp_items, app_nil_r in Hnone. cbn [app] in Hnone.
  destruct (match_items_complete
              [ Re.exactly 4 is_digit; Re.one (Ascii.eqb "-");
                Re.exactly 2 is_digit; Re.one (Ascii.eqb "-");
                Re.exactly 2 is_digit; Re.one (Ascii.eqb "T");
                Re.exactly 2 is_digit; Re.one (Ascii.eqb ":");
                Re.exactly 2 is_digit; Re.one (Ascii.eqb ":");
                Re.exactly 2 is_digit; Re.one (Ascii.eqb ".");
                Re.many1 is_digit; Re.one (Ascii.eqb "Z") ]
              [Y; "-"; M; "-"; D; "T"; h; ":"; m; ":"; sec; "."; f; "Z"]%string
              rest) as (taken & rest' & Hm').
  { repeat (constructor;
            [first [ apply fits_exactly; assumption
                   | apply fits_one; reflexivity
                   | apply fits_many1; split; assumption ]|]).
    constructor. }
  cbn [Spec.join] in Hm'. rewrite append_empty_r in Hm'.
  rewrite Hm' in Hnone. discriminate.
Qed.

(** *** The record parser *)

Lemma segment_nth_error (l : list string) (i : nat) :
  segment l i = Ok (nth_error l i).
Proof.
  unfold segment, py_index.
  destruct (Nat.ltb_spec i (List.length l)) as [Hlt|Hge].
  - destruct (nth_error l i) eqn:E; [reflexivity|].
    apply nth_error_None in E; lia.
  - apply nth_error_None in Hge; rewrite Hge; reflexivity.
Qed.

(** The parser never raises: its guards keep every index in range. *)
Lemma parse_log_data_record (s : string) :
  parse_log_data (Some s) = Ok (Some (Spec.record_of s)).
Proof.
  unfold parse_log_data. rewrite !segment_nth_error. reflexivity.
Qed.

(** C8 (as amended). The record parser returns nothing for an undefined
    (null) input only. For every string, the empty one included, it
    returns a record and never raises: the timestamp is the capture of the
    anchored pattern on the stripped line, a text of the timestamp shape
    at position 0, and null exactly when no such text stands there;
    session_id, message_type and message are the segments 1, 2 and 3 of
    the tab split, each null when missing. *)
Theorem parse_log_data_total :
  parse_log_data None = Ok None /\
  forall s : string,
    parse_log_data (Some s) = Ok (Some (Spec.record_of s)) /\
    Rec.session_id (Spec.record_of s) = nth_error (split tab (strip s)) 1 /\
    Rec.message_type (Spec.record_of s) = nth_error (split tab (strip s)) 2 /\
    Rec.message (Spec.record_of s) = nth_error (split tab (strip s)) 3 /\
    match Rec.timestamp (Spec.record_of s) with
    | Some ts =>
        Spec.timestamp_shape ts /\ exists rest, strip s = (ts ++ rest)%string
    | None =>
        forall ts rest, Spec.timestamp_shape ts -> strip s <> (ts ++ rest)%string
    end.
Proof.
  split; [reflexivity|].
  intros s. split; [apply parse_log_data_record|].
  repeat (split; [reflexivity|]).
  unfold Spec.record_of. cbn [Rec.timestamp].
  destruct (Re.match_ timestamp_pattern (strip s)) as [ts|] eqn:E.
  - apply timestamp_match_shape. assumption.
  - apply timestamp_no_match. assumption.
Qed.

(** C8, the claim as stated fails on the empty line: the parser returns a
    record whose four fields are null, not nothing. *)
Lemma parse_log_data_empty_line :
  parse_log_data (Some EmptyString) = Ok (Some (Rec.Make None None None None))
  /\ parse_log_data (Some EmptyString) <> Ok None.
Proof.
  split; [reflexivity | discriminate].
Qed.

(** *** The batch of records *)

Lemma mapM_parse (raw_logs : list string) :
  mapM (fun row => parse_log_data (Some row)) raw_logs
  = Ok (map (fun row => Some (Spec.record_of row)) raw_logs).
Proof.
  induction raw_logs as [|row l IH]; [reflexivity|].
  cbn [mapM map]. rewrite parse_log_data_record, IH. reflexivity.
Qed.

Lemma somes_map_Some {A B : Type} (f : A -> B) (l : list A) :
  somes (map (fun x => Some (f x)) l) = map f l.
Proof.
  induction l as [|x l IH]; [reflexivity|]. cbn [map somes]. rewrite IH. reflexivity.
Qed.

(** Every line becomes a record; the frame of no record has no timestamp
    column; otherwise the cells of the timestamp column are converted. *)
Lemma parse_all_logs_eq
      (to_datetime : list (option string) -> string -> result Z)
      (raw_logs : list string) :
  parse_all_logs to_datetime raw_logs =
  match raw_logs with
  | [] => Raise (KeyError "timestamp")
  | _ :: _ =>
      with_datetime <-
        mapM (fun r => d <- to_datetime_cell to_datetime
                             (Spec.timestamps raw_logs) (Rec.timestamp r) ;;
                       Ok (Log.Make r d))
             (map Spec.record_of raw_logs) ;;
      Ok (Frame (Rec.keys ++ ["datetime"%string]) with_datetime)
  end.
Proof.
  unfold parse_all_logs. rewrite mapM_parse. cbn [bind].
  rewrite somes_map_Some.
  destruct raw_logs as [|row l]; [reflexivity|].
  unfold getitem.
  change (has_column (DataFrame_of Rec.keys (map Spec.record_of (row :: l)))
                     "timestamp") with true.
  cbn [bind].
  change (rows (DataFrame_of Rec.keys (map Spec.record_of (row :: l))))
    with (map Spec.record_of (row :: l)).
  rewrite map_map. reflexivity.
Qed.

(** C7. If the timestamp of some line matches the anchored pattern and the
    conversion of the timestamp column refuses the matched string, the
    batch conversion raises and the whole run with it; a line whose
    anchor does not match gets a null timestamp and a null datetime and
    stays in the table, which holds one record per line. *)
Theorem parse_all_logs_fatal_on_bad_timestamp :
  (forall (to_datetime : list (option string) -> string -> result Z)
          (raw_logs : list string) (line ts : string),
      In line raw_logs ->
      Re.match_ timestamp_pattern (strip line) = Some ts ->
      raises (to_datetime (Spec.timestamps raw_logs) ts) ->
      raises (parse_all_logs to_datetime raw_logs) /\
      forall (argsort : list Z -> list nat) (fsum : list Q -> Q)
             (file_lines : list string),
        load_logs file_lines = raw_logs ->
        raises (run_complete_analysis to_datetime argsort fsum file_lines)) /\
  (forall (to_datetime : list (option string) -> string -> result Z)
          (raw_logs : list string)
          (line : string) (parsed_logs : DataFrame Log.t),
      In line raw_logs ->
      Re.match_ timestamp_pattern (strip line) = None ->
      parse_all_logs to_datetime raw_logs = Ok parsed_logs ->
      parse_log_data (Some line) = Ok (Some (Spec.record_of line)) /\
      Rec.timestamp (Spec.record_of line) = None /\
      In (Log.Make (Spec.record_of line) None) (rows parsed_logs) /\
      map Log.rec (rows parsed_logs) = map Spec.record_of raw_logs).
Proof.
  split.
  - intros to_datetime raw_logs line ts Hin Hts Hbad.
    assert (Hr : raises (parse_all_logs to_datetime raw_logs)).
    { rewrite parse_all_logs_eq.
      destruct raw_logs as [|row l]; [destruct Hin|].
      assert (H : raises
                    (mapM (fun r => d <- to_datetime_cell to_datetime
                                          (Spec.timestamps (row :: l))
                                          (Rec.timestamp r) ;;
                                    Ok (Log.Make r d))
                          (map Spec.record_of (row :: l)))).
      { apply mapM_raise_in with (x := Spec.record_of line);
          [apply in_map; assumption|].
        unfold Spec.record_of. cbn [Rec.timestamp]. rewrite Hts.
        destruct Hbad as [e He]. exists e. cbn [to_datetime_cell].
        rewrite He. reflexivity. }
      destruct H as [e He]. exists e. rewrite He. reflexivity. }
    split; [assumption|].
    intros argsort fsum file_lines <-. unfold run_complete_analysis.
    destruct Hr as [e He]. exists e. rewrite He. reflexivity.
  - intros to_datetime raw_logs line parsed_logs Hin Hts Hok.
    split; [apply parse_log_data_record|].
    split; [unfold Spec.record_of; cbn [Rec.timestamp]; assumption|].
    rewrite parse_all_logs_eq in Hok.
    destruct raw_logs as [|row l]; [discriminate|].
    apply bind_ok in Hok as (out & Hout & Hok). injection Hok as <-.
    cbn [rows]. split.
    + destruct (mapM_in_ok _ _ _ Hout (Spec.record_of line))
        as (y & Hy & Hiny); [apply in_map; assumption|].
      unfold Spec.record_of in Hy at 1. cbn [Rec.timestamp] in Hy.
      rewrite Hts in Hy. cbn in Hy. injection Hy as <-. assumption.
    + clear Hin. revert out Hout.
      generalize (Spec.timestamps (row :: l)).
      generalize (map Spec.record_of (row :: l)). intros recs column.
      induction recs as [|r recs IH]; intros out Hout.
      * injection Hout as <-. reflexivity.
      * cbn [mapM] in Hout.
        apply bind_ok in Hout as (y & Hy & Hout).
        apply bind_ok in Hout as (ys & Hys & Hout). injection Hout as <-.
        apply bind_ok in Hy as (d & _ & Hy). injection Hy as <-.
        cbn [map Log.rec]. rewrite (IH _ Hys). reflexivity.
Qed.

(** C7, with the calendar-checking converter: a batch with the month-13
    line is refused, and in a good batch the line without a timestamp is
    kept with null timestamp and datetime. *)
Lemma parse_all_logs_fatal_on_bad_timestamp_witness :
  (In Sample.month13_line [Sample.good_line; Sample.month13_line] /\
   Re.match_ timestamp_pattern (strip Sample.month13_line)
     = Some "2024-13-01T10:00:00.123Z"%string /\
   raises (cellwise iso_to_datetime
             (Spec.timestamps [Sample.good_line; Sample.month13_line])
             "2024-13-01T10:00:00.123Z") /\
   raises (parse_all_logs (cellwise iso_to_datetime)
             [Sample.good_line; Sample.month13_line])) /\
  (parse_all_logs (cellwise iso_to_datetime)
     [Sample.good_line; Sample.no_anchor_line]
     = Ok Sample.parsed_good /\
   In (Log.Make (Spec.record_of Sample.no_anchor_line) None)
      (rows Sample.parsed_good)).
Proof.
  split.
  - split; [right; left; reflexivity|]. split; [reflexivity|].
    split; [eexists; reflexivity|].
    apply (proj1 parse_all_logs_fatal_on_bad_timestamp
             (cellwise iso_to_datetime)
             [Sample.good_line; Sample.month13_line]
             Sample.month13_line "2024-13-01T10:00:00.123Z"%string).
    + right; left; reflexivity.
    + reflexivity.
    + eexists; reflexivity.
  - split; [reflexivity|].
    apply (proj2 parse_all_logs_fatal_on_bad_timestamp
             (cellwise iso_to_datetime)
             [Sample.good_line; Sample.no_anchor_line]
             Sample.no_anchor_line Sample.parsed_good).
    + right; left; reflexivity.
    + reflexivity.
    + reflexivity.
Defined.

(** C4, what the code does on an empty input: the frame of no record has
    no timestamp column, so [parse_all_logs] raises KeyError and the run
    stops there, whatever the converter, the sort and the sum; the same
    holds when no line of the archives has INFO in it. *)
Theorem run_complete_analysis_empty_input :
  forall (to_datetime : list (option string) -> string -> result Z)
         (argsort : list Z -> list nat) (fsum : list Q -> Q),
    parse_all_logs to_datetime [] = Raise (KeyError "timestamp") /\
    run_complete_analysis to_datetime argsort fsum []
      = Raise (KeyError "timestamp") /\
    run_complete_analysis to_datetime argsort fsum ["DEBUG only"%string]
      = Raise (KeyError "timestamp").
Proof.
  intros to_datetime argsort fsum. repeat split; reflexivity.
Qed.

(** *** The categorizer *)

Lemma in_all_ascii (a : ascii) : In a Spec.all_ascii.
Proof.
  unfold Spec.all_ascii. rewrite <- (ascii_nat_embedding a).
  apply in_map, in_seq. pose proof (nat_ascii_bounded a). lia.
Qed.

Lemma for_all_ascii (P : ascii -> ascii -> bool) :
  forallb (fun a => forallb (P a) Spec.all_ascii) Spec.all_ascii = true ->
  forall a b, P a b = true.
Proof.
  intros H a b. rewrite forallb_forall in H.
  specialize (H a (in_all_ascii a)). rewrite forallb_forall in H.
  apply H, in_all_ascii.
Qed.

(** Against a character of a keyword, the lowered character is equal
    exactly when the character is the same letter. *)
Lemma lower_char_same_letter (a b : ascii) :
  Spec.keyword_char a = true ->
  Ascii.eqb a (lower_char b) = Spec.same_letter a b.
Proof.
  intros Ha.
  pose proof (for_all_ascii
                (fun a b => implb (Spec.keyword_char a)
                              (Bool.eqb (Ascii.eqb a (lower_char b))
                                        (Spec.same_letter a b)))) as H.
  specialize (H ltac:(vm_compute; reflexivity) a b). cbv beta in H.
  rewrite Ha in H. cbn [implb] in H. apply eqb_prop in H. exact H.
Qed.

(** Lowering forgets the case of a letter. *)
Lemma same_letter_lower (a b : ascii) :
  Spec.same_letter a b = true -> lower_char a = lower_char b.
Proof.
  intros Hab.
  pose proof (for_all_ascii
                (fun a b => implb (Spec.same_letter a b)
                              (Ascii.eqb (lower_char a) (lower_char b)))) as H.
  specialize (H ltac:(vm_compute; reflexivity) a b). cbv beta in H.
  rewrite Hab in H. cbn [implb] in H. apply Ascii.eqb_eq in H. exact H.
Qed.

Lemma same_text_lower (m m' : string) :
  Spec.same_text m m' = true -> lower m = lower m'.
Proof.
  revert m'; induction m as [|a m IH]; intros [|b m'] H;
    cbn [Spec.same_text] in H; try discriminate; [reflexivity|].
  apply andb_true_iff in H as [Hab Hm]. cbn [lower].
  rewrite (same_letter_lower a b Hab), (IH m' Hm). reflexivity.
Qed.

Lemma prefix_lower (kw m : string) :
  Spec.keyword kw = true -> prefix kw (lower m) = Spec.ci_prefix kw m.
Proof.
  revert m; induction kw as [|a kw IH]; intros m Hkw;
    [destruct m; reflexivity|].
  cbn [Spec.keyword] in Hkw. apply andb_true_iff in Hkw as [Ha Hkw].
  destruct m as [|b m]; [reflexivity|].
  cbn [lower prefix Spec.ci_prefix].
  rewrite <- (lower_char_same_letter a b Ha), <- (IH m Hkw).
  destruct (ascii_dec a (lower_char b)) as [->|Hne].
  - rewrite Ascii.eqb_refl; reflexivity.
  - destruct (Ascii.eqb_spec a (lower_char b)); [contradiction|reflexivity].
Qed.

Lemma contains_lower (kw m : string) :
  Spec.keyword kw = true -> contains kw (lower m) = Spec.ci_contains kw m.
Proof.
  intros Hkw; induction m as [|b m IH].
  - pose proof (prefix_lower kw EmptyString Hkw) as H.
    simpl in *. rewrite H. reflexivity.
  - pose proof (prefix_lower kw (String b m) Hkw) as H.
    cbn [lower contains Spec.ci_contains] in *.
    rewrite IH, H. reflexivity.
Qed.

(** C2. The categorizer returns the label of the first rule of the ordered
    taxonomy whose case-insensitive substring predicate holds of the
    message, [other] when none does, and [other] for a null message; its
    result is always one of the nine labels; and it does not change when
    letters of the message change case. *)
Theorem categorize_message_first_match :
  forall msg : option string,
    categorize_message msg = Spec.category msg /\
    categorize_message None = Category.other /\
    In (Category.label (categorize_message msg))
       ["processing_message"; "balance_sync_start"; "balance_already_synced";
        "balance_sync_skip"; "transaction"; "slack_notification"; "error";
        "overdraft"; "other"]%string /\
    (forall m m' : string,
        msg = Some m ->
        Spec.same_text m m' = true ->
        categorize_message (Some m') = categorize_message msg).
Proof.
  intros msg; split; [|split; [reflexivity|split]].
  - destruct msg as [m|]; [|reflexivity].
    unfold categorize_message, Spec.category, Spec.rules, Spec.first_match.
    rewrite !contains_lower by reflexivity. reflexivity.
  - destruct (categorize_message msg); simpl; tauto.
  - intros m m' -> Hm. unfold categorize_message.
    rewrite (same_text_lower m m' Hm). reflexivity.
Qed.

Example categorize_message_capitals :
  categorize_message (Some "TRANSACTION {} FAILED"%string)
    = Category.transaction /\
  categorize_message (Some "Sync Failed"%string) = Category.error /\
  Spec.ci_contains "failed" "Sync FAILED" = true /\
  Spec.ci_contains "failed" "Sync f4iled" = false.
Proof. repeat split; reflexivity. Qed.

(** *** Rounding to binary64 *)

Lemma two_pos (e : Z) : (0 < (2 # 1) ^ e)%Q.
Proof. apply Qpower_0_lt. reflexivity. Qed.

Lemma two_succ (e : Z) : ((2 # 1) ^ (e + 1) == (2 # 1) * (2 # 1) ^ e)%Q.
Proof.
  rewrite Qpower_plus by discriminate. rewrite Qmult_comm. reflexivity.
Qed.

Lemma Qle_bool_false (x y : Q) : Qle_bool x y = false -> (y < x)%Q.
Proof.
  intros H. apply Qnot_le_lt. intros Hle.
  apply Qle_bool_iff in Hle. congruence.
Qed.

Lemma log2_bounds (n : Z) :
  (0 < n)%Z ->
  (inject_Z 2 ^ Z.log2 n <= inject_Z n)%Q /\
  (inject_Z n < inject_Z 2 ^ (Z.log2 n + 1))%Q.
Proof.
  intros Hn. pose proof (Z.log2_spec n Hn) as [Hlo Hhi].
  pose proof (Z.log2_nonneg n) as Hl.
  rewrite <- !Zpower_Qpower by lia.
  rewrite <- Zle_Qle, <- Zlt_Qlt. replace (Z.log2 n + 1)%Z with (Z.succ (Z.log2 n)) by lia.
  split; assumption.
Qed.

Lemma ilog2_spec (x : Q) :
  (0 < x)%Q ->
  ((2 # 1) ^ Float.ilog2 x <= x)%Q /\ (x < (2 # 1) ^ (Float.ilog2 x + 1))%Q.
Proof.
  intros Hx. unfold Float.ilog2.
  set (a := Z.log2 (Qnum x)). set (b := Z.log2 (Zpos (Qden x))).
  assert (Hn : (0 < Qnum x)%Z).
  { unfold Qlt in Hx. simpl in Hx. lia. }
  destruct (log2_bounds (Qnum x) Hn) as [Ha1 Ha2].
  destruct (log2_bounds (Zpos (Qden x)) eq_refl) as [Hb1 Hb2].
  fold a in Ha1, Ha2. fold b in Hb1, Hb2.
  change (inject_Z 2) with (2 # 1)%Q in *.
  assert (Ex : (x == inject_Z (Qnum x) / inject_Z (Zpos (Qden x)))%Q).
  { destruct x as [n d]. simpl. apply Qmake_Qdiv. }
  assert (Hd : (0 < inject_Z (Zpos (Qden x)))%Q) by reflexivity.
  assert (Hxd : (x * inject_Z (Zpos (Qden x)) == inject_Z (Qnum x))%Q).
  { rewrite Ex at 1. field. intros H. rewrite H in Hd. discriminate. }
  pose proof (two_pos a) as Pa. pose proof (two_pos b) as Pb.
  pose proof (two_pos (a - b)) as Pab.
  assert (Eab : ((2 # 1) ^ (a - b) * (2 # 1) ^ b == (2 # 1) ^ a)%Q).
  { rewrite <- Qpower_plus by discriminate. replace (a - b + b)%Z with a by lia.
    reflexivity. }
  rewrite two_succ in Ha2, Hb2.
  destruct (Qle_bool ((2 # 1) ^ (a - b)) x) eqn:E.
  - split; [apply Qle_bool_iff; assumption|].
    rewrite two_succ.
    (* x * d = n < 2 * 2^a = 2 * 2^(a-b) * 2^b <= 2 * 2^(a-b) * d *)
    apply Qnot_le_lt. intros Hc.
    assert (H1 : ((2 # 1) * (2 # 1) ^ (a - b) * (2 # 1) ^ b
                  <= x * inject_Z (Zpos (Qden x)))%Q).
    { apply Qle_trans with (x * (2 # 1) ^ b)%Q.
      - apply Qmult_le_compat_r; [assumption|apply Qlt_le_weak; assumption].
      - rewrite !(Qmult_comm x). apply Qmult_le_compat_r;
          [assumption|apply Qlt_le_weak; assumption]. }
    rewrite Hxd in H1. rewrite <- Qmult_assoc, Eab in H1.
    apply (Qlt_irrefl (inject_Z (Qnum x))).
    eapply Qlt_le_trans; eassumption.
  - apply Qle_bool_false in E.
    replace (a - b - 1 + 1)%Z with (a - b)%Z by lia.
    split; [|assumption].
    (* 2^(a-b-1) * d < 2^(a-b-1) * 2 * 2^b = 2^a <= n = x * d *)
    assert (E1 : ((2 # 1) * (2 # 1) ^ (a - b - 1) == (2 # 1) ^ (a - b))%Q).
    { rewrite <- two_succ. replace (a - b - 1 + 1)%Z with (a - b)%Z by lia.
      reflexivity. }
    pose proof (two_pos (a - b - 1)) as Pm.
    apply Qnot_lt_le. intros Hc.
    assert (H1 : (x * inject_Z (Zpos (Qden x))
                  < (2 # 1) ^ (a - b - 1) * ((2 # 1) * (2 # 1) ^ b))%Q).
    { apply Qle_lt_trans with ((2 # 1) ^ (a - b - 1) * inject_Z (Zpos (Qden x)))%Q.
      - apply Qmult_le_compat_r; [apply Qlt_le_weak; assumption|].
        apply Qlt_le_weak; assumption.
      - apply Qmult_lt_l; assumption. }
    rewrite Hxd in H1.
    assert (E2 : ((2 # 1) ^ (a - b - 1) * ((2 # 1) * (2 # 1) ^ b)
                  == (2 # 1) ^ a)%Q).
    { rewrite Qmult_assoc, (Qmult_comm _ (2 # 1)), E1, Eab. reflexivity. }
    rewrite E2 in H1.
    apply (Qlt_irrefl (inject_Z (Qnum x))).
    eapply Qlt_le_trans; eassumption.
Qed.

Lemma nearest_even_error (y : Q) :
  (Qabs (inject_Z (Float.nearest_even y) - y) <= 1 # 2)%Q.
Proof.
  unfold Float.nearest_even.
  pose proof (Qfloor_le y) as Hlo. pose proof (Qlt_floor y) as Hhi.
  rewrite inject_Z_plus in Hhi. change (inject_Z 1) with 1%Q in Hhi.
  set (f := Qfloor y) in *.
  apply Qabs_Qle_condition.
  destruct (y - inject_Z f ?= 1 # 2)%Q eqn:E.
  - apply Qeq_alt in E.
    destruct (Z.even f); rewrite ?inject_Z_plus;
      change (inject_Z 1) with 1%Q; split; lra.
  - apply Qlt_alt in E. split; lra.
  - apply Qgt_alt in E. rewrite inject_Z_plus.
    change (inject_Z 1) with 1%Q. split; lra.
Qed.

Lemma nearest_even_nonneg (y : Q) : (0 <= y)%Q -> (0 <= Float.nearest_even y)%Z.
Proof.
  intros Hy. unfold Float.nearest_even.
  assert (Hf : (0 <= Qfloor y)%Z).
  { change 0%Z with (Qfloor 0). apply Qfloor_resp_le. assumption. }
  destruct (y - inject_Z (Qfloor y) ?= 1 # 2)%Q; [destruct (Z.even _)| |]; lia.
Qed.

Lemma round_Qeq (x y : Q) : (x == y)%Q -> Float.round x = Float.round y.
Proof.
  intros H. unfold Float.round. rewrite (Qred_complete x y H). reflexivity.
Qed.

(** Rounding at the Float.exponent [e] moves a number by at most half of 2^e. *)
Lemma round_at_error (e : Z) (x : Q) :
  (Qabs (Float.round_at e x - x) <= (1 # 2) * (2 # 1) ^ e)%Q.
Proof.
  unfold Float.round_at. pose proof (two_pos e) as P.
  pose proof (nearest_even_error (x / (2 # 1) ^ e)) as H.
  set (m := inject_Z (Float.nearest_even (x / (2 # 1) ^ e))) in *.
  assert (E : (m * (2 # 1) ^ e - x == (m - x / (2 # 1) ^ e) * (2 # 1) ^ e)%Q).
  { field. intros H0. rewrite H0 in P. discriminate. }
  rewrite E, Qabs_Qmult, (Qabs_pos ((2 # 1) ^ e)) by (apply Qlt_le_weak; assumption).
  apply Qmult_le_compat_r; [assumption|apply Qlt_le_weak; assumption].
Qed.

Lemma round_at_nonneg (e : Z) (x : Q) : (0 <= x)%Q -> (0 <= Float.round_at e x)%Q.
Proof.
  intros Hx. unfold Float.round_at. pose proof (two_pos e) as P.
  apply Qmult_le_0_compat; [|apply Qlt_le_weak; assumption].
  change 0%Q with (inject_Z 0). rewrite <- Zle_Qle.
  apply nearest_even_nonneg. apply Qle_shift_div_l; [assumption|].
  rewrite Qmult_0_l. assumption.
Qed.

Lemma round_cases (x : Q) :
  ((x == 0)%Q /\ Float.round x = 0%Q) \/
  (~ (x == 0)%Q /\ exists x', (x' == x)%Q /\
                              (Float.round x == Float.round_at (Float.exponent x') x')%Q).
Proof.
  unfold Float.round. destruct (Qeq_bool (Qred x) 0) eqn:E.
  - left. apply Qeq_bool_iff in E. rewrite Qred_correct in E. auto.
  - right. split.
    + intros H. apply Qeq_bool_neq in E. apply E. rewrite Qred_correct. assumption.
    + exists (Qred x). split; [apply Qred_correct|apply Qred_correct].
Qed.

Lemma round_nonneg (x : Q) : (0 <= x)%Q -> (0 <= Float.round x)%Q.
Proof.
  intros Hx. destruct (round_cases x) as [[_ ->]|[_ (x' & Ex & ->)]].
  - apply Qle_refl.
  - apply round_at_nonneg. rewrite Ex. assumption.
Qed.

(** In the normal range rounding moves a number by at most its [Float.eps]-th. *)
Lemma round_error (x : Q) :
  ((2 # 1) ^ (-1022) <= Qabs x)%Q ->
  (Qabs (Float.round x - x) <= Float.eps * Qabs x)%Q.
Proof.
  intros Hx. destruct (round_cases x) as [[E0 _]|[Hn (x' & Ex & ->)]].
  - rewrite E0 in Hx. exfalso. revert Hx. apply Qlt_not_le.
    apply two_pos.
  - rewrite <- Ex in *. clear x Ex.
    assert (Hpos : (0 < Qabs x')%Q).
    { eapply Qlt_le_trans; [apply (two_pos (-1022))|assumption]. }
    destruct (ilog2_spec (Qabs x') Hpos) as [Hlo Hhi].
    assert (Hl : (-1022 <= Float.ilog2 (Qabs x'))%Z).
    { destruct (Z_le_gt_dec (-1022) (Float.ilog2 (Qabs x'))) as [|Hgt]; [assumption|].
      exfalso. apply (Qlt_irrefl (Qabs x')).
      eapply Qlt_le_trans; [exact Hhi|].
      eapply Qle_trans; [|exact Hx].
      apply Qpower_le_compat_l; [lia|discriminate]. }
    assert (He : Float.exponent x' = (Float.ilog2 (Qabs x') - 52)%Z).
    { unfold Float.exponent. lia. }
    rewrite He. eapply Qle_trans; [apply round_at_error|].
    set (l := Float.ilog2 (Qabs x')) in *.
    assert (E : ((1 # 2) * (2 # 1) ^ (l - 52) == Float.eps * (2 # 1) ^ l)%Q).
    { unfold Float.eps. replace (l - 52)%Z with (-53 + l + 1)%Z by lia.
      rewrite two_succ, (Qpower_plus (2 # 1) (-53) l) by discriminate.
      field. }
    rewrite E. apply Qmult_le_l; [apply two_pos|assumption].
Qed.



Lemma rho_pos : (0 < Float.rho)%Q.
Proof. reflexivity. Qed.

Lemma rho_pow_pos (k : Z) : (0 < Float.rho ^ k)%Q.
Proof. apply Qpower_0_lt, rho_pos. Qed.

Lemma rho_succ (k : Z) : (Float.rho ^ (k + 1) == Float.rho ^ k * Float.rho)%Q.
Proof. rewrite Qpower_plus by discriminate. reflexivity. Qed.

Lemma round_pos_bounds (x : Q) :
  ((2 # 1) ^ (-1022) <= x)%Q ->
  (x * Float.rho <= Float.round x)%Q /\ (Float.round x * Float.rho <= x)%Q.
Proof.
  intros Hx.
  assert (Hpos : (0 < x)%Q).
  { eapply Qlt_le_trans; [apply (two_pos (-1022))|assumption]. }
  assert (Habs : (Qabs x == x)%Q) by (apply Qabs_pos, Qlt_le_weak; assumption).
  pose proof (round_error x) as H. rewrite Habs in H. specialize (H Hx).
  apply Qabs_Qle_condition in H. destruct H as [H1 H2].
  unfold Float.rho. assert (Hu : (0 < Float.eps)%Q) by reflexivity.
  assert (Hu1 : (Float.eps < 1)%Q) by reflexivity.
  split; [lra|].
  (* Float.round x <= x (1 + Float.eps) and (1 + Float.eps)(1 - Float.eps) <= 1 *)
  assert (H3 : (Float.round x * (1 - Float.eps) <= x * (1 + Float.eps) * (1 - Float.eps))%Q).
  { apply Qmult_le_compat_r; lra. }
  assert (H4 : (x * (1 + Float.eps) * (1 - Float.eps) == x - x * (Float.eps * Float.eps))%Q) by ring.
  assert (H5 : (0 <= x * (Float.eps * Float.eps))%Q).
  { apply Qmult_le_0_compat; [lra|]. apply Qmult_le_0_compat; lra. }
  lra.
Qed.

Lemma approx_round (k : Z) (x a : Q) :
  Spec.approx k x a -> ((2 # 1) ^ (-1022) <= x)%Q -> Spec.approx (k + 1) (Float.round x) a.
Proof.
  intros [H1 H2] Hx. destruct (round_pos_bounds x Hx) as [R1 R2].
  pose proof rho_pos as Pr. pose proof (rho_pow_pos k) as Pk.
  unfold Spec.approx. rewrite rho_succ. split.
  - apply Qle_trans with (x * Float.rho)%Q; [|assumption].
    rewrite Qmult_assoc. apply Qmult_le_compat_r; [assumption|lra].
  - apply Qle_trans with (x * Float.rho ^ k)%Q; [|assumption].
    rewrite (Qmult_comm (Float.rho ^ k) Float.rho), Qmult_assoc.
    apply Qmult_le_compat_r; [assumption|lra].
Qed.

Lemma approx_refl (x : Q) : Spec.approx 0 x x.
Proof. unfold Spec.approx. change (Float.rho ^ 0)%Q with 1%Q. split; lra. Qed.

Lemma approx_scale (k : Z) (x a s : Q) :
  (0 <= s)%Q -> Spec.approx k x a -> Spec.approx k (x * s) (a * s).
Proof.
  intros Hs [H1 H2]. split.
  - setoid_replace (a * s * Float.rho ^ k)%Q with (a * Float.rho ^ k * s)%Q by ring.
    apply Qmult_le_compat_r; assumption.
  - setoid_replace (x * s * Float.rho ^ k)%Q with (x * Float.rho ^ k * s)%Q by ring.
    apply Qmult_le_compat_r; assumption.
Qed.

Lemma Qmult_le_l_weak (z x y : Q) :
  (0 <= z)%Q -> (x <= y)%Q -> (z * x <= z * y)%Q.
Proof.
  intros Hz H. rewrite !(Qmult_comm z). apply Qmult_le_compat_r; assumption.
Qed.

Lemma approx_div (j k : Z) (x a y b : Q) :
  (0 <= a)%Q -> (0 < b)%Q ->
  Spec.approx j x a -> Spec.approx k y b -> Spec.approx (j + k) (x / y) (a / b).
Proof.
  intros Ha Hb [X1 X2] [Y1 Y2].
  pose proof (rho_pow_pos j) as Pj. pose proof (rho_pow_pos k) as Pk.
  assert (Hy : (0 < y)%Q).
  { eapply Qlt_le_trans; [|exact Y1]. apply Qmult_lt_0_compat; assumption. }
  assert (Hx : (0 <= x)%Q).
  { eapply Qle_trans; [|exact X1]. apply Qmult_le_0_compat; lra. }
  unfold Spec.approx. rewrite (Qpower_plus Float.rho j k) by discriminate. split.
  - apply Qle_shift_div_l; [assumption|].
    (* a/b Float.rho^j Float.rho^k y <= a Float.rho^j (since Float.rho^k y <= b) <= x *)
    apply Qle_trans with (a * Float.rho ^ j)%Q; [|assumption].
    setoid_replace (a / b * (Float.rho ^ j * Float.rho ^ k) * y)%Q
      with (a * Float.rho ^ j * ((y * Float.rho ^ k) / b))%Q by (field; lra).
    rewrite <- (Qmult_1_r (a * Float.rho ^ j)) at 2.
    apply Qmult_le_l_weak; [apply Qmult_le_0_compat; lra|].
    apply Qle_shift_div_r; [assumption|lra].
  - apply Qle_shift_div_l; [assumption|].
    setoid_replace (x / y * (Float.rho ^ j * Float.rho ^ k) * b)%Q
      with (x * Float.rho ^ j * ((b * Float.rho ^ k) / y))%Q by (field; lra).
    apply Qle_trans with (x * Float.rho ^ j)%Q; [|assumption].
    rewrite <- (Qmult_1_r (x * Float.rho ^ j)) at 2.
    apply Qmult_le_l_weak; [apply Qmult_le_0_compat; lra|].
    apply Qle_shift_div_r; [assumption|lra].
Qed.



Ltac qle_compute := apply Qle_bool_iff; vm_compute; reflexivity.

Lemma approx_lower (k : Z) (x a b : Q) :
  Spec.approx k x a -> (b <= a)%Q -> ((2 # 1) ^ (-1022) <= b * Float.rho ^ k)%Q ->
  ((2 # 1) ^ (-1022) <= x)%Q.
Proof.
  intros [H1 _] Hb Hk. eapply Qle_trans; [exact Hk|].
  eapply Qle_trans; [|exact H1].
  apply Qmult_le_compat_r; [assumption|apply Qlt_le_weak, rho_pow_pos].
Qed.

Lemma percentage_approx (count total : nat) :
  count <= total -> 1 <= total -> (Z.of_nat total < 2 ^ 63)%Z ->
  Spec.approx 4 (percentage count total) (Spec.exact_percentage count total).
Proof.
  intros Hle Ht Hmax. unfold percentage, Spec.exact_percentage.
  set (c := inject_Z (Z.of_nat count)). set (t := inject_Z (Z.of_nat total)).
  assert (Ht1 : (1 <= t)%Q).
  { unfold t. change 1%Q with (inject_Z 1). rewrite <- Zle_Qle. lia. }
  assert (Ht2 : (t <= (2 # 1) ^ 63)%Q).
  { unfold t. change ((2 # 1) ^ 63)%Q with (inject_Z (2 ^ 63)).
    rewrite <- Zle_Qle. lia. }
  destruct count as [|n].
  - (* no record: every step is exact *)
    change c with 0%Q. change (Float.round 0) with 0%Q.
    assert (E1 : Float.round (0 / Float.round t) = 0%Q).
    { rewrite (round_Qeq (0 / Float.round t) 0); [reflexivity|].
      unfold Qdiv. apply Qmult_0_l. }
    rewrite E1.
    assert (E2 : Float.round (0 * (100 # 1)) = 0%Q) by reflexivity.
    rewrite E2. unfold Spec.approx. pose proof (rho_pow_pos 4) as P.
    assert (E3 : (0 / t * (100 # 1) == 0)%Q).
    { unfold Qdiv. rewrite !Qmult_0_l. reflexivity. }
    rewrite E3. split; rewrite Qmult_0_l; apply Qle_refl.
  - assert (Hc1 : (1 <= c)%Q).
    { unfold c. change 1%Q with (inject_Z 1). rewrite <- Zle_Qle. lia. }
    assert (Ac : Spec.approx 1 (Float.round c) c).
    { apply (approx_round 0 c c (approx_refl c)).
      eapply Qle_trans; [|exact Hc1]. qle_compute. }
    assert (At : Spec.approx 1 (Float.round t) t).
    { apply (approx_round 0 t t (approx_refl t)).
      eapply Qle_trans; [|exact Ht1]. qle_compute. }
    assert (Aq0 : Spec.approx 2 (Float.round c / Float.round t) (c / t)).
    { apply (approx_div 1 1); [lra|lra|assumption|assumption]. }
    assert (Hct : ((2 # 1) ^ (-63) <= c / t)%Q).
    { apply Qle_shift_div_l; [lra|].
      apply Qle_trans with ((2 # 1) ^ (-63) * (2 # 1) ^ 63)%Q.
      - apply Qmult_le_l_weak; [qle_compute|assumption].
      - eapply Qle_trans; [|exact Hc1]. qle_compute. }
    assert (Aq : Spec.approx 3 (Float.round (Float.round c / Float.round t)) (c / t)).
    { apply (approx_round 2 _ _ Aq0).
      apply (approx_lower 2 _ _ _ Aq0 Hct). qle_compute. }
    assert (Ap0 : Spec.approx 3 (Float.round (Float.round c / Float.round t) * (100 # 1))
                         (c / t * (100 # 1))).
    { apply approx_scale; [discriminate|assumption]. }
    apply (approx_round 3 _ _ Ap0).
    apply (approx_lower 3 _ _ ((2 # 1) ^ (-63) * (100 # 1))%Q Ap0).
    + apply Qmult_le_compat_r; [assumption|discriminate].
    + qle_compute.
Qed.


Lemma approx_sum {A : Type} (f g : A -> Q) (l : list A) (k : Z) :
  Forall (fun x => Spec.approx k (f x) (g x)) l ->
  Spec.approx k (fold_right Qplus 0%Q (map f l)) (fold_right Qplus 0%Q (map g l)).
Proof.
  induction 1 as [|x l [H1 H2] _ [IH1 IH2]]; cbn [map fold_right].
  - unfold Spec.approx. rewrite Qmult_0_l. split; apply Qle_refl.
  - unfold Spec.approx. rewrite !Qmult_plus_distr_l. split; lra.
Qed.

Lemma approx_tolerance (x : Q) :
  Spec.approx 4 x (100 # 1) -> (Qabs (x - (100 # 1)) <= Spec.tolerance)%Q.
Proof.
  intros [H1 H2]. apply Qabs_Qle_condition.
  assert (L : ((100 # 1) - Spec.tolerance <= (100 # 1) * Float.rho ^ 4)%Q) by qle_compute.
  split; [lra|].
  (* x Float.rho^4 <= 100 <= (100 + tol) Float.rho^4 *)
  assert (U : ((100 # 1) <= ((100 # 1) + Spec.tolerance) * Float.rho ^ 4)%Q) by qle_compute.
  assert (H3 : (x * Float.rho ^ 4 <= ((100 # 1) + Spec.tolerance) * Float.rho ^ 4)%Q) by lra.
  apply Qmult_le_r in H3; [lra|apply rho_pow_pos].
Qed.

(** *** The category statistics *)

Lemma list_sum_cons (a : nat) (l : list nat) :
  list_sum (a :: l) = a + list_sum l.
Proof. reflexivity. Qed.

Lemma category_eqb_eq (a b : Category.t) : Category.eqb a b = true <-> a = b.
Proof.
  destruct a, b; simpl; split; intros H; try reflexivity; discriminate.
Qed.

Lemma firsts_In (c : Category.t) (l : list Category.t) :
  In c (firsts l) <-> In c l.
Proof.
  induction l as [|d l IH]; cbn [firsts In]; [tauto|].
  rewrite filter_In, IH, negb_true_iff.
  destruct (Category.eqb d c) eqn:E.
  - apply category_eqb_eq in E. subst. tauto.
  - split; intros [H|H]; auto. right. tauto.
Qed.

Lemma firsts_NoDup (l : list Category.t) : NoDup (firsts l).
Proof.
  induction l as [|d l IH]; cbn [firsts]; constructor.
  - rewrite filter_In, negb_true_iff.
    intros [_ H]. assert (E : Category.eqb d d = true) by (apply category_eqb_eq; auto).
    congruence.
  - apply NoDup_filter. assumption.
Qed.

Lemma list_sum_indicator (c : Category.t) (cats : list Category.t) :
  NoDup cats -> In c cats ->
  list_sum (map (fun d => if Category.eqb d c then 1 else 0) cats) = 1.
Proof.
  induction 1 as [|d cats Hd Hnd IH]; intros Hin; [destruct Hin|].
  cbn [map]; rewrite ?list_sum_cons. destruct Hin as [->|Hin].
  - assert (E : Category.eqb c c = true) by (apply category_eqb_eq; auto).
    rewrite E.
    assert (Hz : list_sum (map (fun d => if Category.eqb d c then 1 else 0) cats)
                 = 0).
    { clear IH Hnd. induction cats as [|e cats IH]; [reflexivity|].
      cbn [map]; rewrite ?list_sum_cons. destruct (Category.eqb e c) eqn:Ee.
      - apply category_eqb_eq in Ee. subst. exfalso. apply Hd. left. reflexivity.
      - apply IH. intros H. apply Hd. right. assumption. }
    rewrite Hz. reflexivity.
  - destruct (Category.eqb d c) eqn:E.
    + apply category_eqb_eq in E. subst. contradiction.
    + rewrite (IH Hin). reflexivity.
Qed.

(** The counts of distinct categories that cover a list add up to its
    length. *)
Lemma counts_sum (cats l : list Category.t) :
  NoDup cats -> (forall c, In c l -> In c cats) ->
  list_sum (map (fun c => count_of c l) cats) = List.length l.
Proof.
  intros Hnd. induction l as [|x l IH]; intros Hcover.
  - induction cats as [|c cats IHc]; [reflexivity|].
    cbn [map]; rewrite ?list_sum_cons. inversion Hnd; subst. rewrite IHc; auto.
    intros c' [].
  - assert (Hsplit : forall cs,
               list_sum (map (fun c => count_of c (x :: l)) cs)
               = list_sum (map (fun d => if Category.eqb d x then 1 else 0) cs)
                 + list_sum (map (fun c => count_of c l) cs)).
    { induction cs as [|c cs IHcs]; [reflexivity|].
      cbn [map]; rewrite ?list_sum_cons. rewrite IHcs.
      unfold count_of at 1. cbn [filter].
      fold (count_of c l).
      destruct (Category.eqb c x); cbn [List.length]; unfold count_of; lia. }
    rewrite Hsplit, (list_sum_indicator x cats Hnd), IH.
    + reflexivity.
    + intros c Hc. apply Hcover. right. assumption.
    + apply Hcover. left. reflexivity.
Qed.

Lemma insert_by_count_sum (x : Category.t * nat) (l : list (Category.t * nat)) :
  list_sum (map snd (insert_by_count x l)) = snd x + list_sum (map snd l).
Proof.
  induction l as [|y l IH]; cbn [insert_by_count]; [reflexivity|].
  destruct (snd y <=? snd x)%nat; cbn [map]; rewrite ?list_sum_cons;
    [reflexivity|].
  rewrite IH. lia.
Qed.

(** The counts of [value_counts] add up to the number of values. *)
Lemma value_counts_sum (l : list Category.t) :
  list_sum (map snd (value_counts l)) = List.length l.
Proof.
  unfold value_counts.
  rewrite <- (counts_sum (firsts l) l (firsts_NoDup l))
    by (intros c Hc; apply firsts_In; assumption).
  induction (firsts l) as [|c cs IH]; [reflexivity|].
  cbn [map fold_right]. rewrite insert_by_count_sum, list_sum_cons, IH.
  reflexivity.
Qed.

Lemma exact_percentage_sum (stats : list (Category.t * nat)) (total : nat) :
  (fold_right Qplus 0
     (map (fun cn => Spec.exact_percentage (snd cn) total) stats)
   == Spec.exact_percentage (list_sum (map snd stats)) total)%Q.
Proof.
  induction stats as [|cn stats IH]; cbn [map fold_right];
    rewrite ?list_sum_cons.
  - unfold Spec.exact_percentage. cbn. reflexivity.
  - rewrite IH. unfold Spec.exact_percentage.
    rewrite Nat2Z.inj_add, inject_Z_plus. unfold Qdiv. ring.
Qed.

Lemma exact_percentage_all (n : nat) :
  n <> 0 -> (Spec.exact_percentage n n == 100 # 1)%Q.
Proof.
  intros Hn. unfold Spec.exact_percentage.
  assert (Hz : ~ (inject_Z (Z.of_nat n) == 0)%Q).
  { unfold Qeq. cbn. lia. }
  field. assumption.
Qed.

Lemma count_le_sum (stats : list (Category.t * nat)) (cn : Category.t * nat) :
  In cn stats -> snd cn <= list_sum (map snd stats).
Proof.
  induction stats as [|x stats IH]; intros H; [destruct H|].
  cbn [map]. rewrite list_sum_cons. destruct H as [->|H]; [lia|].
  specialize (IH H). lia.
Qed.

Lemma approx_Qeq (k : Z) (x a b : Q) :
  (a == b)%Q -> Spec.approx k x a -> Spec.approx k x b.
Proof.
  intros E [H1 H2]. unfold Spec.approx. rewrite <- E. split; assumption.
Qed.

(** The percentages of a table of fewer than 2^63 records: each is its
    exact value up to four roundings, and they add up to 100 within the
    tolerance. *)
Lemma category_table_tolerance (stats : list (Category.t * nat)) :
  list_sum (map snd stats) <> 0 ->
  (Z.of_nat (list_sum (map snd stats)) < 2 ^ 63)%Z ->
  Forall (fun r => Spec.approx 4 (Percentage r)
                     (Spec.exact_percentage (Count r)
                                            (list_sum (map snd stats))))
         (category_table stats) /\
  (Qabs (Spec.total_percentage (category_table stats) - (100 # 1))
   <= Spec.tolerance)%Q.
Proof.
  intros Hne Hmax. set (total := list_sum (map snd stats)) in *.
  assert (Hrows : Forall (fun r => Spec.approx 4 (Percentage r)
                                     (Spec.exact_percentage (Count r) total))
                         (category_table stats)).
  { unfold category_table. fold total. apply Forall_map, Forall_forall.
    intros cn Hcn. cbn [Percentage Count].
    apply percentage_approx; [apply count_le_sum; assumption|lia|assumption]. }
  split; [assumption|].
  apply approx_tolerance.
  apply (approx_Qeq 4 _
           (fold_right Qplus 0%Q
              (map (fun r => Spec.exact_percentage (Count r) total)
                   (category_table stats)))).
  - unfold category_table. fold total. rewrite map_map. cbn [Count].
    rewrite exact_percentage_sum. apply exact_percentage_all. assumption.
  - unfold Spec.total_percentage. apply approx_sum. assumption.
Qed.

(** C9. The counts of the category table are those of the statistics and
    add up to the number of categorized records. For a record set that
    is not empty (and of fewer than 2^63 records, the range of the
    counts), the exact percentages count / total * 100 add up to 100; the
    percentage the code computes in floating point for a category is
    that value up to four roundings (of the count, of the total, of the
    division and of the multiplication), and the computed percentages
    add up to 100 within the tolerance 2^-44. *)
Theorem category_percentages_sum_to_100 :
  forall (parsed_logs : DataFrame Log.t) (categorized : DataFrame CLog.t)
         (stats : list (Category.t * nat)),
    categorize_logs parsed_logs = Ok (categorized, stats) ->
    rows parsed_logs <> [] ->
    (Z.of_nat (List.length (rows parsed_logs)) < 2 ^ 63)%Z ->
    map (fun r => (Category_ r, Count r)) (category_table stats) = stats /\
    list_sum (map snd stats) = List.length (rows parsed_logs) /\
    (fold_right Qplus 0
       (map (fun r => Spec.exact_percentage (Count r)
                        (list_sum (map snd stats)))
            (category_table stats)) == 100 # 1)%Q /\
    Forall (fun r => Spec.approx 4 (Percentage r)
                       (Spec.exact_percentage (Count r)
                                              (list_sum (map snd stats))))
           (category_table stats) /\
    (Qabs (Spec.total_percentage (category_table stats) - (100 # 1))
     <= Spec.tolerance)%Q.
Proof.
  intros parsed_logs categorized stats Hcat Hne Hmax.
  unfold categorize_logs in Hcat.
  apply bind_ok in Hcat as (messages & _ & Hcat).
  injection Hcat as <- <-. cbn [rows].
  set (cats := map CLog.message_category _).
  assert (Hlen : list_sum (map snd (value_counts cats))
                 = List.length (rows parsed_logs)).
  { rewrite value_counts_sum. unfold cats. rewrite !length_map. reflexivity. }
  assert (Hpos : list_sum (map snd (value_counts cats)) <> 0).
  { rewrite Hlen. destruct (rows parsed_logs); [contradiction|discriminate]. }
  split; [|split; [assumption|split]].
  - unfold category_table. rewrite map_map. cbn [Category_ Count].
    clear Hlen Hpos. induction (value_counts cats) as [|[c n] l IH];
      [reflexivity|].
    cbn [map fst snd]. f_equal. assumption.
  - unfold category_table. rewrite map_map. cbn [Count].
    rewrite exact_percentage_sum. apply exact_percentage_all. assumption.
  - apply category_table_tolerance; [assumption|]. rewrite Hlen. assumption.
Qed.

(** C9, on the two records of the good batch: 50 and 50. *)
Lemma category_percentages_sum_to_100_witness :
  categorize_logs Sample.parsed_good
    = Ok (Sample.categorized_good, Sample.stats_good) /\
  rows Sample.parsed_good <> [] /\
  (Z.of_nat (List.length (rows Sample.parsed_good)) < 2 ^ 63)%Z /\
  map (fun r => (Category_ r, Count r)) (category_table Sample.stats_good)
    = Sample.stats_good /\
  list_sum (map snd Sample.stats_good)
    = List.length (rows Sample.parsed_good) /\
  (fold_right Qplus 0
     (map (fun r => Spec.exact_percentage (Count r)
                      (list_sum (map snd Sample.stats_good)))
          (category_table Sample.stats_good)) == 100 # 1)%Q /\
  Forall (fun r => Spec.approx 4 (Percentage r)
                     (Spec.exact_percentage (Count r)
                        (list_sum (map snd Sample.stats_good))))
         (category_table Sample.stats_good) /\
  (Qabs (Spec.total_percentage (category_table Sample.stats_good) - (100 # 1))
   <= Spec.tolerance)%Q.
Proof.
  split; [reflexivity|]. split; [discriminate|]. split; [reflexivity|].
  apply (category_percentages_sum_to_100
           Sample.parsed_good Sample.categorized_good Sample.stats_good);
    [reflexivity | discriminate | reflexivity].
Defined.

(** Three categories of one record each: every computed percentage is a
    little less than 100/3, and their sum is 100 less 2^-46. *)
Example category_table_thirds :
  map Percentage (category_table Sample.thirds)
  = [(2345624805922133 # 70368744177664)%Q;
     (2345624805922133 # 70368744177664)%Q;
     (2345624805922133 # 70368744177664)%Q] /\
  (Spec.total_percentage (category_table Sample.thirds)
   == (100 # 1) - (2 # 1) ^ (-46))%Q.
Proof. split; vm_compute; reflexivity. Qed.

Example category_table_sample :
  map (fun r => (Category.label (Category_ r), Count r, Percentage r))
      (category_table Sample.stats_good)
  = [("transaction"%string, 1, (50 # 1)%Q);
     ("balance_already_synced"%string, 1, (50 # 1)%Q)].
Proof. vm_compute. reflexivity. Qed.

(** *** The transaction extractor *)

Lemma text_field_nonempty (key msg g : string) :
  text_field key msg = Some g -> g <> EmptyString.
Proof.
  intros H. eapply many1_capture in H; [apply H|reflexivity].
Qed.

Lemma extract_fields_id (log : CLog.t) (c : Tx.t) :
  extract_fields log = Ok c ->
  Tx.id c = text_field "id" (py_str (CLog.message log)).
Proof.
  unfold extract_fields. intros H.
  apply bind_ok in H as (amount & _ & H).
  apply bind_ok in H as (vat & _ & H).
  apply bind_ok in H as (balance & _ & H).
  injection H as <-. reflexivity.
Qed.

Lemma retained_iff (log : CLog.t) (c : Tx.t) :
  extract_fields log = Ok c ->
  retained c = true <-> Tx.id c <> None /\ Tx.amount c <> None.
Proof.
  intros H. apply extract_fields_id in H. unfold retained.
  rewrite andb_true_iff.
  destruct (Tx.id c) as [i|] eqn:Ei; simpl.
  - apply eq_sym, text_field_nonempty in H.
    destruct (String.eqb_spec i EmptyString); [contradiction|].
    destruct (Tx.amount c); simpl; split; intros [? ?];
      split; congruence.
  - split; intros [? ?]; [discriminate | congruence].
Qed.

Lemma empty_DataFrame_of {R : Type} (keys : list string) (data : list R) :
  keys <> [] ->
  empty (DataFrame_of keys data) = match data with [] => true | _ => false end.
Proof.
  intros Hk. destruct data; [reflexivity|].
  unfold empty; simpl. destruct keys; [contradiction|reflexivity].
Qed.




Example extract_transactions_sample :
  List.length Sample.candidates = 3 /\
  map Tx.id (filter retained Sample.candidates) = [Some "tx1"%string].
Proof. split; reflexivity. Qed.

Lemma breaks_extraction_intro (msg : string) :
  categorize_message (Some msg) = Category.transaction ->
  (forall log : CLog.t, CLog.message log = Some msg ->
                        raises (extract_fields log)) ->
  Spec.breaks_extraction msg.
Proof.
  intros Hcat Hraise. split; [assumption|]. split; [assumption|].
  intros fsum parsed_logs log Hcol Hin Hmsg Hc.
  unfold extract_transactions, getitem. rewrite Hcol. simpl.
  assert (Hr : raises (mapM extract_fields
                         (filter is_transaction (rows parsed_logs)))).
  { apply mapM_raise_in with (x := log); [|auto].
    apply filter_In. split; [assumption|].
    unfold is_transaction. rewrite Hc. reflexivity. }
  destruct Hr as [e ->]. exists e. reflexivity.
Qed.

(** C10. Extraction is not total on transaction messages: there is a
    transaction message whose amount pattern captures the digit-free
    string of one dot, on which [float] raises and with it the reading of
    the fields and the whole extraction; likewise a message whose vat
    pattern captures 1.2.3 and one whose balance pattern captures two
    minus signs. *)
Theorem extract_fields_not_total :
  (exists msg : string,
      Spec.breaks_extraction msg /\
      Re.search (number_pattern "amount" digit_or_dot) msg = Some "."%string /\
      raises (Float.float ".")) /\
  (exists msg : string,
      Spec.breaks_extraction msg /\
      Re.search (number_pattern "vat" digit_or_dot) msg = Some "1.2.3"%string /\
      raises (Float.float "1.2.3")) /\
  (exists msg : string,
      Spec.breaks_extraction msg /\
      Re.search (number_pattern "userBalance" digit_dot_or_minus) msg
        = Some "--"%string /\
      raises (Float.float "--")).
Proof.
  split; [|split].
  - exists Sample.bad_amount_message. split; [|split].
    + apply breaks_extraction_intro; [reflexivity|].
      intros log Hmsg. unfold extract_fields. rewrite Hmsg.
      eexists. vm_compute. reflexivity.
    + reflexivity.
    + eexists. reflexivity.
  - exists Sample.bad_vat_message. split; [|split].
    + apply breaks_extraction_intro; [reflexivity|].
      intros log Hmsg. unfold extract_fields. rewrite Hmsg.
      eexists. vm_compute. reflexivity.
    + reflexivity.
    + eexists. reflexivity.
  - exists Sample.bad_balance_message. split; [|split].
    + apply breaks_extraction_intro; [reflexivity|].
      intros log Hmsg. unfold extract_fields. rewrite Hmsg.
      eexists. vm_compute. reflexivity.
    + reflexivity.
    + eexists. reflexivity.
Qed.

(** *** The overdraft detector *)

Lemma ltb_lt (x y : Q) : Float.ltb x y = true <-> (x < y)%Q.
Proof.
  unfold Float.ltb. rewrite negb_true_iff.
  split; intros H.
  - apply Qnot_le_lt. intros Hle. apply Qle_bool_iff in Hle. congruence.
  - destruct (Qle_bool y x) eqn:E; [|reflexivity].
    apply Qle_bool_iff in E. exfalso. apply (Qlt_not_le _ _ H E).
Qed.

Lemma leb_le (x y : Q) : Float.leb x y = true <-> (x <= y)%Q.
Proof. apply Qle_bool_iff. Qed.

Lemma negative_balance_iff (tx : Tx.t) :
  negative_balance tx = true <->
  exists b, Tx.userBalance tx = Some b /\ (b < 0)%Q.
Proof.
  unfold negative_balance. destruct (Tx.userBalance tx) as [b|].
  - rewrite ltb_lt. split; [eauto|]. intros (b' & [= <-] & H). assumption.
  - split; [discriminate|]. intros (b & ? & _). discriminate.
Qed.

Lemma low_balance_iff (tx : Tx.t) :
  low_balance tx = true <->
  exists b, Tx.userBalance tx = Some b /\ (0 <= b)%Q /\ (b < 10 # 1)%Q.
Proof.
  unfold low_balance. destruct (Tx.userBalance tx) as [b|].
  - rewrite andb_true_iff, ltb_lt, leb_le.
    split; [eauto|]. intros (b' & [= <-] & H). assumption.
  - split; [discriminate|]. intros (b & ? & _). discriminate.
Qed.

Lemma negative_low_disjoint (tx : Tx.t) :
  negative_balance tx && low_balance tx = false.
Proof.
  unfold negative_balance, low_balance, Float.ltb, Float.leb.
  destruct (Tx.userBalance tx) as [b|]; [|reflexivity].
  destruct (Qle_bool 0 b); reflexivity.
Qed.

(** A row with a balance is in neither set exactly from 10 up. *)
Lemma neither_iff (tx : Tx.t) (b : Q) :
  Tx.userBalance tx = Some b ->
  (negative_balance tx = false /\ low_balance tx = false <-> (10 # 1 <= b)%Q).
Proof.
  intros Hb. unfold negative_balance, low_balance, Float.ltb, Float.leb.
  rewrite Hb. split.
  - intros [H0 H10]. apply negb_false_iff in H0. rewrite H0 in H10.
    cbn [andb] in H10. apply negb_false_iff in H10.
    apply Qle_bool_iff. assumption.
  - intros H.
    assert (H10 : Qle_bool (10 # 1)%Q b = true)
      by (apply Qle_bool_iff; assumption).
    assert (H0 : Qle_bool 0 b = true).
    { apply Qle_bool_iff. apply Qle_trans with (10 # 1)%Q;
        [discriminate|assumption]. }
    rewrite H0, H10. split; reflexivity.
Qed.

Lemma in_somes {A : Type} (x : A) (l : list (option A)) :
  In x (somes l) <-> In (Some x) l.
Proof.
  induction l as [|[y|] l IH]; simpl; [tauto| |].
  - rewrite IH. split; intros [H|H]; auto; left; congruence.
  - rewrite IH. split; [auto|]. intros [H|H]; [discriminate|assumption].
Qed.

(** [nunique] counts the distinct non-null values. *)
Lemma nunique_spec (l : list (option string)) :
  exists values : list string,
    NoDup values /\
    (forall v, In v values <-> In (Some v) l) /\
    nunique l = List.length values.
Proof.
  exists (nodup string_dec (somes l)). split; [apply NoDup_nodup|].
  split; [|reflexivity].
  intros v. rewrite nodup_In. apply in_somes.
Qed.

Lemma detect_overdrafts_of (data : list Tx.t) :
  detect_overdrafts (DataFrame_of Tx.keys data) =
  (DataFrame_of Tx.keys (filter negative_balance data),
   OverdraftStats
     (List.length (filter negative_balance data))
     (List.length (filter low_balance data))
     (nunique (map Tx.userId (filter low_balance data)))).
Proof.
  destruct data as [|tx data]; [reflexivity|].
  unfold detect_overdrafts.
  change (negb (empty (DataFrame_of Tx.keys (tx :: data)))
          && has_column (DataFrame_of Tx.keys (tx :: data)) "userBalance")
    with true.
  cbv iota.
  set (neg := select negative_balance (DataFrame_of Tx.keys (tx :: data))).
  set (low := select low_balance (DataFrame_of Tx.keys (tx :: data))).
  change (rows neg) with (filter negative_balance (tx :: data)).
  change (rows low) with (filter low_balance (tx :: data)).
  assert (Hneg : (if negb (empty neg)
                  then filter negative_balance (tx :: data) else [])
                 = filter negative_balance (tx :: data)).
  { unfold empty. change (rows neg) with (filter negative_balance (tx :: data)).
    destruct (filter negative_balance (tx :: data)); reflexivity. }
  assert (Hlow : (if negb (empty low)
                  then nunique (map Tx.userId (filter low_balance (tx :: data)))
                  else 0)
                 = nunique (map Tx.userId (filter low_balance (tx :: data)))).
  { unfold empty. change (rows low) with (filter low_balance (tx :: data)).
    destruct (filter low_balance (tx :: data)); reflexivity. }
  rewrite Hneg, Hlow. reflexivity.
Qed.

(** C5. On the table the extractor builds, the detector returns the rows
    whose balance is below 0 and counts them, counts the rows whose
    balance is in [0, 10), and reports as at-risk users the number of
    distinct non-null user ids among the latter. Both tests need a
    non-null balance, no row passes both, a row with a balance passes
    neither exactly when the balance is 10 or more, and a frame that is
    empty or has no balance column gives three zero counts (and an empty
    table). *)
Theorem detect_overdrafts_sets :
  forall data : list Tx.t,
    (fst (detect_overdrafts (DataFrame_of Tx.keys data))
       = DataFrame_of Tx.keys (filter negative_balance data) /\
     negative_balance_count (snd (detect_overdrafts (DataFrame_of Tx.keys data)))
       = List.length (filter negative_balance data) /\
     low_balance_count (snd (detect_overdrafts (DataFrame_of Tx.keys data)))
       = List.length (filter low_balance data) /\
     exists users : list string,
       NoDup users /\
       (forall u, In u users <->
                  exists tx, In tx data /\ low_balance tx = true /\
                             Tx.userId tx = Some u) /\
       at_risk_users (snd (detect_overdrafts (DataFrame_of Tx.keys data)))
         = List.length users) /\
    (forall tx : Tx.t,
        (negative_balance tx = true <->
         exists b, Tx.userBalance tx = Some b /\ (b < 0)%Q) /\
        (low_balance tx = true <->
         exists b, Tx.userBalance tx = Some b /\ (0 <= b)%Q /\ (b < 10 # 1)%Q) /\
        negative_balance tx && low_balance tx = false /\
        (Tx.userBalance tx = None ->
         negative_balance tx = false /\ low_balance tx = false) /\
        (forall b, Tx.userBalance tx = Some b ->
                   (negative_balance tx = false /\ low_balance tx = false
                    <-> (10 # 1 <= b)%Q))) /\
    (forall df : DataFrame Tx.t,
        empty df = true \/ has_column df "userBalance" = false ->
        detect_overdrafts df = (DataFrame_of Tx.keys [], OverdraftStats 0 0 0)).
Proof.
  intros data. split; [|split].
  - rewrite detect_overdrafts_of. cbn [fst snd negative_balance_count
                                        low_balance_count at_risk_users].
    repeat (split; [reflexivity|]).
    destruct (nunique_spec (map Tx.userId (filter low_balance data)))
      as (users & Hnd & Hin & Hlen).
    exists users. split; [assumption|]. split; [|assumption].
    intros u. rewrite Hin, in_map_iff. split.
    + intros (tx & Hu & Htx). apply filter_In in Htx as [? ?]. eauto.
    + intros (tx & ? & ? & ?). exists tx. rewrite filter_In. auto.
  - intros tx. split; [apply negative_balance_iff|].
    split; [apply low_balance_iff|]. split; [apply negative_low_disjoint|].
    split; [unfold negative_balance, low_balance; intros ->; auto|].
    apply neither_iff.
  - intros df H. unfold detect_overdrafts.
    destruct H as [-> | ->]; [reflexivity|].
    rewrite andb_false_r. reflexivity.
Qed.

(** *** Sorting a user's transactions *)

Lemma take_idx_seq {A : Type} (l pre : list A) :
  take_idx (pre ++ l) (seq (List.length pre) (List.length l)) = l.
Proof.
  revert pre; induction l as [|x l IH]; intros pre; [reflexivity|].
  cbn [List.length seq]. unfold take_idx in *. cbn [flat_map].
  rewrite nth_error_app2, Nat.sub_diag by lia. cbn [nth_error app].
  f_equal.
  specialize (IH (pre ++ [x])).
  rewrite <- app_assoc, length_app in IH. cbn [List.length app] in IH.
  rewrite Nat.add_1_r in IH. exact IH.
Qed.

Lemma take_idx_perm {A : Type} (l : list A) (idx : list nat) :
  Permutation idx (seq 0 (List.length l)) -> Permutation (take_idx l idx) l.
Proof.
  intros H.
  rewrite <- (take_idx_seq l []) at 2.
  unfold take_idx. cbn [app List.length].
  apply Permutation_flat_map. assumption.
Qed.

Lemma take_idx_map {A B : Type} (f : A -> B) (l : list A) (idx : list nat) :
  map f (take_idx l idx) = take_idx (map f l) idx.
Proof.
  unfold take_idx. induction idx as [|i idx IH]; [reflexivity|].
  cbn [flat_map]. rewrite map_app, IH, nth_error_map.
  destruct (nth_error l i); reflexivity.
Qed.

Lemma map_some_somes {A B : Type} (f : A -> option B) (l : list A) :
  Forall (fun x => is_some (f x) = true) l ->
  map f l = map Some (somes (map f l)).
Proof.
  induction 1 as [|x l Hx _ IH]; [reflexivity|].
  cbn [map]. destruct (f x) eqn:E; [|discriminate].
  cbn [somes map]. rewrite <- IH. reflexivity.
Qed.

Lemma length_somes_map {A B : Type} (f : A -> option B) (l : list A) :
  Forall (fun x => is_some (f x) = true) l ->
  List.length (somes (map f l)) = List.length l.
Proof.
  intros H. apply map_some_somes in H.
  apply (f_equal (@List.length _)) in H. rewrite !length_map in H. auto.
Qed.

Lemma filter_partition_perm {A : Type} (p : A -> bool) (l : list A) :
  Permutation (filter p l ++ filter (fun x => negb (p x)) l) l.
Proof.
  induction l as [|x l IH]; [constructor|].
  cbn [filter]. destruct (p x); cbn [negb app].
  - constructor; assumption.
  - apply Permutation_sym, Permutation_cons_app, Permutation_sym; assumption.
Qed.

Lemma sorted_app {A : Type} (R : A -> A -> Prop) (l1 l2 : list A) :
  StronglySorted R l1 -> StronglySorted R l2 ->
  (forall a b, In a l1 -> In b l2 -> R a b) ->
  StronglySorted R (l1 ++ l2).
Proof.
  induction 1 as [|x l1 Hs IH Hx]; intros H2 Hcross; [assumption|].
  cbn [app]. constructor.
  - apply IH; [assumption|]. intros a b Ha Hb. apply Hcross; [right|]; auto.
  - apply Forall_app. split; [assumption|].
    apply Forall_forall. intros b Hb. apply Hcross; [left|]; auto.
Qed.

Lemma sorted_keys (l : list Tx.t) (keys : list Z) :
  map Tx.datetime l = map Some keys ->
  StronglySorted Z.le keys -> StronglySorted Spec.before l.
Proof.
  revert keys; induction l as [|x l IH]; intros [|k keys] Hmap Hs;
    try discriminate; [constructor|].
  cbn [map] in Hmap. injection Hmap as Hx Hl.
  apply StronglySorted_inv in Hs as [Hs Hk].
  constructor; [eauto|].
  apply Forall_forall. intros y Hy.
  apply (in_map Tx.datetime) in Hy. rewrite Hl in Hy.
  apply in_map_iff in Hy as (ky & Hky & Hin).
  unfold Spec.before. rewrite Hx, <- Hky.
  rewrite Forall_forall in Hk. auto.
Qed.

Lemma sorted_undated (l : list Tx.t) :
  Forall (fun tx => Spec.undated tx = true) l -> StronglySorted Spec.before l.
Proof.
  induction 1 as [|x l Hx Hl IH]; constructor; [assumption|].
  apply Forall_forall. intros y Hy. rewrite Forall_forall in Hl.
  specialize (Hl y Hy). unfold Spec.before, Spec.undated, Spec.dated in *.
  destruct (Tx.datetime x), (Tx.datetime y); simpl in *; try discriminate; exact I.
Qed.

Section Sorting.

Variable argsort : list Z -> list nat.
Hypothesis argsort_sorts : sorts argsort.

Lemma dated_rows_dated (df : DataFrame Tx.t) :
  Forall (fun tx => is_some (Tx.datetime tx) = true) (Spec.dated_rows df).
Proof.
  apply Forall_forall. intros tx H. apply filter_In in H. tauto.
Qed.

Lemma sort_values_perm (df : DataFrame Tx.t) :
  Permutation (rows (sort_values argsort df)) (rows df).
Proof.
  unfold sort_values. cbn [rows].
  etransitivity; [|apply (filter_partition_perm
                            (fun tx => is_some (Tx.datetime tx)))].
  apply Permutation_app_tail, take_idx_perm.
  fold (Spec.dated_rows df).
  rewrite <- (length_somes_map Tx.datetime _ (dated_rows_dated df)).
  apply argsort_sorts.
Qed.

Lemma sort_values_sorted (df : DataFrame Tx.t) :
  StronglySorted Spec.before (rows (sort_values argsort df)).
Proof.
  unfold sort_values. cbn [rows]. fold (Spec.dated_rows df).
  set (keys := somes (map Tx.datetime (Spec.dated_rows df))).
  assert (Hmap : map Tx.datetime (take_idx (Spec.dated_rows df) (argsort keys))
                 = map Some (take_idx keys (argsort keys))).
  { rewrite take_idx_map, (map_some_somes _ _ (dated_rows_dated df)).
    fold keys. rewrite <- take_idx_map. reflexivity. }
  apply sorted_app.
  - apply (sorted_keys _ _ Hmap), argsort_sorts.
  - apply sorted_undated, Forall_forall. intros tx H.
    apply filter_In in H. apply H.
  - intros a b Ha Hb.
    apply (in_map Tx.datetime) in Ha. rewrite Hmap in Ha.
    apply in_map_iff in Ha as (ka & Hka & _).
    apply filter_In in Hb as [_ Hb].
    unfold Spec.before. rewrite <- Hka.
    destruct (Tx.datetime b); [discriminate|exact I].
Qed.

(** The rows without a datetime keep the order they had. *)
Lemma sort_values_undated (df : DataFrame Tx.t) :
  filter Spec.undated (rows (sort_values argsort df))
  = filter Spec.undated (rows df).
Proof.
  unfold sort_values. cbn [rows]. fold (Spec.dated_rows df).
  rewrite filter_app.
  assert (H1 : filter Spec.undated
                 (take_idx (Spec.dated_rows df)
                    (argsort (somes (map Tx.datetime (Spec.dated_rows df))))) = []).
  { induction (argsort (somes (map Tx.datetime (Spec.dated_rows df)))) as [|i idx IH];
      [reflexivity|].
    unfold take_idx in *. cbn [flat_map]. rewrite filter_app, IH, app_nil_r.
    destruct (nth_error (Spec.dated_rows df) i) as [tx|] eqn:E; [|reflexivity].
    apply nth_error_In, filter_In in E as [_ E].
    cbn [filter]. unfold Spec.undated, Spec.dated. rewrite E. reflexivity. }
  rewrite H1. cbn [app].
  induction (rows df) as [|x l IH]; [reflexivity|].
  cbn [filter]. unfold Spec.undated at 2 4, Spec.dated.
  destruct (is_some (Tx.datetime x)) eqn:E; cbn [negb filter].
  - exact IH.
  - unfold Spec.undated at 1, Spec.dated. rewrite E. cbn [negb]. f_equal. exact IH.
Qed.

End Sorting.

(** The stable insertion sort is such an [argsort]. *)

Lemma insert_key_perm (x : Z * nat) (l : list (Z * nat)) :
  Permutation (insert_key x l) (x :: l).
Proof.
  induction l as [|y l IH]; cbn [insert_key]; [reflexivity|].
  destruct (fst x <=? fst y)%Z; [reflexivity|].
  rewrite IH. apply perm_swap.
Qed.

Lemma insertion_perm (l : list (Z * nat)) :
  Permutation (fold_right insert_key [] l) l.
Proof.
  induction l as [|x l IH]; cbn [fold_right]; [reflexivity|].
  rewrite insert_key_perm. constructor. assumption.
Qed.

Lemma insert_key_sorted (x : Z * nat) (l : list (Z * nat)) :
  StronglySorted (fun a b => (fst a <= fst b)%Z) l ->
  StronglySorted (fun a b => (fst a <= fst b)%Z) (insert_key x l).
Proof.
  induction 1 as [|y l Hs IH Hy]; cbn [insert_key].
  - repeat constructor.
  - destruct (Z.leb_spec (fst x) (fst y)) as [Hle|Hgt].
    + constructor; [constructor; assumption|].
      constructor; [assumption|].
      eapply Forall_impl; [|exact Hy]. cbv beta. intros; lia.
    + constructor; [assumption|].
      eapply Permutation_Forall; [symmetry; apply insert_key_perm|].
      constructor; [lia|assumption].
Qed.

Lemma insertion_sorted (l : list (Z * nat)) :
  StronglySorted (fun a b => (fst a <= fst b)%Z) (fold_right insert_key [] l).
Proof.
  induction l as [|x l IH]; cbn [fold_right]; [constructor|].
  apply insert_key_sorted. assumption.
Qed.

Lemma combine_seq_lookup (keys pre : list Z) :
  Forall (fun ki => nth_error (pre ++ keys) (snd ki) = Some (fst ki))
         (combine keys (seq (List.length pre) (List.length keys))).
Proof.
  revert pre; induction keys as [|k keys IH]; intros pre; [constructor|].
  cbn [List.length seq combine]. constructor.
  - cbn [fst snd]. rewrite nth_error_app2, Nat.sub_diag by lia. reflexivity.
  - specialize (IH (pre ++ [k])).
    rewrite <- app_assoc, length_app in IH. cbn [List.length app] in IH.
    rewrite Nat.add_1_r in IH. exact IH.
Qed.

Lemma take_idx_lookup (keys : list Z) (l : list (Z * nat)) :
  Forall (fun ki => nth_error keys (snd ki) = Some (fst ki)) l ->
  take_idx keys (map snd l) = map fst l.
Proof.
  induction 1 as [|x l Hx _ IH]; [reflexivity|].
  unfold take_idx in *. cbn [map flat_map]. rewrite Hx, IH. reflexivity.
Qed.

Lemma map_snd_combine_seq (keys : list Z) (start : nat) :
  map snd (combine keys (seq start (List.length keys)))
  = seq start (List.length keys).
Proof.
  revert start; induction keys as [|k keys IH]; intros start; [reflexivity|].
  cbn [List.length seq combine map snd]. rewrite IH. reflexivity.
Qed.

Lemma insertion_argsort_sorts : sorts insertion_argsort.
Proof.
  intros keys. unfold insertion_argsort. split.
  - rewrite insertion_perm. rewrite map_snd_combine_seq. reflexivity.
  - rewrite take_idx_lookup.
    + pose proof (insertion_sorted
                    (combine keys (seq 0 (List.length keys)))) as H.
      induction H as [|x l Hs IH Hx]; cbn [map]; constructor; [assumption|].
      apply Forall_map. exact Hx.
    + eapply Permutation_Forall; [symmetry; apply insertion_perm|].
      apply (combine_seq_lookup keys []).
Qed.

(** *** The user summary *)

Lemma qmin_cases (x y : Q) :
  (qmin x y = x /\ (x <= y)%Q) \/ (qmin x y = y /\ (y <= x)%Q).
Proof.
  unfold qmin, Float.leb. destruct (Qle_bool x y) eqn:E.
  - left. split; [reflexivity|]. apply Qle_bool_iff. assumption.
  - right. split; [reflexivity|].
    apply Qlt_le_weak, Qnot_le_lt. intros H. apply Qle_bool_iff in H. congruence.
Qed.

Lemma fold_qmin_spec (xs : list Q) :
  forall x : Q,
    In (fold_left qmin xs x) (x :: xs) /\
    (forall b, In b (x :: xs) -> (fold_left qmin xs x <= b)%Q).
Proof.
  induction xs as [|y xs IH]; intros x; cbn [fold_left].
  - split; [left; reflexivity|]. intros b [<-|[]]. apply Qle_refl.
  - destruct (IH (qmin x y)) as [Hin Hle]. split.
    + destruct Hin as [Hin|Hin]; [|right; right; assumption].
      destruct (qmin_cases x y) as [[E _]|[E _]]; rewrite E in *;
        [left|right; left]; assumption.
    + intros b Hb.
      assert (Hm : (fold_left qmin xs (qmin x y) <= qmin x y)%Q)
        by (apply Hle; left; reflexivity).
      assert (Hb' : In b xs -> (fold_left qmin xs (qmin x y) <= b)%Q)
        by (intros; apply Hle; right; assumption).
      clear Hin Hle. revert Hm Hb'.
      generalize (fold_left qmin xs (qmin x y)). intros m Hm Hb'.
      destruct Hb as [<-|[<-|Hb]].
      * destruct (qmin_cases x y) as [[E H]|[E H]]; rewrite E in Hm;
          [assumption|eapply Qle_trans; eassumption].
      * destruct (qmin_cases x y) as [[E H]|[E H]]; rewrite E in Hm;
          [eapply Qle_trans; eassumption|assumption].
      * apply Hb'. assumption.
Qed.

(** [series.min()] is a least non-null value, and null when there is none. *)
Lemma series_min_spec (l : list (option Q)) :
  match series_min l with
  | Some m => In (Some m) l /\ forall b, In (Some b) l -> (m <= b)%Q
  | None => forall x, In x l -> x = None
  end.
Proof.
  unfold series_min. destruct (somes l) as [|x xs] eqn:E.
  - intros [b|] Hb; [|reflexivity].
    apply in_somes in Hb. rewrite E in Hb. destruct Hb.
  - destruct (fold_qmin_spec xs x) as [Hin Hle]. rewrite <- E in Hin, Hle.
    split.
    + apply in_somes. assumption.
    + intros b Hb. apply Hle, in_somes. assumption.
Qed.

Lemma py_index_last {A : Type} (x : A) (l : list A) :
  py_index (x :: l) (List.length (x :: l) - 1) = Ok (last (x :: l) x).
Proof.
  unfold py_index.
  destruct (@exists_last _ (x :: l)) as (init & y & E); [discriminate|].
  rewrite E, last_last, length_app. cbn [List.length].
  rewrite nth_error_app2 by lia.
  replace (List.length init + 1 - 1 - List.length init) with 0 by lia.
  reflexivity.
Qed.

(** The fields of a user's row, read off its sorted transactions. *)
Lemma user_stats_fields (fsum : list Q -> Q) (u : string) (df : DataFrame Tx.t)
      (first : Tx.t) (tail : list Tx.t) :
  rows df = first :: tail ->
  has_column df "userBalance" = true ->
  exists row : User.t,
    user_stats fsum u df = Ok row /\
    User.user_id row = u /\
    User.min_balance row = series_min (map Tx.userBalance (rows df)) /\
    User.overdraft_flag row
      = match User.min_balance row with
        | Some m => Float.ltb m 0
        | None => false
        end /\
    User.first_transaction row = Tx.timestamp first /\
    User.last_transaction row = Tx.timestamp (last (rows df) first) /\
    User.current_balance row = Tx.userBalance (last (rows df) first).
Proof.
  intros Hrows Hcol. unfold user_stats, iloc_first, iloc_last.
  rewrite Hcol, Hrows, py_index_last. cbn [py_index nth_error bind].
  eexists. split; [reflexivity|]. cbn. repeat split; reflexivity.
Qed.

Lemma unique_In (x : option string) (l : list (option string)) :
  In x (unique l) <-> In x l.
Proof.
  unfold unique. rewrite <- in_rev, nodup_In, <- in_rev. reflexivity.
Qed.

(** The readings of a row off the sorted transactions of its user. *)
Lemma user_row_cases (argsort : list Z -> list nat) (fsum : list Q -> Q)
      (data : list Tx.t)
      (uid : option string) :
  (user_row argsort fsum (DataFrame_of Tx.keys data) uid = Ok None /\
   match uid with
   | Some u => Spec.sorted_of argsort u data = [] \/ data = []
   | None => True
   end) \/
  exists (u : string) (row : User.t) (first : Tx.t) (tail : list Tx.t),
    uid = Some u /\
    Spec.sorted_of argsort u data = first :: tail /\
    user_row argsort fsum (DataFrame_of Tx.keys data) uid = Ok (Some row) /\
    User.user_id row = u /\
    User.min_balance row
      = series_min (map Tx.userBalance (Spec.sorted_of argsort u data)) /\
    User.overdraft_flag row
      = match User.min_balance row with
        | Some m => Float.ltb m 0
        | None => false
        end /\
    User.first_transaction row = Tx.timestamp first /\
    User.last_transaction row
      = Tx.timestamp (last (Spec.sorted_of argsort u data) first) /\
    User.current_balance row
      = Tx.userBalance (last (Spec.sorted_of argsort u data) first).
Proof.
  destruct uid as [u|]; [|left; split; [reflexivity|exact I]].
  destruct data as [|tx data].
  { left. split; [|right; reflexivity].
    unfold user_row, empty.
    destruct (rows (sort_values argsort
                      (select (user_is u) (DataFrame_of Tx.keys []))));
      reflexivity. }
  unfold user_row. fold (Spec.sorted_of argsort u (tx :: data)).
  set (df := sort_values argsort
               (select (user_is u) (DataFrame_of Tx.keys (tx :: data)))).
  assert (Hrows : rows df = Spec.sorted_of argsort u (tx :: data))
    by reflexivity.
  assert (Hcols : columns df = Tx.keys) by reflexivity.
  destruct (Spec.sorted_of argsort u (tx :: data)) as [|first tail] eqn:E.
  - left. unfold empty. rewrite Hrows. split; [reflexivity|]. left. reflexivity.
  - right.
    destruct (user_stats_fields fsum u df first tail Hrows)
      as (row & Hrow & Hid & Hmin & Hflag & Hfirst & Hlast & Hcur);
      [unfold has_column; rewrite Hcols; reflexivity|].
    exists u, row, first, tail.
    unfold empty. rewrite Hrows, Hcols. cbn [Tx.keys negb].
    rewrite Hrow. rewrite Hrows in *. cbn [bind].
    rewrite ?E.
    repeat (split; [first [reflexivity | assumption]|]). assumption.
Qed.

Lemma user_row_returns (argsort : list Z -> list nat) (fsum : list Q -> Q)
      (data : list Tx.t)
      (uid : option string) :
  returns (user_row argsort fsum (DataFrame_of Tx.keys data) uid).
Proof.
  destruct (user_row_cases argsort fsum data uid)
    as [[H _]|(u & row & first & tail & _ & _ & H & _)];
    rewrite H; eexists; reflexivity.
Qed.

(** The aggregator never raises on a table of the extractor, and its rows
    are the rows of the users of the table. *)
Lemma analyze_user_patterns_rows (argsort : list Z -> list nat)
      (fsum : list Q -> Q)
      (data : list Tx.t) :
  exists user_analysis : DataFrame User.t,
    analyze_user_patterns argsort fsum (DataFrame_of Tx.keys data)
      = Ok user_analysis /\
    forall row : User.t,
      In row (rows user_analysis) <->
      exists uid, In uid (map Tx.userId data) /\
                  user_row argsort fsum (DataFrame_of Tx.keys data) uid
                    = Ok (Some row).
Proof.
  destruct data as [|tx data].
  { eexists. split; [reflexivity|]. intros row. split; [intros []|].
    intros (uid & [] & _). }
  unfold analyze_user_patterns.
  change (negb (empty (DataFrame_of Tx.keys (tx :: data)))) with true.
  cbv iota.
  change (getitem (DataFrame_of Tx.keys (tx :: data)) "userId" Tx.userId)
    with (Ok (map Tx.userId (tx :: data))).
  cbn [bind].
  destruct (mapM_total (user_row argsort fsum (DataFrame_of Tx.keys (tx :: data)))
              (unique (map Tx.userId (tx :: data)))) as [out Hout].
  { intros uid _. apply user_row_returns. }
  rewrite Hout. cbn [bind].
  eexists. split; [reflexivity|].
  intros row.
  assert (Hr : rows (DataFrame_of User.keys (somes out)) = somes out)
    by reflexivity.
  rewrite Hr, in_somes. split.
  - intros Hin. destruct (mapM_ok_in _ _ _ Hout _ Hin) as (uid & Huid & Hrow).
    exists uid. rewrite unique_In in Huid. auto.
  - intros (uid & Huid & Hrow). rewrite <- unique_In in Huid.
    destruct (mapM_in_ok _ _ _ Hout _ Huid) as (y & Hy & Hin).
    rewrite Hrow in Hy. injection Hy as <-. assumption.
Qed.

Lemma sorted_of_perm (argsort : list Z -> list nat) (u : string)
      (data : list Tx.t) :
  sorts argsort ->
  Permutation (Spec.sorted_of argsort u data) (Spec.of_user u data).
Proof.
  intros Hs. unfold Spec.sorted_of.
  rewrite (sort_values_perm argsort Hs). reflexivity.
Qed.

(** Under a sorting [argsort], every row of the summary is the row of a
    user of the table, read off that user's sorted transactions, and every
    user of the table has a row. *)
Lemma analyze_user_patterns_users (argsort : list Z -> list nat)
      (fsum : list Q -> Q)
      (data : list Tx.t) :
  sorts argsort ->
  exists user_analysis : DataFrame User.t,
    analyze_user_patterns argsort fsum (DataFrame_of Tx.keys data)
      = Ok user_analysis /\
    (forall u : string,
        In (Some u) (map Tx.userId data) ->
        exists row, In row (rows user_analysis) /\ User.user_id row = u) /\
    (forall row : User.t,
        In row (rows user_analysis) ->
        exists first : Tx.t,
          hd_error (Spec.sorted_of argsort (User.user_id row) data)
            = Some first /\
          User.min_balance row
            = series_min (map Tx.userBalance
                            (Spec.sorted_of argsort (User.user_id row) data)) /\
          User.overdraft_flag row
            = match User.min_balance row with
              | Some m => Float.ltb m 0
              | None => false
              end /\
          User.first_transaction row = Tx.timestamp first /\
          User.last_transaction row
            = Tx.timestamp
                (last (Spec.sorted_of argsort (User.user_id row) data) first) /\
          User.current_balance row
            = Tx.userBalance
                (last (Spec.sorted_of argsort (User.user_id row) data) first)).
Proof.
  intros Hs.
  destruct (analyze_user_patterns_rows argsort fsum data) as (ua & Hua & Hrows).
  exists ua. split; [assumption|]. split.
  - intros u Hu.
    destruct (user_row_cases argsort fsum data (Some u))
      as [[_ [Hnil|Hnil]]|(u' & row & first & tail & [= <-] & _ & Hrow & Hid & _)].
    + exfalso. apply in_map_iff in Hu as (tx & Htx & Hin).
      assert (Hin' : In tx (Spec.of_user u data)).
      { apply filter_In. split; [assumption|].
        unfold user_is. rewrite Htx. apply String.eqb_refl. }
      apply (Permutation_in _ (Permutation_sym (sorted_of_perm argsort u data Hs)))
        in Hin'.
      rewrite Hnil in Hin'. destruct Hin'.
    + subst data. destruct Hu.
    + exists row. split; [|assumption]. apply Hrows. eauto.
  - intros row Hin. apply Hrows in Hin as (uid & _ & Hrow).
    destruct (user_row_cases argsort fsum data uid)
      as [[Hnone _]|(u & row' & first & tail & -> & Hsorted & Hrow' & Hid & H)].
    + rewrite Hnone in Hrow. discriminate.
    + rewrite Hrow' in Hrow. injection Hrow as ->. subst u.
      exists first. rewrite Hsorted in *. split; [reflexivity|]. exact H.
Qed.

(** C6. On a table of the extractor and under a sorting [argsort], the
    aggregator returns a summary in which the overdraft flag of every row
    is true if and only if the row's [min_balance] is a number below 0;
    [min_balance] is the least non-null balance among the user's
    transactions, and null when they have none. *)
Theorem overdraft_flag_iff_negative_min_balance :
  forall (argsort : list Z -> list nat) (fsum : list Q -> Q) (data : list Tx.t),
    sorts argsort ->
    exists user_analysis : DataFrame User.t,
      analyze_user_patterns argsort fsum (DataFrame_of Tx.keys data)
        = Ok user_analysis /\
      forall row : User.t,
        In row (rows user_analysis) ->
        (User.overdraft_flag row = true <->
         exists m, User.min_balance row = Some m /\ (m < 0)%Q) /\
        match User.min_balance row with
        | Some m => Spec.least_balance m (Spec.of_user (User.user_id row) data)
        | None => forall tx, In tx (Spec.of_user (User.user_id row) data) ->
                             Tx.userBalance tx = None
        end.
Proof.
  intros argsort fsum data Hs.
  destruct (analyze_user_patterns_users argsort fsum data Hs)
    as (ua & Hua & _ & Hrows).
  exists ua. split; [assumption|].
  intros row Hin.
  destruct (Hrows row Hin) as (first & _ & Hmin & Hflag & _).
  pose proof (sorted_of_perm argsort (User.user_id row) data Hs) as Hperm.
  pose proof (series_min_spec
                (map Tx.userBalance
                   (Spec.sorted_of argsort (User.user_id row) data))) as Hspec.
  rewrite <- Hmin in Hspec. split.
  - rewrite Hflag. destruct (User.min_balance row) as [m|].
    + rewrite ltb_lt. split; [eauto|]. intros (m' & [= <-] & H). assumption.
    + split; [discriminate|]. intros (m & ? & _). discriminate.
  - destruct (User.min_balance row) as [m|].
    + destruct Hspec as [Hm Hle]. split.
      * apply in_map_iff in Hm as (tx & Hb & Htx).
        exists tx. split; [|assumption].
        apply (Permutation_in _ Hperm). assumption.
      * intros tx b Htx Hb. apply Hle. rewrite <- Hb.
        apply in_map, (Permutation_in _ (Permutation_sym Hperm)). assumption.
    + intros tx Htx. apply Hspec.
      apply in_map, (Permutation_in _ (Permutation_sym Hperm)). assumption.
Qed.

(** C6, on two transactions of one user with balances 3 and -5. *)
Lemma overdraft_flag_iff_negative_min_balance_witness :
  sorts insertion_argsort /\
  exists user_analysis : DataFrame User.t,
    analyze_user_patterns insertion_argsort sequential_sum
      (DataFrame_of Tx.keys Sample.mixed)
      = Ok user_analysis /\
    forall row : User.t,
      In row (rows user_analysis) ->
      (User.overdraft_flag row = true <->
       exists m, User.min_balance row = Some m /\ (m < 0)%Q) /\
      match User.min_balance row with
      | Some m =>
          Spec.least_balance m (Spec.of_user (User.user_id row) Sample.mixed)
      | None =>
          forall tx, In tx (Spec.of_user (User.user_id row) Sample.mixed) ->
                     Tx.userBalance tx = None
      end.
Proof.
  split; [exact insertion_argsort_sorts|].
  exact (overdraft_flag_iff_negative_min_balance
           insertion_argsort sequential_sum Sample.mixed
           insertion_argsort_sorts).
Defined.

Example overdraft_flag_sample :
  match analyze_user_patterns insertion_argsort sequential_sum
          (DataFrame_of Tx.keys Sample.mixed) with
  | Ok user_analysis =>
      map (fun r => (User.user_id r, User.min_balance r, User.overdraft_flag r))
          (rows user_analysis)
  | Raise _ => []
  end = [("u1"%string, Some (-5 # 1)%Q, true)].
Proof. reflexivity. Qed.

(** C3 (as amended). For every user with at least one transaction, the
    aggregator sorts that user's transactions by datetime, rising, with
    the records whose datetime is undefined after all the records that
    have one and in the order they had in the table; first_transaction,
    last_transaction and current_balance are taken from the first and the
    last record of this order. *)
Theorem user_transactions_sorted_nulls_last :
  forall (argsort : list Z -> list nat) (fsum : list Q -> Q) (data : list Tx.t),
    sorts argsort ->
    exists user_analysis : DataFrame User.t,
      analyze_user_patterns argsort fsum (DataFrame_of Tx.keys data)
        = Ok user_analysis /\
      (forall u : string,
          In (Some u) (map Tx.userId data) ->
          exists row, In row (rows user_analysis) /\ User.user_id row = u) /\
      forall row : User.t,
        In row (rows user_analysis) ->
        Permutation (Spec.sorted_of argsort (User.user_id row) data)
                    (Spec.of_user (User.user_id row) data) /\
        StronglySorted Spec.before
          (Spec.sorted_of argsort (User.user_id row) data) /\
        filter Spec.undated (Spec.sorted_of argsort (User.user_id row) data)
          = filter Spec.undated (Spec.of_user (User.user_id row) data) /\
        exists first : Tx.t,
          hd_error (Spec.sorted_of argsort (User.user_id row) data)
            = Some first /\
          User.first_transaction row = Tx.timestamp first /\
          User.last_transaction row
            = Tx.timestamp
                (last (Spec.sorted_of argsort (User.user_id row) data) first) /\
          User.current_balance row
            = Tx.userBalance
                (last (Spec.sorted_of argsort (User.user_id row) data) first).
Proof.
  intros argsort fsum data Hs.
  destruct (analyze_user_patterns_users argsort fsum data Hs)
    as (ua & Hua & Husers & Hrows).
  exists ua. split; [assumption|]. split; [assumption|].
  intros row Hin.
  destruct (Hrows row Hin) as (first & Hhd & _ & _ & Hfirst & Hlast & Hcur).
  split; [apply sorted_of_perm; assumption|].
  split; [apply sort_values_sorted; assumption|].
  split; [apply (sort_values_undated argsort)|].
  exists first. auto.
Qed.

(** C3, on the same two transactions. *)
Lemma user_transactions_sorted_nulls_last_witness :
  sorts insertion_argsort /\
  exists user_analysis : DataFrame User.t,
    analyze_user_patterns insertion_argsort sequential_sum
      (DataFrame_of Tx.keys Sample.mixed)
      = Ok user_analysis /\
    (forall u : string,
        In (Some u) (map Tx.userId Sample.mixed) ->
        exists row, In row (rows user_analysis) /\ User.user_id row = u) /\
    forall row : User.t,
      In row (rows user_analysis) ->
      Permutation (Spec.sorted_of insertion_argsort (User.user_id row) Sample.mixed)
                  (Spec.of_user (User.user_id row) Sample.mixed) /\
      StronglySorted Spec.before
        (Spec.sorted_of insertion_argsort (User.user_id row) Sample.mixed) /\
      filter Spec.undated
        (Spec.sorted_of insertion_argsort (User.user_id row) Sample.mixed)
        = filter Spec.undated (Spec.of_user (User.user_id row) Sample.mixed) /\
      exists first : Tx.t,
        hd_error (Spec.sorted_of insertion_argsort (User.user_id row) Sample.mixed)
          = Some first /\
        User.first_transaction row = Tx.timestamp first /\
        User.last_transaction row
          = Tx.timestamp
              (last (Spec.sorted_of insertion_argsort (User.user_id row)
                       Sample.mixed) first) /\
        User.current_balance row
          = Tx.userBalance
              (last (Spec.sorted_of insertion_argsort (User.user_id row)
                       Sample.mixed) first).
Proof.
  split; [exact insertion_argsort_sorts|].
  exact (user_transactions_sorted_nulls_last
           insertion_argsort sequential_sum Sample.mixed
           insertion_argsort_sorts).
Defined.

(** C3, the claim as stated fails: of a user's two transactions, the one
    without a datetime stands first in the table and is sorted last, so
    the order is not the one with undefined datetimes first, and
    last_transaction and current_balance come from the undated record. *)
Lemma undated_transaction_sorts_last :
  Tx.datetime Sample.undated_tx = None /\
  Tx.datetime Sample.dated_tx = Some 1704103200123000000%Z /\
  Spec.sorted_of insertion_argsort "u1" Sample.mixed
    = [Sample.dated_tx; Sample.undated_tx] /\
  ~ StronglySorted Spec.nulls_first
      (Spec.sorted_of insertion_argsort "u1" Sample.mixed) /\
  match analyze_user_patterns insertion_argsort sequential_sum
          (DataFrame_of Tx.keys Sample.mixed) with
  | Ok user_analysis =>
      map (fun r => (User.user_id r, User.first_transaction r,
                     User.last_transaction r, User.current_balance r))
          (rows user_analysis)
  | Raise _ => []
  end = [("u1"%string, Tx.timestamp Sample.dated_tx,
          Tx.timestamp Sample.undated_tx, Tx.userBalance Sample.undated_tx)].
Proof.
  split; [reflexivity|]. split; [reflexivity|]. split; [reflexivity|].
  split; [|reflexivity].
  change (Spec.sorted_of insertion_argsort "u1" Sample.mixed)
    with [Sample.dated_tx; Sample.undated_tx].
  intros H. apply StronglySorted_inv in H as [_ H].
  apply Forall_inv in H. exact H.
Qed.

(** *** The aggregates of the transaction table *)

Lemma filter_disjoint_length {A : Type} (p q : A -> bool) (l : list A) :
  (forall x, p x && q x = false) ->
  List.length (filter p l) + List.length (filter q l) <= List.length l.
Proof.
  intros Hpq. induction l as [|x l IH]; cbn [filter List.length]; [lia|].
  specialize (Hpq x).
  destruct (p x), (q x); cbn [List.length]; try discriminate; lia.
Qed.

Lemma credit_debit_disjoint (tx : Tx.t) :
  type_is "CREDIT" tx && type_is "DEBIT" tx = false.
Proof.
  unfold type_is. destruct (Tx.type tx) as [ty|]; [|reflexivity].
  destruct (String.eqb_spec ty "CREDIT") as [->|]; reflexivity.
Qed.

(** The statistics of the extractor, whichever branch computed them. *)
Lemma extract_transactions_stats (fsum : list Q -> Q)
      (parsed_logs : DataFrame CLog.t)
      (transactions : DataFrame Tx.t) (stats : transaction_stats) :
  extract_transactions fsum parsed_logs = Ok (transactions, stats) ->
  exists data : list Tx.t,
    transactions = DataFrame_of Tx.keys data /\
    total_count stats = List.length data /\
    credit_count stats = List.length (filter (type_is "CREDIT") data) /\
    debit_count stats = List.length (filter (type_is "DEBIT") data) /\
    (data = [] -> stats = no_transaction_stats).
Proof.
  unfold extract_transactions. intros H.
  apply bind_ok in H as (cats & _ & H).
  apply bind_ok in H as (candidates & _ & H).
  exists (filter retained candidates).
  rewrite empty_DataFrame_of in H by discriminate.
  destruct (filter retained candidates) as [|tx data] eqn:E;
    cbn [negb] in H; injection H as <- <-.
  - repeat (split; [reflexivity|]). reflexivity.
  - repeat (split; [reflexivity|]). discriminate.
Qed.

(** X1. Credits and debits together never outnumber the transactions. *)
Theorem credit_debit_count_bounded :
  forall (fsum : list Q -> Q) (parsed_logs : DataFrame CLog.t)
         (transactions : DataFrame Tx.t) (stats : transaction_stats),
    extract_transactions fsum parsed_logs = Ok (transactions, stats) ->
    total_count stats = List.length (rows transactions) /\
    credit_count stats + debit_count stats <= total_count stats.
Proof.
  intros fsum parsed_logs transactions stats H.
  apply extract_transactions_stats in H as (data & -> & Ht & Hc & Hd & _).
  rewrite Ht, Hc, Hd. split; [reflexivity|].
  apply filter_disjoint_length, credit_debit_disjoint.
Qed.

Lemma credit_debit_count_bounded_witness :
  extract_transactions sequential_sum Sample.logs
    = Ok (DataFrame_of Tx.keys (filter retained Sample.candidates),
          TransactionStats 1 1 0 (50 # 1) 0 1 1) /\
  1 = List.length (rows (DataFrame_of Tx.keys
                           (filter retained Sample.candidates))) /\
  1 + 0 <= 1.
Proof.
  split; [reflexivity|].
  exact (credit_debit_count_bounded sequential_sum Sample.logs _ _ eq_refl).
Defined.

(** X2. When no candidate is retained the table is empty, every aggregate of
    the extractor and of the detector is zero, and the summary of the
    users is empty; nothing raises. *)
Theorem empty_transaction_table_degrades :
  forall (argsort : list Z -> list nat) (fsum : list Q -> Q)
         (parsed_logs : DataFrame CLog.t)
         (transactions : DataFrame Tx.t) (stats : transaction_stats),
    extract_transactions fsum parsed_logs = Ok (transactions, stats) ->
    rows transactions = [] ->
    stats = TransactionStats 0 0 0 0 0 0 0 /\
    detect_overdrafts transactions
      = (DataFrame_of Tx.keys [], OverdraftStats 0 0 0) /\
    analyze_user_patterns argsort fsum transactions
      = Ok (DataFrame_of User.keys []).
Proof.
  intros argsort fsum parsed_logs transactions stats H Hrows.
  apply extract_transactions_stats in H as (data & -> & _ & _ & _ & Hz).
  cbn [rows DataFrame_of] in Hrows. subst data.
  split; [apply Hz; reflexivity|]. split; reflexivity.
Qed.

Lemma empty_transaction_table_degrades_witness :
  extract_transactions sequential_sum Sample.no_id_logs
    = Ok (DataFrame_of Tx.keys [], TransactionStats 0 0 0 0 0 0 0) /\
  TransactionStats 0 0 0 0 0 0 0 = TransactionStats 0 0 0 0 0 0 0 /\
  detect_overdrafts (DataFrame_of Tx.keys [])
    = (DataFrame_of Tx.keys [], OverdraftStats 0 0 0) /\
  analyze_user_patterns insertion_argsort sequential_sum (DataFrame_of Tx.keys [])
    = Ok (DataFrame_of User.keys []).
Proof.
  split; [reflexivity|].
  exact (empty_transaction_table_degrades insertion_argsort sequential_sum
           Sample.no_id_logs _ _ eq_refl eq_refl).
Defined.

(** *** The scenarios of the specification *)

(** The credit of 50 that leaves user u1 at -5: the line is a transaction,
    its transaction is in the table and among the overdrafts, and the row
    of u1 has the overdraft flag, 50 of credits and no debit. *)
Theorem scenario_overdraft_line :
  match run_complete_analysis (cellwise iso_to_datetime)
          insertion_argsort sequential_sum [Sample.good_line] with
  | Ok a =>
      Some (category_stats a,
            total_count (tx_stats a),
            option_map (fun d => map Tx.id (rows d))
                       (transactions_csv (exported a)),
            option_map (fun d => map Tx.id (rows d))
                       (overdrafts_csv (exported a)),
            option_map
              (fun d => map (fun r => (User.user_id r, User.overdraft_flag r,
                                       User.total_credits r,
                                       User.total_debits r))
                            (rows d))
              (user_analysis_csv (exported a)))
  | Raise _ => None
  end
  = Some ([(Category.transaction, 1)], 1,
          Some [Some "tx1"%string], Some [Some "tx1"%string],
          Some [("u1"%string, true, (50 # 1)%Q, 0%Q)]).
Proof. vm_compute. reflexivity. Qed.

(** A transaction message without an id: the record is counted in its
    category, and it is in no table and adds nothing to the count. *)
Theorem scenario_missing_id :
  match run_complete_analysis (cellwise iso_to_datetime)
          insertion_argsort sequential_sum [Sample.no_id_line] with
  | Ok a =>
      Some (category_stats a, total_count (tx_stats a),
            transactions_csv (exported a), user_analysis_csv (exported a),
            overdrafts_csv (exported a))
  | Raise _ => None
  end
  = Some ([(Category.transaction, 1)], 0, None, None, None).
Proof. reflexivity. Qed.

(** *** The format of a line *)

Lemma split_segments_tab_free (sep : ascii) (s : string) :
  Forall (fun seg => Spec.mentions sep seg = false) (split sep s).
Proof.
  induction s as [|c s IH]; cbn [split].
  - constructor; [reflexivity|constructor].
  - destruct (Ascii.eqb c sep) eqn:E.
    + constructor; [reflexivity|assumption].
    + destruct (split sep s) as [|seg segs]; inversion IH; subst.
      * constructor; [cbn; rewrite E; reflexivity|constructor].
      * constructor; [cbn; rewrite E; assumption|assumption].
Qed.

Lemma split_not_nil (sep : ascii) (s : string) : split sep s <> [].
Proof.
  destruct s as [|c s]; cbn [split]; [discriminate|].
  destruct (Ascii.eqb c sep); [discriminate|].
  destruct (split sep s); discriminate.
Qed.

Lemma split_append (sep : ascii) (a rest : string) :
  Spec.mentions sep a = false ->
  split sep (a ++ String sep rest)%string = a :: split sep rest.
Proof.
  induction a as [|c a IH]; cbn [append split Spec.mentions]; intros H.
  - rewrite Ascii.eqb_refl. reflexivity.
  - apply orb_false_iff in H as [Hc Ha]. rewrite Hc, (IH Ha). reflexivity.
Qed.

Lemma split_whole (sep : ascii) (a : string) :
  Spec.mentions sep a = false -> split sep a = [a].
Proof.
  induction a as [|c a IH]; cbn [split Spec.mentions]; intros H; [reflexivity|].
  apply orb_false_iff in H as [Hc Ha]. rewrite Hc, (IH Ha). reflexivity.
Qed.

Lemma nth_error_tab_free (s : string) (i : nat) :
  Spec.tab_free (nth_error (split tab s) i).
Proof.
  destruct (nth_error (split tab s) i) as [seg|] eqn:E; [|exact I].
  apply nth_error_In in E.
  pose proof (split_segments_tab_free tab s) as H.
  rewrite Forall_forall in H. apply H. assumption.
Qed.

Lemma mentions_append (c : ascii) (a b : string) :
  Spec.mentions c (a ++ b)%string = Spec.mentions c a || Spec.mentions c b.
Proof.
  induction a as [|x a IH]; cbn [append Spec.mentions]; [reflexivity|].
  rewrite IH, orb_assoc. reflexivity.
Qed.

Lemma digits_tab_free (x : string) :
  Forall (fun c => is_digit c = true) (list_ascii_of_string x) ->
  Spec.mentions tab x = false.
Proof.
  induction x as [|c x IH]; cbn [Spec.mentions list_ascii_of_string];
    intros H; [reflexivity|].
  inversion H as [|? ? Hc Hx]; subst. rewrite (IH Hx), orb_false_r.
  destruct (Ascii.eqb_spec c tab) as [->|]; [discriminate Hc|reflexivity].
Qed.

Lemma timestamp_shape_tab_free (ts : string) :
  Spec.timestamp_shape ts -> Spec.mentions tab ts = false.
Proof.
  intros (Y & M & D & h & m & sec & f
          & [_ HY] & [_ HM] & [_ HD] & [_ Hh] & [_ Hm] & [_ Hs] & _ & Hf & ->).
  repeat rewrite mentions_append.
  rewrite (digits_tab_free Y HY), (digits_tab_free M HM),
    (digits_tab_free D HD), (digits_tab_free h Hh), (digits_tab_free m Hm),
    (digits_tab_free sec Hs), (digits_tab_free f Hf).
  reflexivity.
Qed.

(** X4. No field of a parsed record holds a tab: the line is cut at every
    tab, and what follows the fourth segment is dropped. *)
Theorem parsed_fields_tab_free :
  forall s : string,
  exists r : Rec.t,
    parse_log_data (Some s) = Ok (Some r) /\
    Spec.tab_free (Rec.timestamp r) /\
    Spec.tab_free (Rec.session_id r) /\
    Spec.tab_free (Rec.message_type r) /\
    Spec.tab_free (Rec.message r) /\
    (List.length (split tab (strip s)) <= 3 -> Rec.message r = None) /\
    (List.length (split tab (strip s)) <= 1 ->
     Rec.session_id r = None /\ Rec.message_type r = None).
Proof.
  intros s. exists (Spec.record_of s).
  split; [apply parse_log_data_record|].
  unfold Spec.record_of. cbn [Rec.timestamp Rec.session_id Rec.message_type
                                Rec.message].
  split.
  { destruct (Re.match_ timestamp_pattern (strip s)) as [ts|] eqn:E; [|exact I].
    apply timestamp_match_shape in E as [Hshape _].
    apply timestamp_shape_tab_free. assumption. }
  repeat (split; [apply nth_error_tab_free|]).
  split.
  - intros H. apply nth_error_None. lia.
  - intros H. split; apply nth_error_None; lia.
Qed.

Lemma digit_not_space (c : ascii) : is_digit c = true -> is_space c = false.
Proof.
  destruct c as [[] [] [] [] [] [] [] []]; cbv; intros H;
    first [reflexivity | discriminate H].
Qed.

Lemma append_inv_length (x y r r' : string) :
  String.length x = String.length y ->
  (x ++ r)%string = (y ++ r')%string -> x = y /\ r = r'.
Proof.
  revert y; induction x as [|c x IH]; intros [|d y] Hlen H;
    cbn in Hlen; try discriminate.
  - cbn in H. auto.
  - cbn [append] in H. injection H as -> H. injection Hlen as Hlen.
    destruct (IH y Hlen H) as [-> ->]. auto.
Qed.

Lemma digit_run_unique (f g r r' : string) (c : ascii) :
  Forall (fun x => is_digit x = true) (list_ascii_of_string f) ->
  Forall (fun x => is_digit x = true) (list_ascii_of_string g) ->
  is_digit c = false ->
  (f ++ String c r)%string = (g ++ String c r')%string -> f = g.
Proof.
  intros Hf. revert g. induction f as [|x f IH]; intros [|y g] Hg Hc H;
    cbn [append] in H.
  - reflexivity.
  - injection H as -> _. cbn in Hg. inversion Hg; subst. congruence.
  - injection H as -> _. cbn in Hf. inversion Hf; subst. congruence.
  - injection H as -> H. cbn in Hf, Hg. inversion Hf; inversion Hg; subst.
    f_equal. eapply IH; eassumption.
Qed.

(** Two timestamps at the head of one text are the same timestamp. *)
Lemma timestamp_shape_unique (a b ra rb : string) :
  Spec.timestamp_shape a -> Spec.timestamp_shape b ->
  (a ++ ra)%string = (b ++ rb)%string -> a = b.
Proof.
  intros (Y & M & D & h & m & sec & f
          & [LY _] & [LM _] & [LD _] & [Lh _] & [Lm _] & [Ls _] & _ & Hf & ->)
         (Y' & M' & D' & h' & m' & sec' & f'
          & [LY' _] & [LM' _] & [LD' _] & [Lh' _] & [Lm' _] & [Ls' _] & _ & Hf'
          & ->) H.
  repeat rewrite append_assoc in H. cbn [append] in H.
  apply append_inv_length in H as [-> H]; [|congruence]. injection H as H.
  apply append_inv_length in H as [-> H]; [|congruence]. injection H as H.
  apply append_inv_length in H as [-> H]; [|congruence]. injection H as H.
  apply append_inv_length in H as [-> H]; [|congruence]. injection H as H.
  apply append_inv_length in H as [-> H]; [|congruence]. injection H as H.
  apply append_inv_length in H as [-> H]; [|congruence]. injection H as H.
  apply digit_run_unique in H; [|assumption|assumption|reflexivity].
  subst. reflexivity.
Qed.

(** The capture of the anchored pattern on a text that begins with a
    timestamp is that timestamp. *)
Lemma timestamp_match_head (ts rest : string) :
  Spec.timestamp_shape ts ->
  Re.match_ timestamp_pattern (ts ++ rest)%string = Some ts.
Proof.
  intros Hts.
  destruct (Re.match_ timestamp_pattern (ts ++ rest)%string) as [ts'|] eqn:E.
  - apply timestamp_match_shape in E as [Hts' [rest' E]].
    f_equal. symmetry. eapply timestamp_shape_unique; eassumption.
  - exfalso. eapply timestamp_no_match; [exact E|exact Hts|reflexivity].
Qed.

Lemma rstrip_append (a b : string) :
  b <> EmptyString -> rstrip b = b -> rstrip (a ++ b)%string = (a ++ b)%string.
Proof.
  intros Hne Hb. induction a as [|c a IH]; cbn [append]; [assumption|].
  cbn [rstrip]. rewrite IH.
  destruct (a ++ b)%string eqn:E; [|reflexivity].
  destruct a; cbn in E; [contradiction|discriminate].
Qed.

Lemma timestamp_shape_head (ts : string) :
  Spec.timestamp_shape ts ->
  exists c rest, ts = String c rest /\ is_space c = false.
Proof.
  intros (Y & M & D & h & m & sec & f & [LY HY] & _ & _ & _ & _ & _ & _ & _ & ->).
  destruct Y as [|c Y]; [discriminate|].
  cbn in HY. inversion HY; subst.
  exists c. eexists. split; [reflexivity|]. apply digit_not_space. assumption.
Qed.

(** X5. Writing then parsing: a line made of a timestamp and three fields
    without tabs, the last one not empty and without a blank at its end,
    is parsed back into these four fields. *)
Theorem parse_log_data_line_of :
  forall ts sid ty msg : string,
    Spec.timestamp_shape ts ->
    Spec.mentions tab sid = false ->
    Spec.mentions tab ty = false ->
    Spec.mentions tab msg = false ->
    msg <> EmptyString ->
    rstrip msg = msg ->
    parse_log_data (Some (Spec.line_of ts sid ty msg))
    = Ok (Some (Rec.Make (Some ts) (Some sid) (Some ty) (Some msg))).
Proof.
  intros ts sid ty msg Hts Hsid Hty Hmsg Hne Hr.
  rewrite parse_log_data_record. unfold Spec.record_of.
  assert (Hstrip : strip (Spec.line_of ts sid ty msg)
                   = Spec.line_of ts sid ty msg).
  { unfold strip, Spec.line_of.
    destruct (timestamp_shape_head ts Hts) as (c & rest & -> & Hc).
    cbn [append lstrip]. rewrite Hc.
    change (String c (rest ++ String tab (sid ++ String tab
                                            (ty ++ String tab msg))))%string
      with (String c rest ++ String tab (sid ++ String tab
                                           (ty ++ String tab msg)))%string.
    replace (String c rest ++ String tab (sid ++ String tab
                                            (ty ++ String tab msg)))%string
      with ((String c rest ++ String tab (sid ++ String tab
                                            (ty ++ String tab EmptyString)))
              ++ msg)%string.
    - apply rstrip_append; assumption.
    - repeat (rewrite append_assoc; cbn [append]). reflexivity. }
  rewrite Hstrip. unfold Spec.line_of at 1.
  rewrite (timestamp_match_head ts _ Hts).
  unfold Spec.line_of.
  rewrite (split_append tab ts _ (timestamp_shape_tab_free ts Hts)).
  rewrite (split_append tab sid _ Hsid), (split_append tab ty _ Hty).
  rewrite (split_whole tab msg Hmsg). reflexivity.
Qed.

Lemma sample_timestamp_shape :
  Spec.timestamp_shape "2024-01-01T10:00:00.123Z".
Proof.
  exists "2024"%string, "01"%string, "01"%string, "10"%string, "00"%string,
         "00"%string, "123"%string.
  repeat (split; [first [reflexivity | discriminate
                        | repeat constructor]|]).
  reflexivity.
Qed.

Lemma parse_log_data_line_of_witness :
  parse_log_data
    (Some (Spec.line_of "2024-01-01T10:00:00.123Z" "sess-1" "INFO"
                        Sample.full_message))
  = Ok (Some (Rec.Make (Some "2024-01-01T10:00:00.123Z"%string)
                       (Some "sess-1"%string) (Some "INFO"%string)
                       (Some Sample.full_message))).
Proof.
  apply (parse_log_data_line_of "2024-01-01T10:00:00.123Z" "sess-1" "INFO"
           Sample.full_message sample_timestamp_shape);
    first [reflexivity | discriminate].
Defined.

Lemma rstrip_blank_end (a : string) (c : ascii) :
  is_space c = true -> rstrip (a ++ String c EmptyString)%string = rstrip a.
Proof.
  intros Hc. induction a as [|x a IH]; cbn [append rstrip].
  - rewrite Hc. reflexivity.
  - rewrite IH. reflexivity.
Qed.

(** X6. A line whose message is empty ends with a tab, the strip removes it,
    and the record has a null message, not an empty one. *)
Theorem parse_log_data_empty_message :
  forall ts sid ty : string,
    Spec.timestamp_shape ts ->
    Spec.mentions tab sid = false ->
    Spec.mentions tab ty = false ->
    ty <> EmptyString ->
    rstrip ty = ty ->
    parse_log_data (Some (Spec.line_of ts sid ty EmptyString))
    = Ok (Some (Rec.Make (Some ts) (Some sid) (Some ty) None)).
Proof.
  intros ts sid ty Hts Hsid Hty Hne Hr.
  rewrite parse_log_data_record. unfold Spec.record_of.
  assert (Hstrip : strip (Spec.line_of ts sid ty EmptyString)
                   = (ts ++ String tab (sid ++ String tab ty))%string).
  { unfold strip, Spec.line_of.
    destruct (timestamp_shape_head ts Hts) as (c & rest & -> & Hc).
    cbn [append lstrip]. rewrite Hc.
    change (String c (rest ++ String tab
                        (sid ++ String tab (ty ++ String tab EmptyString))))%string
      with (String c rest ++ String tab
              (sid ++ String tab (ty ++ String tab EmptyString)))%string.
    replace (String c rest ++ String tab
               (sid ++ String tab (ty ++ String tab EmptyString)))%string
      with ((String c rest ++ String tab (sid ++ String tab ty))
              ++ String tab EmptyString)%string
      by (repeat (rewrite append_assoc; cbn [append]); reflexivity).
    rewrite rstrip_blank_end by reflexivity.
    replace (String c rest ++ String tab (sid ++ String tab ty))%string
      with ((String c rest ++ String tab (sid ++ String tab EmptyString))
              ++ ty)%string
      by (repeat (rewrite append_assoc; cbn [append]); reflexivity).
    rewrite rstrip_append by assumption.
    repeat (rewrite append_assoc; cbn [append]). reflexivity. }
  rewrite Hstrip.
  rewrite (timestamp_match_head ts _ Hts).
  rewrite (split_append tab ts _ (timestamp_shape_tab_free ts Hts)).
  rewrite (split_append tab sid _ Hsid), (split_whole tab ty Hty). reflexivity.
Qed.

Lemma parse_log_data_empty_message_witness :
  parse_log_data
    (Some (Spec.line_of "2024-01-01T10:00:00.123Z" "sess-1" "INFO"
                        EmptyString))
  = Ok (Some (Rec.Make (Some "2024-01-01T10:00:00.123Z"%string)
                       (Some "sess-1"%string) (Some "INFO"%string) None)).
Proof.
  apply (parse_log_data_empty_message "2024-01-01T10:00:00.123Z" "sess-1"
           "INFO" sample_timestamp_shape);
    first [reflexivity | discriminate].
Defined.

(** *** The lines that are loaded *)

Lemma prefix_empty_l (s : string) : prefix EmptyString s = true.
Proof. destruct s; reflexivity. Qed.

Lemma prefix_cons (a b : ascii) (n s : string) :
  prefix (String a n) (String b s)
  = if Ascii.eqb a b then prefix n s else false.
Proof.
  cbn [prefix]. destruct (ascii_dec a b) as [->|Hne].
  - rewrite Ascii.eqb_refl. reflexivity.
  - destruct (Ascii.eqb_spec a b); [contradiction|reflexivity].
Qed.

Lemma prefix_blank (n s : string) (c : ascii) :
  Spec.solid n -> is_space c = true ->
  prefix n (String c s) = prefix n EmptyString.
Proof.
  intros Hn Hc. destruct n as [|a n]; [reflexivity|].
  rewrite prefix_cons. cbn in Hn. inversion Hn as [|? ? Ha _]; subst.
  destruct (Ascii.eqb_spec a c) as [->|]; [congruence|reflexivity].
Qed.

Lemma contains_lstrip (n s : string) :
  Spec.solid n -> contains n (lstrip s) = contains n s.
Proof.
  intros Hn. induction s as [|c s IH]; [reflexivity|].
  cbn [lstrip]. destruct (is_space c) eqn:Hc; [|reflexivity].
  rewrite IH. cbn [contains]. rewrite (prefix_blank n s c Hn Hc).
  destruct n as [|a n]; [|reflexivity].
  destruct s; reflexivity.
Qed.

Lemma solid_tail (a : ascii) (n : string) :
  Spec.solid (String a n) -> is_space a = false /\ Spec.solid n.
Proof. intros H. inversion H; subst. auto. Qed.

Lemma prefix_rstrip (s : string) :
  forall n : string, Spec.solid n -> prefix n (rstrip s) = prefix n s.
Proof.
  induction s as [|c s IH]; intros n Hn; [reflexivity|].
  destruct n as [|a n]; [rewrite !prefix_empty_l; reflexivity|].
  apply solid_tail in Hn as [Ha Hn].
  cbn [rstrip]. specialize (IH n Hn).
  destruct (rstrip s) as [|d r] eqn:E.
  - destruct (is_space c) eqn:Hc.
    + rewrite prefix_cons.
      destruct (Ascii.eqb_spec a c) as [->|]; [congruence|reflexivity].
    + rewrite !prefix_cons. rewrite IH. reflexivity.
  - rewrite !prefix_cons, IH. reflexivity.
Qed.

Lemma contains_rstrip (n s : string) :
  Spec.solid n -> contains n (rstrip s) = contains n s.
Proof.
  intros Hn. induction s as [|c s IH]; [reflexivity|].
  pose proof (prefix_rstrip (String c s) n Hn) as HP.
  cbn [rstrip] in *. cbn [contains]. rewrite <- IH, <- HP.
  destruct (rstrip s) as [|d r] eqn:E.
  - destruct (is_space c); cbn [contains];
      destruct (prefix n EmptyString); reflexivity.
  - reflexivity.
Qed.

Lemma contains_strip (n s : string) :
  Spec.solid n -> contains n (strip s) = contains n s.
Proof.
  intros Hn. unfold strip. rewrite contains_rstrip, contains_lstrip; auto.
Qed.

Lemma rstrip_idempotent (s : string) : rstrip (rstrip s) = rstrip s.
Proof.
  induction s as [|c s IH]; [reflexivity|].
  cbn [rstrip]. destruct (rstrip s) as [|d r] eqn:E.
  - destruct (is_space c) eqn:Hc; [reflexivity|].
    cbn [rstrip]. rewrite Hc. reflexivity.
  - cbn [rstrip] in *. rewrite IH. reflexivity.
Qed.

Lemma lstrip_fixed (s : string) :
  match s with
  | EmptyString => True
  | String c _ => is_space c = false
  end -> lstrip s = s.
Proof.
  destruct s as [|c s]; [reflexivity|]. cbn [lstrip]. intros ->. reflexivity.
Qed.

Lemma lstrip_head (s : string) :
  match lstrip s with
  | EmptyString => True
  | String c _ => is_space c = false
  end.
Proof.
  induction s as [|c s IH]; [exact I|].
  cbn [lstrip]. destruct (is_space c) eqn:Hc; [assumption|assumption].
Qed.

Lemma rstrip_head (s : string) :
  match s with
  | EmptyString => True
  | String c _ => is_space c = false
  end ->
  match rstrip s with
  | EmptyString => True
  | String c _ => is_space c = false
  end.
Proof.
  destruct s as [|c s]; [intros; exact I|]. intros Hc.
  cbn [rstrip]. destruct (rstrip s); [rewrite Hc|]; assumption.
Qed.

Lemma strip_idempotent (s : string) : strip (strip s) = strip s.
Proof.
  unfold strip.
  rewrite (lstrip_fixed (rstrip (lstrip s)))
    by (apply rstrip_head, lstrip_head).
  apply rstrip_idempotent.
Qed.

Lemma solid_INFO : Spec.solid "INFO".
Proof. repeat constructor. Qed.

(** X3. Every loaded line has INFO in it and no blank at either end, so the
    parser's own strip leaves it as it is; a file line with INFO in it is
    loaded stripped, a line without is not loaded, and the order of the
    lines is kept. *)
Theorem load_logs_lines :
  forall file_lines : list string,
    Forall (fun line => contains "INFO" line = true /\ strip line = line)
           (load_logs file_lines) /\
    (forall line, In line (load_logs file_lines) <->
                  exists raw, In raw file_lines /\
                              contains "INFO" raw = true /\
                              line = strip raw) /\
    List.length (load_logs file_lines) <= List.length file_lines /\
    (forall more, load_logs (file_lines ++ more)
                  = load_logs file_lines ++ load_logs more).
Proof.
  intros file_lines. unfold load_logs. split; [|split; [|split]].
  - apply Forall_map, Forall_forall. intros raw Hraw.
    apply filter_In in Hraw as [_ Hinfo].
    rewrite contains_strip by exact solid_INFO.
    split; [assumption|apply strip_idempotent].
  - intros line. rewrite in_map_iff. split.
    + intros (raw & <- & Hraw). apply filter_In in Hraw as [? ?]. eauto.
    + intros (raw & ? & ? & ->). exists raw. rewrite filter_In. auto.
  - rewrite length_map. apply filter_length_le.
  - intros more. rewrite filter_app, map_app. reflexivity.
Qed.

(** *** The contents of the category statistics *)

Lemma insert_by_count_perm (x : Category.t * nat) (l : list (Category.t * nat)) :
  Permutation (insert_by_count x l) (x :: l).
Proof.
  induction l as [|y l IH]; cbn [insert_by_count]; [reflexivity|].
  destruct (snd y <=? snd x)%nat; [reflexivity|].
  rewrite IH. apply perm_swap.
Qed.

Lemma value_counts_perm (l : list Category.t) :
  Permutation (value_counts l) (map (fun c => (c, count_of c l)) (firsts l)).
Proof.
  unfold value_counts.
  induction (map (fun c => (c, count_of c l)) (firsts l)) as [|x xs IH];
    cbn [fold_right]; [reflexivity|].
  rewrite insert_by_count_perm, IH. reflexivity.
Qed.

Lemma insert_by_count_sorted (x : Category.t * nat)
      (l : list (Category.t * nat)) :
  StronglySorted (fun a b => snd b <= snd a) l ->
  StronglySorted (fun a b => snd b <= snd a) (insert_by_count x l).
Proof.
  induction 1 as [|y l Hs IH Hy]; cbn [insert_by_count].
  - repeat constructor.
  - destruct (Nat.leb_spec (snd y) (snd x)) as [Hle|Hgt].
    + constructor; [constructor; assumption|].
      constructor; [assumption|].
      eapply Forall_impl; [|exact Hy]. cbv beta. intros; lia.
    + constructor; [assumption|].
      eapply Permutation_Forall; [symmetry; apply insert_by_count_perm|].
      constructor; [lia|assumption].
Qed.

Lemma value_counts_sorted (l : list Category.t) :
  StronglySorted (fun a b => snd b <= snd a) (value_counts l).
Proof.
  unfold value_counts.
  induction (map (fun c => (c, count_of c l)) (firsts l)) as [|x xs IH];
    cbn [fold_right]; [constructor|].
  apply insert_by_count_sorted. assumption.
Qed.

Lemma count_of_pos (c : Category.t) (l : list Category.t) :
  In c l <-> 1 <= count_of c l.
Proof.
  unfold count_of. induction l as [|d l IH]; cbn [filter In List.length].
  - split; [intros []|lia].
  - destruct (Category.eqb c d) eqn:E; cbn [List.length].
    + apply category_eqb_eq in E. subst. split; [lia|auto].
    + rewrite <- IH. split; [|auto]. intros [->|H]; [|assumption].
      assert (Category.eqb c c = true) by (apply category_eqb_eq; reflexivity).
      congruence.
Qed.

Lemma count_of_map {A : Type} (f : A -> Category.t) (c : Category.t)
      (l : list A) :
  count_of c (map f l)
  = List.length (filter (fun r => Category.eqb c (f r)) l).
Proof.
  unfold count_of. induction l as [|x l IH]; [reflexivity|].
  cbn [map filter]. destruct (Category.eqb c (f x)); cbn [List.length];
    rewrite IH; reflexivity.
Qed.

Lemma value_counts_In (l : list Category.t) (c : Category.t) (n : nat) :
  In (c, n) (value_counts l) <-> 1 <= n /\ n = count_of c l.
Proof.
  split.
  - intros H. apply (Permutation_in _ (value_counts_perm l)) in H.
    apply in_map_iff in H as (d & Heq & Hd).
    injection Heq as -> <-.
    apply (proj1 (firsts_In c l)) in Hd. split; [|reflexivity].
    apply (proj1 (count_of_pos c l)). assumption.
  - intros [Hpos ->].
    apply (Permutation_in _ (Permutation_sym (value_counts_perm l))).
    apply in_map_iff. exists c. split; [reflexivity|].
    apply (proj2 (firsts_In c l)). apply (proj2 (count_of_pos c l)).
    assumption.
Qed.

Lemma value_counts_NoDup (l : list Category.t) :
  NoDup (map fst (value_counts l)).
Proof.
  eapply Permutation_NoDup.
  - apply Permutation_map, Permutation_sym, value_counts_perm.
  - rewrite map_map. cbn [fst]. rewrite map_id. apply firsts_NoDup.
Qed.

(** X7. The categorizer keeps the records and their order, labels each with
    the category of its message, and reports every category that occurs
    once, with the number of records that carry it, the larger counts
    first; a category that does not occur is not reported. *)
Theorem category_stats_content :
  forall (parsed_logs : DataFrame Log.t) (categorized : DataFrame CLog.t)
         (stats : list (Category.t * nat)),
    categorize_logs parsed_logs = Ok (categorized, stats) ->
    map CLog.log (rows categorized) = rows parsed_logs /\
    Forall (fun r => CLog.message_category r
                     = categorize_message (CLog.message r))
           (rows categorized) /\
    NoDup (map fst stats) /\
    (forall c n,
        In (c, n) stats <->
        1 <= n /\
        n = List.length
              (filter (fun r => Category.eqb c (CLog.message_category r))
                      (rows categorized))) /\
    StronglySorted (fun a b => snd b <= snd a) stats.
Proof.
  intros parsed_logs categorized stats H.
  unfold categorize_logs in H.
  apply bind_ok in H as (messages & _ & H). injection H as <- <-.
  cbn [rows]. split; [|split; [|split; [|split]]].
  - rewrite map_map. cbn [CLog.log]. apply map_id.
  - apply Forall_map, Forall_forall. intros l _. reflexivity.
  - apply value_counts_NoDup.
  - intros c n. rewrite value_counts_In, count_of_map. reflexivity.
  - apply value_counts_sorted.
Qed.

Lemma category_stats_content_witness :
  categorize_logs Sample.parsed_good
    = Ok (Sample.categorized_good, Sample.stats_good) /\
  map CLog.log (rows Sample.categorized_good) = rows Sample.parsed_good /\
  Forall (fun r => CLog.message_category r
                   = categorize_message (CLog.message r))
         (rows Sample.categorized_good) /\
  NoDup (map fst Sample.stats_good) /\
  (forall c n,
      In (c, n) Sample.stats_good <->
      1 <= n /\
      n = List.length
            (filter (fun r => Category.eqb c (CLog.message_category r))
                    (rows Sample.categorized_good))) /\
  StronglySorted (fun a b => snd b <= snd a) Sample.stats_good.
Proof.
  split; [reflexivity|].
  exact (category_stats_content Sample.parsed_good Sample.categorized_good
           Sample.stats_good eq_refl).
Defined.

(** *** The cells of an extracted transaction *)

Lemma all_digits_append (a b : string) :
  Float.all_digits (a ++ b)%string
  = Float.all_digits a && Float.all_digits b.
Proof.
  induction a as [|c a IH]; cbn [append Float.all_digits]; [reflexivity|].
  rewrite IH, andb_assoc. reflexivity.
Qed.

Lemma digit_val_nonneg (c : ascii) :
  is_digit c = true -> (0 <= Float.digit_val c)%Z.
Proof.
  unfold is_digit, between, Float.digit_val. intros H.
  apply andb_true_iff in H as [H _]. apply Nat.leb_le in H. lia.
Qed.

Lemma digits_val_nonneg (s : string) :
  forall acc : Z,
    (0 <= acc)%Z -> Float.all_digits s = true ->
    (0 <= Float.digits_val acc s)%Z.
Proof.
  induction s as [|c s IH]; intros acc Hacc H; cbn [Float.digits_val];
    [assumption|].
  cbn [Float.all_digits] in H. apply andb_true_iff in H as [Hc Hs].
  apply IH; [|assumption]. pose proof (digit_val_nonneg c Hc). lia.
Qed.

Lemma unsigned_nonneg (s : string) (q : Q) :
  Float.unsigned s = Some q -> (0 <= q)%Q.
Proof.
  unfold Float.unsigned. destruct (Float.cut_dot s) as [i f].
  destruct (Float.all_digits i
            && Float.all_digits
                 match f with Some f0 => f0 | None => EmptyString end
            && negb (String.length i
                     + String.length
                         match f with Some f0 => f0 | None => EmptyString end
                     =? 0)) eqn:E; [|discriminate].
  intros [= <-].
  apply andb_true_iff in E as [E _].
  unfold Qle. cbn [Qnum Qden]. rewrite Z.mul_0_l, Z.mul_1_r.
  apply digits_val_nonneg; [lia|]. rewrite all_digits_append. assumption.
Qed.

(** A number read off digits and dots is not negative. *)
Lemma float_nonneg (g : string) (q : Q) :
  Forall (fun c => digit_or_dot c = true) (list_ascii_of_string g) ->
  Float.float g = Ok q -> (0 <= q)%Q.
Proof.
  intros Hg. unfold Float.float. destruct g as [|c g].
  - cbn. discriminate.
  - cbn in Hg. inversion Hg as [|? ? Hc _]; subst.
    destruct (Ascii.eqb_spec c "-") as [->|_]; [discriminate Hc|].
    destruct (Ascii.eqb_spec c "+") as [->|_]; [discriminate Hc|].
    destruct (Float.unsigned (String c g)) as [q'|] eqn:E; [|discriminate].
    intros [= <-]. apply round_nonneg. eapply unsigned_nonneg. eassumption.
Qed.

Lemma number_field_nonneg (key msg : string) (q : Q) :
  number_field key digit_or_dot msg = Ok (Some q) -> (0 <= q)%Q.
Proof.
  unfold number_field.
  destruct (Re.search (number_pattern key digit_or_dot) msg) as [g|] eqn:E;
    [|discriminate].
  intros H. apply bind_ok in H as (x & Hx & [= ->]).
  eapply many1_capture in E as [_ Hg]; [|reflexivity].
  eapply float_nonneg; eassumption.
Qed.

Lemma quote_free (g : string) :
  Forall (fun c => not_dquote c = true) (list_ascii_of_string g) ->
  Spec.mentions dquote g = false.
Proof.
  induction g as [|c g IH]; cbn [list_ascii_of_string Spec.mentions];
    intros H; [reflexivity|].
  inversion H as [|? ? Hc Hg]; subst. rewrite (IH Hg), orb_false_r.
  unfold not_dquote in Hc. apply negb_true_iff. assumption.
Qed.

Lemma text_field_well_formed (key msg g : string) :
  text_field key msg = Some g ->
  g <> EmptyString /\ Spec.mentions dquote g = false.
Proof.
  intros H. eapply many1_capture in H as [Hne Hall]; [|reflexivity].
  split; [assumption|apply quote_free; assumption].
Qed.

Lemma extract_fields_cells (log : CLog.t) (tx : Tx.t) :
  extract_fields log = Ok tx ->
  Tx.timestamp tx = Rec.timestamp (Log.rec (CLog.log log)) /\
  Tx.datetime tx = Log.datetime (CLog.log log) /\
  Tx.session_id tx = Rec.session_id (Log.rec (CLog.log log)) /\
  (forall a, Tx.amount tx = Some a -> (0 <= a)%Q) /\
  (forall v, Tx.vat tx = Some v -> (0 <= v)%Q) /\
  (forall g, In (Some g) (Spec.text_cells tx) ->
             g <> EmptyString /\ Spec.mentions dquote g = false).
Proof.
  unfold extract_fields. intros H.
  apply bind_ok in H as (amount & Ha & H).
  apply bind_ok in H as (vat & Hv & H).
  apply bind_ok in H as (balance & _ & H).
  injection H as <-. cbn [Tx.timestamp Tx.datetime Tx.session_id Tx.amount
                            Tx.vat Spec.text_cells Tx.id Tx.type Tx.source
                            Tx.action Tx.userId].
  repeat (split; [reflexivity|]).
  split; [|split].
  - intros a ->. eapply number_field_nonneg. eassumption.
  - intros v ->. eapply number_field_nonneg. eassumption.
  - intros g Hg. cbn [In] in Hg.
    repeat (destruct Hg as [Hg|Hg];
            [eapply text_field_well_formed; eassumption|]).
    destruct Hg.
Qed.

(** X10. Every row of the transaction table comes from a transaction log and
    is well formed: an id that is not empty, an amount and a vat that are
    not negative, text cells that are not empty and hold no quote. *)
Theorem transaction_rows_well_formed :
  forall (fsum : list Q -> Q) (parsed_logs : DataFrame CLog.t)
         (transactions : DataFrame Tx.t) (stats : transaction_stats),
    extract_transactions fsum parsed_logs = Ok (transactions, stats) ->
    Forall (Spec.well_formed_tx parsed_logs) (rows transactions).
Proof.
  intros fsum parsed_logs transactions stats H.
  unfold extract_transactions in H.
  apply bind_ok in H as (cats & _ & H).
  apply bind_ok in H as (candidates & Hc & H).
  assert (Hrows : rows transactions = filter retained candidates).
  { destruct (negb (empty (DataFrame_of Tx.keys (filter retained candidates))));
      injection H as <- _; reflexivity. }
  rewrite Hrows. apply Forall_forall. intros tx Htx.
  apply filter_In in Htx as [Hin Hkeep].
  destruct (mapM_ok_in _ _ _ Hc _ Hin) as (log & Hlog & Hfields).
  cbn [rows select] in Hlog. apply filter_In in Hlog as [Hlog Hcat].
  pose proof (extract_fields_cells log tx Hfields)
    as (Hts & Hdt & Hsid & Hamt & Hvat & Htext).
  unfold Spec.well_formed_tx. split; [|split; [|split]].
  - exists log. repeat (split; [assumption|]).
    split; [|auto]. apply category_eqb_eq. assumption.
  - apply (retained_iff log tx Hfields) in Hkeep as [Hid Hamount].
    destruct (Tx.id tx) as [i|] eqn:Ei; [|contradiction].
    destruct (Tx.amount tx) as [a|] eqn:Ea; [|contradiction].
    exists i, a. split; [reflexivity|].
    split; [|split; [reflexivity|apply Hamt; reflexivity]].
    apply (Htext i). unfold Spec.text_cells. rewrite Ei. left. reflexivity.
  - assumption.
  - assumption.
Qed.

Lemma transaction_rows_well_formed_witness :
  extract_transactions sequential_sum Sample.logs
    = Ok (DataFrame_of Tx.keys (filter retained Sample.candidates),
          TransactionStats 1 1 0 (50 # 1) 0 1 1) /\
  Forall (Spec.well_formed_tx Sample.logs)
         (rows (DataFrame_of Tx.keys (filter retained Sample.candidates))).
Proof.
  split; [reflexivity|].
  exact (transaction_rows_well_formed sequential_sum Sample.logs _ _
           eq_refl).
Defined.

(** *** Reading a member of a payload *)

Lemma fits_lit (s : string) (pieces : list string) :
  Forall2 Spec.fits (Re.lit s) pieces -> Spec.join pieces = s.
Proof.
  revert pieces; induction s as [|c s IH]; intros pieces H; cbn [Re.lit] in H.
  - inversion H; subst. reflexivity.
  - inversion H as [|? piece ? pieces' Hp Hrest]; subst.
    apply fits_one in Hp. subst. cbn [Spec.join append].
    rewrite (IH _ Hrest). reflexivity.
Qed.

Lemma lit_fits (s : string) :
  exists pieces, Forall2 Spec.fits (Re.lit s) pieces /\ Spec.join pieces = s.
Proof.
  induction s as [|c s (pieces & Hfits & Hjoin)]; cbn [Re.lit].
  - exists []. split; [constructor|reflexivity].
  - exists (String c EmptyString :: pieces). split.
    + constructor; [apply fits_one; reflexivity|assumption].
    + cbn [Spec.join append]. rewrite Hjoin. reflexivity.
Qed.

Lemma join_app (a b : list string) :
  Spec.join (a ++ b) = (Spec.join a ++ Spec.join b)%string.
Proof.
  induction a as [|x a IH]; cbn [app Spec.join]; [reflexivity|].
  rewrite IH, append_assoc. reflexivity.
Qed.

Lemma append_inv_head (a r r' : string) :
  (a ++ r)%string = (a ++ r')%string -> r = r'.
Proof.
  intros H. apply (append_inv_length a a r r' eq_refl) in H. apply H.
Qed.

Lemma run_unique (p : ascii -> bool) (f g r r' : string) (c : ascii) :
  Forall (fun x => p x = true) (list_ascii_of_string f) ->
  Forall (fun x => p x = true) (list_ascii_of_string g) ->
  p c = false ->
  (f ++ String c r)%string = (g ++ String c r')%string -> f = g.
Proof.
  intros Hf. revert g. induction f as [|x f IH]; intros [|y g] Hg Hc H;
    cbn [append] in H.
  - reflexivity.
  - injection H as -> _. cbn in Hg. inversion Hg; subst. congruence.
  - injection H as -> _. cbn in Hf. inversion Hf; subst. congruence.
  - injection H as -> H. cbn in Hf, Hg. inversion Hf; inversion Hg; subst.
    f_equal. eapply IH; eassumption.
Qed.

Lemma quote_free_all (g : string) :
  Spec.mentions dquote g = false ->
  Forall (fun c => not_dquote c = true) (list_ascii_of_string g).
Proof.
  induction g as [|c g IH]; cbn [list_ascii_of_string Spec.mentions];
    intros H; [constructor|].
  apply orb_false_iff in H as [Hc Hg].
  constructor; [unfold not_dquote; rewrite Hc; reflexivity|auto].
Qed.

(** At its head, the pattern of a text field reads the member it names. *)
Lemma text_member_match (key v post : string) :
  v <> EmptyString -> Spec.mentions dquote v = false ->
  Re.match_ (quoted_pattern key)
    ((quoted key ++ ":" ++ String dquote EmptyString)
       ++ v ++ String dquote post)%string
  = Some v.
Proof.
  intros Hne Hv.
  set (L := (quoted key ++ ":" ++ String dquote EmptyString)%string).
  destruct (lit_fits L) as (lp & Hlp & Hjl).
  destruct (Re.match_ (quoted_pattern key) (L ++ v ++ String dquote post)%string)
    as [g|] eqn:E.
  - apply match_spec in E
      as (pre & pieces & posts & rest & Hpre & Hgrp & Hpost & -> & Hs).
    cbn [quoted_pattern Re.before Re.group Re.after] in Hpre, Hgrp, Hpost.
    fold L in Hpre. apply fits_lit in Hpre.
    inversion Hgrp as [|? piece ? ? Hpiece Hnil]; subst. inversion Hnil; subst.
    apply fits_lit in Hpost.
    rewrite !join_app, Hpre, Hpost in Hs. cbn [Spec.join] in Hs.
    rewrite !append_assoc in Hs. apply append_inv_head in Hs.
    cbn [append] in Hs.
    apply fits_many1 in Hpiece as [_ Hpiece].
    cbn [Spec.join]. rewrite append_empty_r. f_equal. symmetry.
    eapply (run_unique not_dquote); [apply quote_free_all; exact Hv
                                    |exact Hpiece| |exact Hs].
    unfold not_dquote. rewrite Ascii.eqb_refl. reflexivity.
  - exfalso. unfold Re.match_ in E.
    cbn [quoted_pattern Re.before Re.group Re.after] in E. fold L in E.
    destruct (match_items_complete
                (Re.lit L ++ [Re.many1 not_dquote]
                   ++ Re.lit (String dquote EmptyString))
                (lp ++ [v] ++ [String dquote EmptyString]) post)
      as (taken & rest' & Hm).
    + apply Forall2_app; [assumption|].
      constructor.
      * apply fits_many1. split; [assumption|apply quote_free_all; assumption].
      * constructor; [apply fits_one; reflexivity|constructor].
    + rewrite !join_app, Hjl in Hm. cbn [Spec.join] in Hm.
      rewrite append_empty_r in Hm.
      rewrite !append_assoc in Hm. cbn [append] in Hm.
      rewrite Hm in E. discriminate.
Qed.

(** The pattern of a text field does not match where no quote stands. *)
Lemma text_member_no_match (key : string) (c : ascii) (s : string) :
  Ascii.eqb c dquote = false ->
  Re.match_ (quoted_pattern key) (String c s) = None.
Proof.
  intros Hc.
  destruct (Re.match_ (quoted_pattern key) (String c s)) as [g|] eqn:E;
    [|reflexivity].
  exfalso.
  apply match_spec in E as (pre & pieces & posts & rest & Hpre & _ & _ & _ & Hs).
  cbn [quoted_pattern Re.before] in Hpre. apply fits_lit in Hpre.
  rewrite join_app, Hpre in Hs. unfold quoted in Hs. cbn [append] in Hs.
  injection Hs as -> _. rewrite Ascii.eqb_refl in Hc. discriminate.
Qed.

Lemma search_head (p : Re.pattern) (s g : string) :
  Re.match_ p s = Some g -> Re.search p s = Some g.
Proof.
  intros H. destruct s; cbn [Re.search]; rewrite H; reflexivity.
Qed.

(** X8. Writing then reading a member: after a text without a quote, the
    first member of a name is the one read, whatever follows it. *)
Theorem text_field_reads_member :
  forall key v pre post : string,
    Spec.mentions dquote pre = false ->
    v <> EmptyString ->
    Spec.mentions dquote v = false ->
    text_field key (pre ++ quoted key ++ ":" ++ quoted v ++ post)
    = Some v.
Proof.
  intros key v pre post Hpre Hne Hv. unfold text_field.
  assert (Hs : (quoted key ++ ":" ++ quoted v ++ post)%string
               = ((quoted key ++ ":" ++ String dquote EmptyString)
                    ++ v ++ String dquote post)%string).
  { unfold quoted. repeat (rewrite append_assoc; cbn [append]). reflexivity. }
  rewrite Hs. clear Hs.
  induction pre as [|c pre IH].
  - cbn [append]. apply search_head, text_member_match; assumption.
  - cbn [Spec.mentions] in Hpre. apply orb_false_iff in Hpre as [Hc Hpre].
    cbn [append Re.search].
    rewrite (text_member_no_match key c _ Hc). apply IH. assumption.
Qed.

Lemma text_field_reads_member_witness :
  text_field "id"
    ("Transaction {" ++ quoted "id" ++ ":" ++ quoted "tx1"
       ++ "," ++ quoted "id" ++ ":" ++ quoted "tx2" ++ "}")
  = Some "tx1"%string.
Proof.
  apply (text_field_reads_member "id" "tx1" "Transaction {"
           ("," ++ quoted "id" ++ ":" ++ quoted "tx2" ++ "}"));
    first [reflexivity | discriminate].
Defined.

(** *** Reading a number of a payload *)















(** What [float] reads: a tenth is not a tenth, twenty nines after the
    dot make ten, and a number binary64 holds is read as it is. *)
Example float_samples :
  Float.float "0.1" = Ok (3602879701896397 # 36028797018963968)%Q /\
  Float.float "9.99999999999999999999" = Ok (10 # 1)%Q /\
  Float.float "-5.0" = Ok (-5 # 1)%Q /\
  Float.float "50.0" = Ok (50 # 1)%Q.
Proof. repeat split; vm_compute; reflexivity. Qed.

(** *** The rows of the user summary *)

Lemma user_stats_summary (fsum : list Q -> Q) (u : string) (df : DataFrame Tx.t)
      (first : Tx.t) (tail : list Tx.t) :
  rows df = first :: tail ->
  has_column df "userBalance" = true ->
  exists row,
    Spec.summary fsum u (rows df) = Some row /\ user_stats fsum u df = Ok row.
Proof.
  intros Hrows Hcol. unfold user_stats, iloc_first, iloc_last.
  cbn [select rows]. rewrite Hcol, Hrows, py_index_last.
  cbn [py_index nth_error bind Spec.summary].
  eexists. split; reflexivity.
Qed.

Lemma user_row_summary (argsort : list Z -> list nat) (fsum : list Q -> Q)
      (data : list Tx.t)
      (u : string) :
  Spec.sorted_of argsort u data <> [] -> data <> [] ->
  exists row,
    Spec.summary fsum u (Spec.sorted_of argsort u data) = Some row /\
    user_row argsort fsum (DataFrame_of Tx.keys data) (Some u) = Ok (Some row).
Proof.
  intros Hne Hdata. unfold user_row.
  fold (Spec.sorted_of argsort u data).
  set (df := sort_values argsort
               (select (user_is u) (DataFrame_of Tx.keys data))).
  assert (Hrows : rows df = Spec.sorted_of argsort u data) by reflexivity.
  assert (Hcols : columns df = Tx.keys)
    by (destruct data; [contradiction|reflexivity]).
  destruct (Spec.sorted_of argsort u data) as [|first tail] eqn:E;
    [contradiction|].
  assert (Hcol : has_column df "userBalance" = true)
    by (unfold has_column; rewrite Hcols; reflexivity).
  destruct (user_stats_summary fsum u df first tail Hrows Hcol) as (row & Hsum & Hs).
  rewrite Hrows in Hsum.
  exists row. split; [assumption|].
  unfold empty. rewrite Hrows, Hcols. cbn [Tx.keys negb]. rewrite Hs.
  reflexivity.
Qed.

Lemma user_sorted_nonempty (argsort : list Z -> list nat) (data : list Tx.t)
      (u : string) :
  sorts argsort -> In (Some u) (map Tx.userId data) ->
  Spec.sorted_of argsort u data <> [] /\ data <> [].
Proof.
  intros Hs Hu. apply in_map_iff in Hu as (tx & Htx & Hin).
  assert (Hin' : In tx (Spec.of_user u data)).
  { apply filter_In. split; [assumption|].
    unfold user_is. rewrite Htx. apply String.eqb_refl. }
  apply (Permutation_in _ (Permutation_sym (sorted_of_perm argsort u data Hs)))
    in Hin'.
  split; intros E; [rewrite E in Hin'|rewrite E in Hin]; contradiction.
Qed.

Lemma mapM_user_rows (argsort : list Z -> list nat) (fsum : list Q -> Q)
      (data : list Tx.t) :
  sorts argsort ->
  forall (ids : list (option string)) (out : list (option User.t)),
    (forall x, In x ids -> In x (map Tx.userId data)) ->
    mapM (user_row argsort fsum (DataFrame_of Tx.keys data)) ids = Ok out ->
    Forall2 (fun u row =>
               Spec.summary fsum u (Spec.sorted_of argsort u data) = Some row)
            (somes ids) (somes out).
Proof.
  intros Hs. induction ids as [|x ids IH]; intros out Hin H; cbn [mapM] in H.
  - injection H as <-. constructor.
  - apply bind_ok in H as (y & Hy & H).
    apply bind_ok in H as (ys & Hys & H). injection H as <-.
    assert (IH' := IH ys (fun z Hz => Hin z (or_intror Hz)) Hys).
    destruct x as [u|].
    + destruct (user_sorted_nonempty argsort data u Hs
                  (Hin (Some u) (or_introl eq_refl))) as [Hne Hdata].
      destruct (user_row_summary argsort fsum data u Hne Hdata) as (row & Hsum & Hrow).
      rewrite Hrow in Hy. injection Hy as <-.
      cbn [somes]. constructor; assumption.
    + cbn [user_row] in Hy. injection Hy as <-. cbn [somes]. assumption.
Qed.

(** Under a sorting [argsort], the summary has one row for each user of
    the table, in the order of the users, and each row is the one read
    off that user's sorted transactions. *)
Lemma analyze_user_patterns_summaries (argsort : list Z -> list nat)
      (fsum : list Q -> Q)
      (data : list Tx.t) :
  sorts argsort ->
  exists user_analysis : DataFrame User.t,
    analyze_user_patterns argsort fsum (DataFrame_of Tx.keys data)
      = Ok user_analysis /\
    Forall2 (fun u row =>
               Spec.summary fsum u (Spec.sorted_of argsort u data) = Some row)
            (Spec.users_of data) (rows user_analysis).
Proof.
  intros Hs. destruct data as [|tx data].
  { eexists. split; [reflexivity|]. constructor. }
  unfold analyze_user_patterns.
  change (negb (empty (DataFrame_of Tx.keys (tx :: data)))) with true.
  cbv iota.
  change (getitem (DataFrame_of Tx.keys (tx :: data)) "userId" Tx.userId)
    with (Ok (map Tx.userId (tx :: data))).
  cbn [bind].
  destruct (mapM_total (user_row argsort fsum (DataFrame_of Tx.keys (tx :: data)))
              (unique (map Tx.userId (tx :: data)))) as [out Hout].
  { intros uid _. apply user_row_returns. }
  rewrite Hout. cbn [bind]. eexists. split; [reflexivity|].
  change (rows (DataFrame_of User.keys (somes out))) with (somes out).
  apply (mapM_user_rows argsort fsum (tx :: data) Hs); [|assumption].
  intros x Hx. apply unique_In. assumption.
Qed.

Lemma summary_inv (fsum : list Q -> Q) (u : string) (txs : list Tx.t)
      (row : User.t) :
  Spec.summary fsum u txs = Some row ->
  exists first tail,
    txs = first :: tail /\
    User.user_id row = u /\
    User.transaction_count row = List.length txs /\
    User.credit_count row = List.length (filter (type_is "CREDIT") txs) /\
    User.debit_count row = List.length (filter (type_is "DEBIT") txs) /\
    User.total_credits row
      = series_sum fsum (map Tx.amount (filter (type_is "CREDIT") txs)) /\
    User.total_debits row
      = series_sum fsum (map Tx.amount (filter (type_is "DEBIT") txs)) /\
    User.min_balance row = series_min (map Tx.userBalance txs) /\
    User.max_balance row = series_max (map Tx.userBalance txs) /\
    User.current_balance row = Tx.userBalance (last txs first) /\
    User.overdraft_flag row
      = match series_min (map Tx.userBalance txs) with
        | Some m => Float.ltb m 0
        | None => false
        end.
Proof.
  destruct txs as [|first tail]; cbn [Spec.summary]; [discriminate|].
  intros [= <-]. exists first, tail. cbn. repeat split; reflexivity.
Qed.

Lemma Forall2_in_r {A B : Type} (R : A -> B -> Prop) (l : list A)
      (l' : list B) (y : B) :
  Forall2 R l l' -> In y l' -> exists x, In x l /\ R x y.
Proof.
  induction 1 as [|a b l l' Hab _ IH]; intros Hin; [destruct Hin|].
  destruct Hin as [->|Hin]; [exists a; cbn; auto|].
  destruct (IH Hin) as (x & ? & ?). exists x. cbn. auto.
Qed.

Lemma Forall2_map_eq {A B C : Type} (R : A -> B -> Prop) (f : B -> C)
      (g : A -> C) (l : list A) (l' : list B) :
  (forall x y, R x y -> f y = g x) ->
  Forall2 R l l' -> map f l' = map g l.
Proof.
  intros H. induction 1 as [|a b l l' Hab _ IH]; [reflexivity|].
  cbn [map]. rewrite (H a b Hab), IH. reflexivity.
Qed.

Lemma NoDup_somes {A : Type} (l : list (option A)) :
  NoDup l -> NoDup (somes l).
Proof.
  induction 1 as [|[x|] l Hx _ IH]; cbn [somes]; [constructor| |assumption].
  constructor; [|assumption]. rewrite in_somes. assumption.
Qed.

Lemma users_of_NoDup (data : list Tx.t) : NoDup (Spec.users_of data).
Proof.
  unfold Spec.users_of, unique.
  apply NoDup_somes, NoDup_rev, NoDup_nodup.
Qed.

Lemma users_of_In (data : list Tx.t) (u : string) :
  In u (Spec.users_of data) <-> In (Some u) (map Tx.userId data).
Proof.
  unfold Spec.users_of. rewrite in_somes. apply unique_In.
Qed.

Lemma users_of_length (data : list Tx.t) :
  List.length (Spec.users_of data) = nunique (map Tx.userId data).
Proof.
  unfold nunique. apply Permutation_length, NoDup_Permutation.
  - apply users_of_NoDup.
  - apply NoDup_nodup.
  - intros u. rewrite users_of_In, nodup_In, in_somes. reflexivity.
Qed.

(** X12. Under a sorting [argsort], the summary has exactly one row for each
    distinct non-null user id of the table, in the order in which the
    users first appear; their number is the number of unique users that
    the extractor reports. *)
Theorem user_summary_one_row_per_user :
  forall (argsort : list Z -> list nat) (fsum : list Q -> Q) (data : list Tx.t),
    sorts argsort ->
    exists user_analysis : DataFrame User.t,
      analyze_user_patterns argsort fsum (DataFrame_of Tx.keys data)
        = Ok user_analysis /\
      map User.user_id (rows user_analysis)
        = somes (unique (map Tx.userId data)) /\
      NoDup (map User.user_id (rows user_analysis)) /\
      (forall u, In u (map User.user_id (rows user_analysis)) <->
                 In (Some u) (map Tx.userId data)) /\
      List.length (rows user_analysis) = nunique (map Tx.userId data).
Proof.
  intros argsort fsum data Hs.
  destruct (analyze_user_patterns_summaries argsort fsum data Hs) as (ua & Hua & HF).
  exists ua. split; [assumption|].
  assert (Hids : map User.user_id (rows ua) = Spec.users_of data).
  { rewrite <- (map_id (Spec.users_of data)).
    eapply Forall2_map_eq; [|exact HF].
    intros u row Hrow. cbv beta.
    apply summary_inv in Hrow as (? & ? & _ & Hid & _). assumption. }
  split; [exact Hids|]. rewrite Hids.
  split; [apply users_of_NoDup|].
  split; [apply users_of_In|].
  rewrite <- users_of_length, <- Hids, length_map. reflexivity.
Qed.

Lemma user_summary_one_row_per_user_witness :
  sorts insertion_argsort /\
  exists user_analysis : DataFrame User.t,
    analyze_user_patterns insertion_argsort sequential_sum
      (DataFrame_of Tx.keys Sample.mixed)
      = Ok user_analysis /\
    map User.user_id (rows user_analysis)
      = somes (unique (map Tx.userId Sample.mixed)) /\
    NoDup (map User.user_id (rows user_analysis)) /\
    (forall u, In u (map User.user_id (rows user_analysis)) <->
               In (Some u) (map Tx.userId Sample.mixed)) /\
    List.length (rows user_analysis) = nunique (map Tx.userId Sample.mixed).
Proof.
  split; [exact insertion_argsort_sorts|].
  exact (user_summary_one_row_per_user insertion_argsort sequential_sum
           Sample.mixed
           insertion_argsort_sorts).
Defined.

Lemma qmax_cases (x y : Q) :
  (qmax x y = y /\ (x <= y)%Q) \/ (qmax x y = x /\ (y <= x)%Q).
Proof.
  unfold qmax, Float.leb. destruct (Qle_bool x y) eqn:E.
  - left. split; [reflexivity|]. apply Qle_bool_iff. assumption.
  - right. split; [reflexivity|].
    apply Qlt_le_weak, Qnot_le_lt. intros H. apply Qle_bool_iff in H. congruence.
Qed.

Lemma fold_qmax_spec (xs : list Q) :
  forall x : Q,
    In (fold_left qmax xs x) (x :: xs) /\
    (forall b, In b (x :: xs) -> (b <= fold_left qmax xs x)%Q).
Proof.
  induction xs as [|y xs IH]; intros x; cbn [fold_left].
  - split; [left; reflexivity|]. intros b [<-|[]]. apply Qle_refl.
  - destruct (IH (qmax x y)) as [Hin Hle]. split.
    + destruct Hin as [Hin|Hin]; [|right; right; assumption].
      destruct (qmax_cases x y) as [[E _]|[E _]]; rewrite E in *;
        [right; left|left]; assumption.
    + intros b Hb.
      assert (Hm : (qmax x y <= fold_left qmax xs (qmax x y))%Q)
        by (apply Hle; left; reflexivity).
      assert (Hb' : In b xs -> (b <= fold_left qmax xs (qmax x y))%Q)
        by (intros; apply Hle; right; assumption).
      clear Hin Hle. revert Hm Hb'.
      generalize (fold_left qmax xs (qmax x y)). intros m Hm Hb'.
      destruct Hb as [<-|[<-|Hb]].
      * destruct (qmax_cases x y) as [[E H]|[E H]]; rewrite E in Hm;
          [eapply Qle_trans; eassumption|assumption].
      * destruct (qmax_cases x y) as [[E H]|[E H]]; rewrite E in Hm;
          [assumption|eapply Qle_trans; eassumption].
      * apply Hb'. assumption.
Qed.

(** [series.max()] is a greatest non-null value, and null when there is
    none. *)
Lemma series_max_spec (l : list (option Q)) :
  match series_max l with
  | Some m => In (Some m) l /\ forall b, In (Some b) l -> (b <= m)%Q
  | None => forall x, In x l -> x = None
  end.
Proof.
  unfold series_max. destruct (somes l) as [|x xs] eqn:E.
  - intros [b|] Hb; [|reflexivity].
    apply in_somes in Hb. rewrite E in Hb. destruct Hb.
  - destruct (fold_qmax_spec xs x) as [Hin Hle]. rewrite <- E in Hin, Hle.
    split.
    + apply in_somes. assumption.
    + intros b Hb. apply Hle, in_somes. assumption.
Qed.

Lemma last_In {A : Type} (x : A) (l : list A) : In (last (x :: l) x) (x :: l).
Proof.
  destruct (@exists_last _ (x :: l)) as (init & y & E); [discriminate|].
  rewrite E, last_last. apply in_or_app. right. left. reflexivity.
Qed.

(** X14. Under a sorting [argsort], in every row of the summary the lowest
    balance is at most the highest, a current balance that is not null
    lies between the two, and the lowest is null exactly when the highest
    is, which is when the user has no balance at all. *)
Theorem user_balance_range :
  forall (argsort : list Z -> list nat) (fsum : list Q -> Q) (data : list Tx.t),
    sorts argsort ->
    exists user_analysis : DataFrame User.t,
      analyze_user_patterns argsort fsum (DataFrame_of Tx.keys data)
        = Ok user_analysis /\
      forall row : User.t,
        In row (rows user_analysis) ->
        (forall m M, User.min_balance row = Some m ->
                     User.max_balance row = Some M -> (m <= M)%Q) /\
        (forall b, User.current_balance row = Some b ->
                   exists m M, User.min_balance row = Some m /\
                               User.max_balance row = Some M /\
                               (m <= b)%Q /\ (b <= M)%Q) /\
        (User.min_balance row = None <-> User.max_balance row = None) /\
        (User.min_balance row = None ->
         User.current_balance row = None /\ User.overdraft_flag row = false).
Proof.
  intros argsort fsum data Hs.
  destruct (analyze_user_patterns_summaries argsort fsum data Hs) as (ua & Hua & HF).
  exists ua. split; [assumption|]. intros row Hin.
  destruct (Forall2_in_r _ _ _ _ HF Hin) as (u & _ & Hsum).
  apply summary_inv in Hsum
    as (first & tail & Htxs & _ & _ & _ & _ & _ & _ & Hmin & Hmax & Hcur & Hflag).
  set (balances := map Tx.userBalance (Spec.sorted_of argsort u data)) in *.
  pose proof (series_min_spec balances) as Smin.
  pose proof (series_max_spec balances) as Smax.
  rewrite <- Hmin in Smin. rewrite <- Hmax in Smax.
  assert (Hlast : In (User.current_balance row) balances).
  { rewrite Hcur. unfold balances. apply in_map.
    rewrite Htxs. apply last_In. }
  rewrite Hflag, <- Hmin. clear Hflag Hmin Hmax Hcur.
  destruct (User.min_balance row) as [m|], (User.max_balance row) as [M|].
  - destruct Smin as [Hm Hle], Smax as [HM Hge].
    split; [intros ? ? [= <-] [= <-]; apply Hle; assumption|].
    split; [|split; [split; discriminate|discriminate]].
    intros b Hb. rewrite Hb in Hlast. exists m, M. auto.
  - destruct Smin as [Hm _]. specialize (Smax _ Hm). discriminate.
  - destruct Smax as [HM _]. specialize (Smin _ HM). discriminate.
  - split; [discriminate|]. split; [|split; [tauto|]].
    + intros b Hb. rewrite Hb in Hlast. specialize (Smin _ Hlast). discriminate.
    + intros _. split; [|reflexivity].
      destruct (User.current_balance row) as [b|]; [|reflexivity].
      specialize (Smin _ Hlast). discriminate.
Qed.

Lemma user_balance_range_witness :
  sorts insertion_argsort /\
  exists user_analysis : DataFrame User.t,
    analyze_user_patterns insertion_argsort sequential_sum
      (DataFrame_of Tx.keys Sample.mixed)
      = Ok user_analysis /\
    forall row : User.t,
      In row (rows user_analysis) ->
      (forall m M, User.min_balance row = Some m ->
                   User.max_balance row = Some M -> (m <= M)%Q) /\
      (forall b, User.current_balance row = Some b ->
                 exists m M, User.min_balance row = Some m /\
                             User.max_balance row = Some M /\
                             (m <= b)%Q /\ (b <= M)%Q) /\
      (User.min_balance row = None <-> User.max_balance row = None) /\
      (User.min_balance row = None ->
       User.current_balance row = None /\ User.overdraft_flag row = false).
Proof.
  split; [exact insertion_argsort_sorts|].
  exact (user_balance_range insertion_argsort sequential_sum
           Sample.mixed
           insertion_argsort_sorts).
Defined.

Lemma detect_overdrafts_rows (data : list Tx.t) (tx : Tx.t) :
  In tx (rows (fst (detect_overdrafts (DataFrame_of Tx.keys data)))) <->
  In tx data /\ negative_balance tx = true.
Proof.
  rewrite detect_overdrafts_of. cbn [fst].
  change (rows (DataFrame_of Tx.keys (filter negative_balance data)))
    with (filter negative_balance data).
  apply filter_In.
Qed.

(** X15. The summary and the overdraft table agree: under a sorting
    [argsort], a user is flagged if and only if one of the user's
    transactions is in the overdraft table. *)
Theorem overdraft_flag_iff_overdraft_row :
  forall (argsort : list Z -> list nat) (fsum : list Q -> Q) (data : list Tx.t),
    sorts argsort ->
    exists user_analysis : DataFrame User.t,
      analyze_user_patterns argsort fsum (DataFrame_of Tx.keys data)
        = Ok user_analysis /\
      forall row : User.t,
        In row (rows user_analysis) ->
        (User.overdraft_flag row = true <->
         exists tx : Tx.t,
           In tx (rows (fst (detect_overdrafts (DataFrame_of Tx.keys data)))) /\
           Tx.userId tx = Some (User.user_id row)).
Proof.
  intros argsort fsum data Hs.
  destruct (analyze_user_patterns_summaries argsort fsum data Hs) as (ua & Hua & HF).
  exists ua. split; [assumption|]. intros row Hin.
  destruct (Forall2_in_r _ _ _ _ HF Hin) as (u & _ & Hsum).
  apply summary_inv in Hsum
    as (first & tail & _ & Hid & _ & _ & _ & _ & _ & _ & _ & _ & Hflag).
  rewrite Hflag, Hid. clear Hflag Hid.
  pose proof (sorted_of_perm argsort u data Hs) as Hperm.
  pose proof (series_min_spec
                (map Tx.userBalance (Spec.sorted_of argsort u data))) as Smin.
  assert (Huser : forall tx, In tx (Spec.sorted_of argsort u data) <->
                             In tx data /\ Tx.userId tx = Some u).
  { intros tx. split.
    - intros H. apply (Permutation_in _ Hperm) in H.
      apply filter_In in H as [? Hu]. split; [assumption|].
      unfold user_is in Hu. destruct (Tx.userId tx) as [v|]; [|discriminate].
      apply String.eqb_eq in Hu. subst. reflexivity.
    - intros [H Hu]. apply (Permutation_in _ (Permutation_sym Hperm)).
      apply filter_In. split; [assumption|].
      unfold user_is. rewrite Hu. apply String.eqb_refl. }
  split.
  - destruct (series_min _) as [m|]; [|discriminate].
    intros Hneg. destruct Smin as [Hm _].
    apply in_map_iff in Hm as (tx & Hb & Htx).
    apply Huser in Htx as [Htx Hu].
    exists tx. split; [|assumption].
    apply detect_overdrafts_rows. split; [assumption|].
    unfold negative_balance. rewrite Hb. assumption.
  - intros (tx & Htx & Hu).
    apply detect_overdrafts_rows in Htx as [Htx Hneg].
    assert (Hs' : In tx (Spec.sorted_of argsort u data))
      by (apply Huser; auto).
    unfold negative_balance in Hneg.
    destruct (Tx.userBalance tx) as [b|] eqn:Eb; [|discriminate].
    assert (Hb : In (Some b)
                    (map Tx.userBalance (Spec.sorted_of argsort u data))).
    { rewrite <- Eb. apply in_map. assumption. }
    destruct (series_min _) as [m|].
    + destruct Smin as [_ Hle]. apply ltb_lt. apply ltb_lt in Hneg.
      eapply Qle_lt_trans; [apply Hle; exact Hb|assumption].
    + specialize (Smin _ Hb). discriminate.
Qed.

Lemma overdraft_flag_iff_overdraft_row_witness :
  sorts insertion_argsort /\
  exists user_analysis : DataFrame User.t,
    analyze_user_patterns insertion_argsort sequential_sum
      (DataFrame_of Tx.keys Sample.mixed)
      = Ok user_analysis /\
    forall row : User.t,
      In row (rows user_analysis) ->
      (User.overdraft_flag row = true <->
       exists tx : Tx.t,
         In tx (rows (fst (detect_overdrafts
                             (DataFrame_of Tx.keys Sample.mixed)))) /\
         Tx.userId tx = Some (User.user_id row)).
Proof.
  split; [exact insertion_argsort_sorts|].
  exact (overdraft_flag_iff_overdraft_row insertion_argsort sequential_sum
           Sample.mixed
           insertion_argsort_sorts).
Defined.

(** *** The counts of the user summary *)

Lemma filter_perm {A : Type} (p : A -> bool) (l l' : list A) :
  Permutation l l' -> Permutation (filter p l) (filter p l').
Proof.
  induction 1 as [|x l l' _ IH|x y l|l l' l'' _ IH1 _ IH2]; cbn [filter].
  - constructor.
  - destruct (p x); [constructor|]; assumption.
  - destruct (p x), (p y); try reflexivity. apply perm_swap.
  - etransitivity; eassumption.
Qed.

Lemma somes_perm {A : Type} (l l' : list (option A)) :
  Permutation l l' -> Permutation (somes l) (somes l').
Proof.
  induction 1 as [|x l l' _ IH|x y l|l l' l'' _ IH1 _ IH2].
  - constructor.
  - destruct x; cbn [somes]; [constructor|]; assumption.
  - destruct x, y; cbn [somes]; try reflexivity. apply perm_swap.
  - etransitivity; eassumption.
Qed.

Lemma list_sum_add {A : Type} (f g : A -> nat) (l : list A) :
  list_sum (map (fun x => f x + g x) l)
  = list_sum (map f l) + list_sum (map g l).
Proof.
  induction l as [|x l IH]; [reflexivity|].
  cbn [map]. rewrite !list_sum_cons, IH. lia.
Qed.

Lemma list_sum_zero {A : Type} (f : A -> nat) (l : list A) :
  (forall x, In x l -> f x = 0) -> list_sum (map f l) = 0.
Proof.
  induction l as [|x l IH]; intros H; [reflexivity|].
  cbn [map]. rewrite list_sum_cons, (H x (or_introl eq_refl)), IH; [reflexivity|].
  intros y Hy. apply H. right. assumption.
Qed.

Lemma user_indicator_sum (users : list string) (tx : Tx.t) (v : string) :
  NoDup users -> In v users -> Tx.userId tx = Some v ->
  list_sum (map (fun u => if user_is u tx then 1 else 0) users) = 1.
Proof.
  intros Hnd Hin Hv. unfold user_is. rewrite Hv.
  induction Hnd as [|u users Hu Hnd IH]; [destruct Hin|].
  cbn [map]. rewrite list_sum_cons.
  destruct (String.eqb_spec v u) as [->|Hne].
  - rewrite list_sum_zero; [reflexivity|].
    intros w Hw. destruct (String.eqb_spec u w) as [->|]; [contradiction|reflexivity].
  - destruct Hin as [->|Hin]; [contradiction|]. rewrite (IH Hin). reflexivity.
Qed.

(** Every transaction with a user is a transaction of exactly one user. *)
Lemma user_counts_sum (users : list string) (l : list Tx.t) :
  NoDup users ->
  (forall tx v, In tx l -> Tx.userId tx = Some v -> In v users) ->
  list_sum (map (fun u => List.length (filter (user_is u) l)) users)
  = List.length (filter Spec.has_user l).
Proof.
  intros Hnd. induction l as [|tx l IH]; intros Hcover.
  - cbn [filter List.length]. apply list_sum_zero. reflexivity.
  - assert (Hsplit :
      list_sum (map (fun u => List.length (filter (user_is u) (tx :: l))) users)
      = list_sum (map (fun u => if user_is u tx then 1 else 0) users)
        + list_sum (map (fun u => List.length (filter (user_is u) l)) users)).
    { rewrite <- list_sum_add. f_equal. apply map_ext. intros u.
      cbn [filter]. destruct (user_is u tx); reflexivity. }
    rewrite Hsplit, IH by (intros; eapply Hcover; [right|]; eassumption).
    cbn [filter]. unfold Spec.has_user at 2, is_some.
    destruct (Tx.userId tx) as [v|] eqn:Ev.
    + rewrite (user_indicator_sum users tx v Hnd); [reflexivity| |assumption].
      eapply Hcover; [left; reflexivity|assumption].
    + rewrite list_sum_zero; [reflexivity|].
      intros u _. unfold user_is. rewrite Ev. reflexivity.
Qed.

(** X13. Under a sorting [argsort], every row counts the transactions of
    its user, at least one, and among them the credits and the debits,
    which together are no more; and over all rows the counts add up to
    the number of transactions that have a user. *)
Theorem user_summary_counts :
  forall (argsort : list Z -> list nat) (fsum : list Q -> Q)
         (data : list Tx.t),
    sorts argsort ->
    exists user_analysis : DataFrame User.t,
      analyze_user_patterns argsort fsum (DataFrame_of Tx.keys data)
        = Ok user_analysis /\
      (forall row : User.t,
          In row (rows user_analysis) ->
          User.transaction_count row
            = List.length (Spec.of_user (User.user_id row) data) /\
          1 <= User.transaction_count row /\
          User.credit_count row
            = List.length (filter (type_is "CREDIT")
                                  (Spec.of_user (User.user_id row) data)) /\
          User.debit_count row
            = List.length (filter (type_is "DEBIT")
                                  (Spec.of_user (User.user_id row) data)) /\
          User.credit_count row + User.debit_count row
            <= User.transaction_count row) /\
      list_sum (map User.transaction_count (rows user_analysis))
        = List.length (filter Spec.has_user data).
Proof.
  intros argsort fsum data Hs.
  destruct (analyze_user_patterns_summaries argsort fsum data Hs) as (ua & Hua & HF).
  exists ua. split; [assumption|].
  assert (Hcount : forall u row,
             Spec.summary fsum u (Spec.sorted_of argsort u data) = Some row ->
             User.transaction_count row = List.length (Spec.of_user u data)).
  { intros u row Hsum.
    apply summary_inv in Hsum as (? & ? & _ & _ & Hc & _). rewrite Hc.
    apply Permutation_length, sorted_of_perm. assumption. }
  split.
  - intros row Hin.
    destruct (Forall2_in_r _ _ _ _ HF Hin) as (u & _ & Hsum).
    pose proof (Hcount u row Hsum) as Hc.
    apply summary_inv in Hsum
      as (first & tail & Htxs & Hid & Hc' & Hcr & Hdb & _).
    pose proof (sorted_of_perm argsort u data Hs) as Hperm.
    rewrite Hid, Hcr, Hdb.
    rewrite <- (Permutation_length (filter_perm (type_is "CREDIT") _ _ Hperm)).
    rewrite <- (Permutation_length (filter_perm (type_is "DEBIT") _ _ Hperm)).
    split; [assumption|].
    split; [rewrite Hc', Htxs; cbn [List.length]; lia|].
    split; [reflexivity|]. split; [reflexivity|].
    rewrite Hc'. apply filter_disjoint_length, credit_debit_disjoint.
  - rewrite (Forall2_map_eq _ User.transaction_count
               (fun u => List.length (Spec.of_user u data)) _ _ Hcount HF).
    apply user_counts_sum; [apply users_of_NoDup|].
    intros tx v Htx Hv. apply users_of_In. rewrite <- Hv. apply in_map.
    assumption.
Qed.

Lemma user_summary_counts_witness :
  sorts insertion_argsort /\
  exists user_analysis : DataFrame User.t,
    analyze_user_patterns insertion_argsort sequential_sum
      (DataFrame_of Tx.keys Sample.mixed)
      = Ok user_analysis /\
    (forall row : User.t,
        In row (rows user_analysis) ->
        User.transaction_count row
          = List.length (Spec.of_user (User.user_id row) Sample.mixed) /\
        1 <= User.transaction_count row /\
        User.credit_count row
          = List.length (filter (type_is "CREDIT")
                                (Spec.of_user (User.user_id row) Sample.mixed)) /\
        User.debit_count row
          = List.length (filter (type_is "DEBIT")
                                (Spec.of_user (User.user_id row) Sample.mixed)) /\
        User.credit_count row + User.debit_count row
          <= User.transaction_count row) /\
    list_sum (map User.transaction_count (rows user_analysis))
      = List.length (filter Spec.has_user Sample.mixed).
Proof.
  split; [exact insertion_argsort_sorts|].
  exact (user_summary_counts insertion_argsort sequential_sum
           Sample.mixed
           insertion_argsort_sorts).
Defined.

(** *** The bounds of the overdraft statistics *)

Lemma length_somes {A : Type} (l : list (option A)) :
  List.length (somes l) <= List.length l.
Proof.
  induction l as [|[x|] l IH]; cbn [somes List.length]; lia.
Qed.

Lemma nunique_le_length (l : list (option string)) :
  nunique l <= List.length l.
Proof.
  unfold nunique.
  transitivity (List.length (somes l)); [|apply length_somes].
  apply NoDup_incl_length; [apply NoDup_nodup|].
  intros x Hx. apply nodup_In in Hx. assumption.
Qed.

Lemma nunique_incl (l l' : list (option string)) :
  incl l l' -> nunique l <= nunique l'.
Proof.
  intros H. unfold nunique. apply NoDup_incl_length; [apply NoDup_nodup|].
  intros x Hx. apply nodup_In. apply nodup_In in Hx.
  apply in_somes. apply H. apply in_somes. assumption.
Qed.

(** X11. The negative and the low rows together are no more than the rows of
    the table, the users at risk no more than the low rows nor than the
    users of the table, and the overdraft table is empty exactly when the
    negative count is zero. *)
Theorem detect_overdrafts_bounds :
  forall data : list Tx.t,
    negative_balance_count (snd (detect_overdrafts (DataFrame_of Tx.keys data)))
    + low_balance_count (snd (detect_overdrafts (DataFrame_of Tx.keys data)))
    <= List.length data /\
    at_risk_users (snd (detect_overdrafts (DataFrame_of Tx.keys data)))
    <= low_balance_count (snd (detect_overdrafts (DataFrame_of Tx.keys data))) /\
    at_risk_users (snd (detect_overdrafts (DataFrame_of Tx.keys data)))
    <= nunique (map Tx.userId data) /\
    (negative_balance_count
       (snd (detect_overdrafts (DataFrame_of Tx.keys data))) = 0 <->
     empty (fst (detect_overdrafts (DataFrame_of Tx.keys data))) = true) /\
    List.length (rows (fst (detect_overdrafts (DataFrame_of Tx.keys data))))
    = negative_balance_count
        (snd (detect_overdrafts (DataFrame_of Tx.keys data))).
Proof.
  intros data. rewrite detect_overdrafts_of.
  cbn [fst snd negative_balance_count low_balance_count at_risk_users].
  split; [apply filter_disjoint_length, negative_low_disjoint|].
  split; [rewrite <- (length_map Tx.userId (filter low_balance data));
          apply nunique_le_length|].
  split.
  { apply nunique_incl. intros x Hx.
    apply in_map_iff in Hx as (tx & <- & Htx).
    apply in_map. apply filter_In in Htx. tauto. }
  split; [|reflexivity].
  rewrite empty_DataFrame_of by discriminate.
  destruct (filter negative_balance data); cbn [List.length];
    split; intros; first [reflexivity | discriminate].
Qed.

(** *** The whole run *)

Lemma result_cases {A : Type} (c : result A) : returns c \/ raises c.
Proof.
  destruct c as [a|e]; [left; exists a|right; exists e]; reflexivity.
Qed.

Lemma returns_not_raises {A : Type} (c : result A) :
  returns c -> raises c -> False.
Proof. intros [a ->] [e H]. discriminate. Qed.

Lemma mapM_returns_iff {A B : Type} (f : A -> result B) (l : list A) :
  returns (mapM f l) <-> forall x, In x l -> returns (f x).
Proof.
  split; [|apply mapM_total].
  intros [out Hout] x Hx.
  destruct (mapM_in_ok f l out Hout x Hx) as (y & Hy & _). exists y. assumption.
Qed.

Lemma to_datetime_row_returns
      (to_datetime : list (option string) -> string -> result Z)
      (column : list (option string)) (r : Rec.t) :
  returns (d <- to_datetime_cell to_datetime column (Rec.timestamp r) ;;
           Ok (Log.Make r d)) <->
  (forall ts, Rec.timestamp r = Some ts -> returns (to_datetime column ts)).
Proof.
  destruct (Rec.timestamp r) as [ts|]; cbn [to_datetime_cell bind].
  - split.
    + intros [y Hy] ts' [= <-].
      destruct (to_datetime column ts) as [d|e];
        [exists d; reflexivity|discriminate].
    + intros H. destruct (H ts eq_refl) as [d ->]. eexists. reflexivity.
  - split; [intros _ ts; discriminate|]. intros _. eexists. reflexivity.
Qed.

(** When the batch is parsed: it is not empty and every matched timestamp
    converts in the column of the batch. *)
Lemma parse_all_logs_returns_iff
      (to_datetime : list (option string) -> string -> result Z)
      (raw_logs : list string) :
  returns (parse_all_logs to_datetime raw_logs) <->
  raw_logs <> [] /\
  forall line ts, In line raw_logs ->
                  Re.match_ timestamp_pattern (strip line) = Some ts ->
                  returns (to_datetime (Spec.timestamps raw_logs) ts).
Proof.
  rewrite parse_all_logs_eq. destruct raw_logs as [|row l].
  - split; [intros [a H]; discriminate|intros [H _]; contradiction].
  - set (column := Spec.timestamps (row :: l)).
    set (f := fun r => d <- to_datetime_cell to_datetime column
                              (Rec.timestamp r) ;;
                       Ok (Log.Make r d)).
    assert (Hiff : returns (mapM f (map Spec.record_of (row :: l))) <->
                   forall line ts, In line (row :: l) ->
                     Re.match_ timestamp_pattern (strip line) = Some ts ->
                     returns (to_datetime column ts)).
    { rewrite mapM_returns_iff. split.
      - intros H line ts Hin Hts.
        apply (proj1 (to_datetime_row_returns to_datetime column
                        (Spec.record_of line)));
          [apply H, in_map; assumption|exact Hts].
      - intros H r Hr. apply in_map_iff in Hr as (line & <- & Hin).
        apply to_datetime_row_returns. intros ts Hts. eapply H; eassumption. }
    rewrite <- Hiff. split.
    + intros [a Ha]. split; [discriminate|].
      destruct (mapM f (map Spec.record_of (row :: l))) as [out|e];
        [exists out; reflexivity|discriminate].
    + intros [_ [out Hout]]. fold f. rewrite Hout. eexists. reflexivity.
Qed.

Lemma mapM_rec (to_datetime : list (option string) -> string -> result Z)
      (column : list (option string)) (recs : list Rec.t)
      (out : list Log.t) :
  mapM (fun r => d <- to_datetime_cell to_datetime column
                        (Rec.timestamp r) ;;
                 Ok (Log.Make r d)) recs = Ok out ->
  map Log.rec out = recs.
Proof.
  revert out; induction recs as [|r recs IH]; intros out H; cbn [mapM] in H.
  - injection H as <-. reflexivity.
  - apply bind_ok in H as (y & Hy & H).
    apply bind_ok in H as (ys & Hys & H). injection H as <-.
    apply bind_ok in Hy as (d & _ & Hy). injection Hy as <-.
    cbn [map Log.rec]. rewrite (IH _ Hys). reflexivity.
Qed.

(** The frame of a parsed batch: one row for each line, in order, with the
    four columns of the records and the datetime. *)
Lemma parse_all_logs_frame
      (to_datetime : list (option string) -> string -> result Z)
      (raw_logs : list string) (parsed_logs : DataFrame Log.t) :
  parse_all_logs to_datetime raw_logs = Ok parsed_logs ->
  columns parsed_logs = (Rec.keys ++ ["datetime"%string])%list /\
  map Log.rec (rows parsed_logs) = map Spec.record_of raw_logs /\
  raw_logs <> [].
Proof.
  rewrite parse_all_logs_eq. destruct raw_logs as [|row l]; [discriminate|].
  intros H. apply bind_ok in H as (out & Hout & H). injection H as <-.
  cbn [columns rows]. split; [reflexivity|].
  split; [eapply mapM_rec; eassumption|discriminate].
Qed.

Lemma categorize_logs_frame (parsed_logs : DataFrame Log.t) :
  has_column parsed_logs "message" = true ->
  categorize_logs parsed_logs
  = Ok (Frame (columns parsed_logs ++ ["message_category"%string])
              (map (fun l => CLog.Make l
                               (categorize_message (Rec.message (Log.rec l))))
                   (rows parsed_logs)),
        value_counts
          (map (fun l => categorize_message (Rec.message (Log.rec l)))
               (rows parsed_logs))).
Proof.
  intros Hcol. unfold categorize_logs, getitem. rewrite Hcol.
  cbn [bind rows]. rewrite map_map. reflexivity.
Qed.

Lemma number_field_returns (key : string) (p : ascii -> bool) (msg : string) :
  returns (number_field key p msg) \/ raises (number_field key p msg).
Proof. apply result_cases. Qed.

Lemma extract_fields_returns_iff (log : CLog.t) :
  returns (extract_fields log) <->
  Spec.numbers_readable (py_str (CLog.message log)).
Proof.
  unfold extract_fields, Spec.numbers_readable.
  destruct (number_field "amount" digit_or_dot (py_str (CLog.message log)))
    as [a|e]; cbn [bind].
  - destruct (number_field "vat" digit_or_dot (py_str (CLog.message log)))
      as [v|e]; cbn [bind].
    + destruct (number_field "userBalance" digit_dot_or_minus
                  (py_str (CLog.message log))) as [b|e]; cbn [bind].
      * split; [intros _|intros _; eexists; reflexivity].
        repeat split; eexists; reflexivity.
      * split; [intros [x H]; discriminate|].
        intros (_ & _ & [x H]). discriminate.
    + split; [intros [x H]; discriminate|].
      intros (_ & [x H] & _). discriminate.
  - split; [intros [x H]; discriminate|].
    intros ([x H] & _). discriminate.
Qed.

(** When the transactions are extracted: the numbers of every transaction
    log can be read. *)
Lemma extract_transactions_returns_iff (fsum : list Q -> Q)
      (parsed_logs : DataFrame CLog.t) :
  has_column parsed_logs "message_category" = true ->
  returns (extract_transactions fsum parsed_logs) <->
  forall log, In log (rows parsed_logs) ->
              CLog.message_category log = Category.transaction ->
              Spec.numbers_readable (py_str (CLog.message log)).
Proof.
  intros Hcol.
  assert (Hiff : returns (mapM extract_fields
                            (filter is_transaction (rows parsed_logs))) <->
                 forall log, In log (rows parsed_logs) ->
                   CLog.message_category log = Category.transaction ->
                   Spec.numbers_readable (py_str (CLog.message log))).
  { rewrite mapM_returns_iff. split.
    - intros H log Hin Hcat. apply extract_fields_returns_iff, H.
      apply filter_In. split; [assumption|].
      unfold is_transaction. rewrite Hcat. reflexivity.
    - intros H log Hlog. apply filter_In in Hlog as [Hin Hcat].
      apply extract_fields_returns_iff, H; [assumption|].
      apply category_eqb_eq. assumption. }
  rewrite <- Hiff. unfold extract_transactions, getitem. rewrite Hcol.
  cbn [bind select rows].
  destruct (mapM extract_fields (filter is_transaction (rows parsed_logs)))
    as [cands|e]; cbn [bind].
  - split; [intros _; eexists; reflexivity|]. intros _.
    destruct (negb (empty (DataFrame_of Tx.keys (filter retained cands))));
      eexists; reflexivity.
  - split; intros [x H]; discriminate.
Qed.

Lemma mapM_length {A B : Type} (f : A -> result B) (l : list A) (out : list B) :
  mapM f l = Ok out -> List.length out = List.length l.
Proof.
  revert out; induction l as [|x l IH]; intros out H; cbn [mapM] in H.
  - injection H as <-. reflexivity.
  - apply bind_ok in H as (y & _ & H).
    apply bind_ok in H as (ys & Hys & H). injection H as <-.
    cbn [List.length]. rewrite (IH _ Hys). reflexivity.
Qed.

Lemma extract_transactions_inv (fsum : list Q -> Q)
      (parsed_logs : DataFrame CLog.t)
      (transactions : DataFrame Tx.t) (stats : transaction_stats) :
  extract_transactions fsum parsed_logs = Ok (transactions, stats) ->
  exists candidates : list Tx.t,
    mapM extract_fields (filter is_transaction (rows parsed_logs))
      = Ok candidates /\
    transactions = DataFrame_of Tx.keys (filter retained candidates) /\
    total_count stats = List.length (filter retained candidates) /\
    unique_users stats
      = nunique (map Tx.userId (filter retained candidates)).
Proof.
  unfold extract_transactions. intros H.
  apply bind_ok in H as (cats & _ & H).
  apply bind_ok in H as (candidates & Hc & H).
  exists candidates. split; [exact Hc|].
  rewrite empty_DataFrame_of in H by discriminate.
  destruct (filter retained candidates) as [|tx data] eqn:E;
    cbn [negb] in H; injection H as <- <-; repeat split; reflexivity.
Qed.

Lemma load_logs_stripped (file_lines : list string) (line : string) :
  In line (load_logs file_lines) -> strip line = line.
Proof.
  unfold load_logs. intros H. apply in_map_iff in H as (raw & <- & _).
  apply strip_idempotent.
Qed.

Lemma filter_map_length {A B : Type} (p : B -> bool) (f : A -> B) (l : list A) :
  List.length (filter p (map f l))
  = List.length (filter (fun x => p (f x)) l).
Proof.
  induction l as [|x l IH]; [reflexivity|].
  cbn [map filter]. destruct (p (f x)); cbn [List.length]; rewrite IH;
    reflexivity.
Qed.

Lemma nonempty_None {R : Type} (keys : list string) (data : list R) :
  keys <> [] ->
  (nonempty (DataFrame_of keys data) = None <-> data = []).
Proof.
  intros Hk. unfold nonempty. rewrite empty_DataFrame_of by assumption.
  destruct data; cbn [negb]; split; intros; first [reflexivity|discriminate].
Qed.

(** What a run that succeeds has gone through. *)
Lemma run_complete_analysis_inv
      (to_datetime : list (option string) -> string -> result Z)
      (argsort : list Z -> list nat) (fsum : list Q -> Q)
      (file_lines : list string) (a : analysis) :
  run_complete_analysis to_datetime argsort fsum file_lines = Ok a ->
  exists (parsed_logs : DataFrame Log.t) (candidates : list Tx.t)
         (stats : transaction_stats) (user_analysis : DataFrame User.t),
    parse_all_logs to_datetime (load_logs file_lines) = Ok parsed_logs /\
    mapM extract_fields
      (filter is_transaction
         (map (fun l => CLog.Make l
                          (categorize_message (Rec.message (Log.rec l))))
              (rows parsed_logs)))
      = Ok candidates /\
    total_count stats = List.length (filter retained candidates) /\
    unique_users stats
      = nunique (map Tx.userId (filter retained candidates)) /\
    analyze_user_patterns argsort fsum
      (DataFrame_of Tx.keys (filter retained candidates)) = Ok user_analysis /\
    a = Analysis
          (value_counts
             (map (fun l => categorize_message (Rec.message (Log.rec l)))
                  (rows parsed_logs)))
          stats
          (snd (detect_overdrafts
                  (DataFrame_of Tx.keys (filter retained candidates))))
          (Exports
             (nonempty (DataFrame_of Tx.keys (filter retained candidates)))
             (nonempty user_analysis)
             (category_table
                (value_counts
                   (map (fun l => categorize_message
                                    (Rec.message (Log.rec l)))
                        (rows parsed_logs))))
             (nonempty
                (fst (detect_overdrafts
                        (DataFrame_of Tx.keys (filter retained candidates)))))).
Proof.
  unfold run_complete_analysis. intros H.
  apply bind_ok in H as (parsed & Hparsed & H).
  pose proof (parse_all_logs_frame _ _ _ Hparsed) as (Hcols & _ & _).
  rewrite categorize_logs_frame in H
    by (unfold has_column; rewrite Hcols; reflexivity).
  cbn [bind fst snd] in H.
  apply bind_ok in H as ([transactions stats] & Hext & H).
  apply extract_transactions_inv in Hext as (cands & Hc & -> & Ht & Hu).
  cbn [rows] in Hc. cbn [fst snd] in H.
  apply bind_ok in H as (ua & Hua & H).
  unfold export_results in H. rewrite Hua in H. cbn [bind] in H.
  injection H as <-.
  exists parsed, cands, stats, ua. repeat (split; [assumption|]). reflexivity.
Qed.

Lemma number_field_returns_iff (key : string) (p : ascii -> bool)
      (msg : string) :
  returns (number_field key p msg) <->
  forall g, Re.search (number_pattern key p) msg = Some g ->
            returns (Float.float g).
Proof.
  unfold number_field.
  destruct (Re.search (number_pattern key p) msg) as [g|].
  - destruct (Float.float g) as [x|e] eqn:E; cbn [bind].
    + split; [intros _ g' Hg'; injection Hg' as <-; exists x; exact E|].
      intros _. eexists. reflexivity.
    + split; [intros [x H]; discriminate|].
      intros H. destruct (H g eq_refl) as [x Hx]. congruence.
  - split; [intros _ g H; discriminate|intros _; eexists; reflexivity].
Qed.

Lemma numbers_readable_convert (msg : string) :
  Spec.numbers_readable msg <-> Spec.numbers_convert msg.
Proof.
  unfold Spec.numbers_readable, Spec.numbers_convert, Spec.numeric_fields.
  rewrite !number_field_returns_iff. split.
  - intros (Ha & Hv & Hb) key p g [E|[E|[E|[]]]] Hg; injection E as <- <-;
      [apply Ha|apply Hv|apply Hb]; exact Hg.
  - intros H. repeat split; intros g Hg; eapply H; try exact Hg;
      cbn [In]; auto.
Qed.

(** X16. The run returns exactly when some line is loaded, the conversion
    of the timestamp column of the loaded lines accepts the timestamp of
    every line that has one, and in every loaded transaction line what
    the patterns of the three numeric fields capture converts to a
    number: an empty batch, a timestamp refused in the conversion of the
    column and a captured number that is not one are its only failures,
    whatever the sort and the sum do. *)
Theorem run_complete_analysis_returns_iff :
  forall (to_datetime : list (option string) -> string -> result Z)
         (argsort : list Z -> list nat) (fsum : list Q -> Q)
         (file_lines : list string),
    returns (run_complete_analysis to_datetime argsort fsum file_lines) <->
    load_logs file_lines <> [] /\
    (forall line ts,
        In line (load_logs file_lines) ->
        Re.match_ timestamp_pattern line = Some ts ->
        returns (to_datetime (Spec.timestamps (load_logs file_lines)) ts)) /\
    (forall line,
        In line (load_logs file_lines) ->
        Spec.transaction_line line = true ->
        Spec.numbers_convert (py_str (Rec.message (Spec.record_of line)))).
Proof.
  intros to_datetime argsort fsum file_lines.
  set (raw := load_logs file_lines).
  setoid_rewrite <- numbers_readable_convert.
  assert (Hstrip : forall line, In line raw -> strip line = line)
    by (intros; eapply load_logs_stripped; eassumption).
  assert (Hparse : returns (parse_all_logs to_datetime raw) <->
                   raw <> [] /\
                   forall line ts, In line raw ->
                     Re.match_ timestamp_pattern line = Some ts ->
                     returns (to_datetime (Spec.timestamps raw) ts)).
  { rewrite parse_all_logs_returns_iff. split; intros [Hne H]; (split; [assumption|]);
      intros line ts Hin Hts; apply (H line ts Hin);
      [rewrite (Hstrip line Hin)|rewrite <- (Hstrip line Hin)]; assumption. }
  assert (Hext : forall parsed,
             parse_all_logs to_datetime raw = Ok parsed ->
             (returns
                (extract_transactions fsum
                   (Frame (columns parsed ++ ["message_category"%string])
                          (map (fun l => CLog.Make l
                                  (categorize_message (Rec.message (Log.rec l))))
                               (rows parsed)))) <->
              forall line, In line raw ->
                Spec.transaction_line line = true ->
                Spec.numbers_readable
                  (py_str (Rec.message (Spec.record_of line))))).
  { intros parsed Hp.
    pose proof (parse_all_logs_frame _ _ _ Hp) as (Hcols & Hrecs & _).
    rewrite extract_transactions_returns_iff
      by (unfold has_column; cbn [columns]; rewrite Hcols; reflexivity).
    cbn [rows]. split.
    - intros H line Hin Hcat.
      assert (Hr : In (Spec.record_of line) (map Log.rec (rows parsed)))
        by (rewrite Hrecs; apply in_map; assumption).
      apply in_map_iff in Hr as (l & Hl & Hlin).
      specialize (H (CLog.Make l (categorize_message (Rec.message (Log.rec l))))).
      unfold CLog.message in H. cbn [CLog.log CLog.message_category] in H.
      rewrite Hl in H. apply H.
      + apply in_map_iff. exists l. rewrite Hl. auto.
      + apply category_eqb_eq. exact Hcat.
    - intros H log Hlog Hcat.
      apply in_map_iff in Hlog as (l & <- & Hlin).
      unfold CLog.message. cbn [CLog.log CLog.message_category] in *.
      assert (Hr : In (Log.rec l) (map Spec.record_of raw))
        by (rewrite <- Hrecs; apply in_map; assumption).
      apply in_map_iff in Hr as (line & Hline & Hin).
      rewrite <- Hline. apply H; [assumption|].
      unfold Spec.transaction_line. rewrite Hline.
      apply category_eqb_eq. assumption. }
  split.
  - intros [a Ha]. unfold run_complete_analysis in Ha. fold raw in Ha.
    apply bind_ok in Ha as (parsed & Hp & Ha).
    pose proof (parse_all_logs_frame _ _ _ Hp) as (Hcols & _ & _).
    rewrite categorize_logs_frame in Ha
      by (unfold has_column; rewrite Hcols; reflexivity).
    cbn [bind fst snd] in Ha.
    apply bind_ok in Ha as (ext & Hx & _).
    destruct (proj1 Hparse (ex_intro _ parsed Hp)) as [Hne Hts].
    split; [assumption|]. split; [assumption|].
    apply (proj1 (Hext parsed Hp)). exists ext. assumption.
  - intros (Hne & Hts & Hnum).
    destruct (proj2 Hparse (conj Hne Hts)) as [parsed Hp].
    destruct (proj2 (Hext parsed Hp) Hnum) as [[transactions stats] Hx].
    pose proof (parse_all_logs_frame _ _ _ Hp) as (Hcols & _ & _).
    unfold run_complete_analysis. fold raw. rewrite Hp. cbn [bind].
    rewrite categorize_logs_frame
      by (unfold has_column; rewrite Hcols; reflexivity).
    cbn [bind fst snd]. rewrite Hx. cbn [bind fst snd].
    apply extract_transactions_inv in Hx as (cands & _ & -> & _).
    destruct (analyze_user_patterns_rows argsort fsum (filter retained cands))
      as (ua & Hua & _).
    unfold export_results. rewrite Hua. cbn [bind]. eexists. reflexivity.
Qed.

Lemma row_count_nonempty {R : Type} (keys : list string) (data : list R) :
  keys <> [] ->
  Spec.row_count (nonempty (DataFrame_of keys data)) = List.length data /\
  (nonempty (DataFrame_of keys data) = None <-> List.length data = 0).
Proof.
  intros Hk. unfold nonempty. rewrite empty_DataFrame_of by assumption.
  destruct data as [|x data]; cbn [negb Spec.row_count List.length].
  - split; [reflexivity|]. split; reflexivity.
  - split.
    + destruct keys; [contradiction|reflexivity].
    + split; discriminate.
Qed.

Lemma analyze_user_patterns_frame (argsort : list Z -> list nat)
      (fsum : list Q -> Q)
      (transactions : DataFrame Tx.t) (user_analysis : DataFrame User.t) :
  analyze_user_patterns argsort fsum transactions = Ok user_analysis ->
  user_analysis = DataFrame_of User.keys (rows user_analysis).
Proof.
  unfold analyze_user_patterns. intros H.
  destruct (negb (empty transactions)).
  - apply bind_ok in H as (ids & _ & H).
    apply bind_ok in H as (out & _ & H). injection H as <-.
    destruct (somes out); reflexivity.
  - injection H as <-. reflexivity.
Qed.

(** X17. When the run returns, its report is consistent.  The category
    counts add up to the number of loaded lines, and the percentages of
    the category file, which are computed in floating point, to 100
    within the tolerance 2^-44 (for fewer than 2^63 lines, the range of
    the counts); no more transactions are counted than there are
    transaction lines, and no more negative and low balances than
    transactions; each of the three optional files has as many rows as
    the matching count of the report (transactions, distinct users,
    negative balances) and is left out exactly when that count is zero.
    The user file needs a sorting [argsort]. *)
Theorem run_complete_analysis_report :
  forall (to_datetime : list (option string) -> string -> result Z)
         (argsort : list Z -> list nat) (fsum : list Q -> Q)
         (file_lines : list string) (a : analysis),
    sorts argsort ->
    (Z.of_nat (List.length (load_logs file_lines)) < 2 ^ 63)%Z ->
    run_complete_analysis to_datetime argsort fsum file_lines = Ok a ->
    list_sum (map snd (category_stats a)) = List.length (load_logs file_lines) /\
    (Qabs (Spec.total_percentage (category_stats_csv (exported a)) - (100 # 1))
     <= Spec.tolerance)%Q /\
    total_count (tx_stats a)
      <= List.length (filter Spec.transaction_line (load_logs file_lines)) /\
    negative_balance_count (od_stats a) + low_balance_count (od_stats a)
      <= total_count (tx_stats a) /\
    (Spec.row_count (transactions_csv (exported a)) = total_count (tx_stats a) /\
     (transactions_csv (exported a) = None <-> total_count (tx_stats a) = 0)) /\
    (Spec.row_count (user_analysis_csv (exported a)) = unique_users (tx_stats a) /\
     (user_analysis_csv (exported a) = None <-> unique_users (tx_stats a) = 0)) /\
    (Spec.row_count (overdrafts_csv (exported a))
       = negative_balance_count (od_stats a) /\
     (overdrafts_csv (exported a) = None
        <-> negative_balance_count (od_stats a) = 0)).
Proof.
  intros to_datetime argsort fsum file_lines a Hs Hmax Hrun.
  apply run_complete_analysis_inv in Hrun
    as (parsed & cands & stats & ua & Hp & Hc & Ht & Hu & Hua & ->).
  cbn [category_stats tx_stats od_stats exported transactions_csv
       user_analysis_csv category_stats_csv overdrafts_csv].
  pose proof (parse_all_logs_frame _ _ _ Hp) as (_ & Hrecs & Hne).
  assert (Hlen : List.length (rows parsed) = List.length (load_logs file_lines)).
  { rewrite <- (length_map Log.rec), Hrecs, length_map. reflexivity. }
  set (cats := map (fun l => categorize_message (Rec.message (Log.rec l)))
                   (rows parsed)).
  assert (Hsum : list_sum (map snd (value_counts cats))
                 = List.length (load_logs file_lines)).
  { rewrite value_counts_sum. unfold cats. rewrite length_map. exact Hlen. }
  split; [exact Hsum|].
  split.
  { apply category_table_tolerance; rewrite Hsum; [|assumption].
    destruct (load_logs file_lines); [contradiction|discriminate]. }
  split.
  { rewrite Ht.
    etransitivity; [apply filter_length_le|].
    rewrite (mapM_length _ _ _ Hc).
    rewrite (filter_map_length is_transaction).
    unfold is_transaction. cbn [CLog.message_category].
    rewrite <- (filter_map_length
                  (fun r => Category.eqb (categorize_message (Rec.message r))
                                         Category.transaction) Log.rec).
    rewrite Hrecs, filter_map_length. apply Nat.le_refl. }
  rewrite detect_overdrafts_of. cbn [fst snd negative_balance_count low_balance_count].
  split.
  { rewrite Ht. apply filter_disjoint_length, negative_low_disjoint. }
  split.
  { rewrite Ht. apply row_count_nonempty. discriminate. }
  split.
  { rewrite (analyze_user_patterns_frame _ _ _ _ Hua).
    destruct (analyze_user_patterns_summaries argsort fsum
                (filter retained cands) Hs) as (ua' & Hua' & Hrows).
    rewrite Hua in Hua'. injection Hua' as <-.
    apply Forall2_length in Hrows. rewrite users_of_length in Hrows.
    rewrite Hu, Hrows. apply row_count_nonempty. discriminate. }
  apply row_count_nonempty. discriminate.
Qed.

(** On the good batch: two loaded lines, one transaction, one user, no
    overdraft; the transaction and user files are written, the overdraft
    file is not. *)
Lemma run_complete_analysis_report_witness :
  sorts insertion_argsort /\
  (Z.of_nat (List.length
               (load_logs [Sample.good_line; Sample.no_anchor_line]))
   < 2 ^ 63)%Z /\
  run_complete_analysis (cellwise iso_to_datetime) insertion_argsort
    sequential_sum [Sample.good_line; Sample.no_anchor_line]
    = Ok Sample.analysis_good /\
  list_sum (map snd (category_stats Sample.analysis_good))
    = List.length (load_logs [Sample.good_line; Sample.no_anchor_line]) /\
  (Qabs (Spec.total_percentage
           (category_stats_csv (exported Sample.analysis_good)) - (100 # 1))
   <= Spec.tolerance)%Q /\
  total_count (tx_stats Sample.analysis_good)
    <= List.length (filter Spec.transaction_line
                      (load_logs [Sample.good_line; Sample.no_anchor_line])) /\
  negative_balance_count (od_stats Sample.analysis_good)
  + low_balance_count (od_stats Sample.analysis_good)
    <= total_count (tx_stats Sample.analysis_good) /\
  (Spec.row_count (transactions_csv (exported Sample.analysis_good))
     = total_count (tx_stats Sample.analysis_good) /\
   (transactions_csv (exported Sample.analysis_good) = None
      <-> total_count (tx_stats Sample.analysis_good) = 0)) /\
  (Spec.row_count (user_analysis_csv (exported Sample.analysis_good))
     = unique_users (tx_stats Sample.analysis_good) /\
   (user_analysis_csv (exported Sample.analysis_good) = None
      <-> unique_users (tx_stats Sample.analysis_good) = 0)) /\
  (Spec.row_count (overdrafts_csv (exported Sample.analysis_good))
     = negative_balance_count (od_stats Sample.analysis_good) /\
   (overdrafts_csv (exported Sample.analysis_good) = None
      <-> negative_balance_count (od_stats Sample.analysis_good) = 0)).
Proof.
  split; [exact insertion_argsort_sorts|]. split; [reflexivity|].
  split; [vm_compute; reflexivity|].
  apply (run_complete_analysis_report (cellwise iso_to_datetime)
           insertion_argsort sequential_sum
           [Sample.good_line; Sample.no_anchor_line] Sample.analysis_good
           insertion_argsort_sorts).
  - reflexivity.
  - vm_compute. reflexivity.
Defined.
